(** * A shallow embedding of [smartcross/envs/cityflow_env.py]

    The CityFlow environment of DI-smartcross: the radix-4 action codec
    ([md2d], [d2md]), the phase-transition controller ([_simulate]), the
    episode driver ([reset], [step]) and the telemetry read-outs
    ([_get_obs], [_get_reward]).

    Python dicts are association lists kept in insertion order (the code
    zips the action with [self._current_phases.items()], so the order
    matters).  The CityFlow engine is external: it is modelled by the trace
    of the commands it received ([set_tl_phase], [next_step], [reset]);
    its telemetry read-outs are functions of that trace, supplied with the
    configuration.  Python exceptions raised on the way keep the mutations
    already performed, so a failing computation still returns its state. *)

From Stdlib Require Import ZArith List String Bool Lia.
Import ListNotations.
Open Scope Z_scope.

(** ** Action codec (lines 15-30) *)

(** [md2d]: [res *= 4; res += i] for every digit, most significant first. *)
Definition md2d (md_action : list Z) : Z :=
  fold_left (fun res i => res * 4 + i) md_action 0.

(** One iteration of the [d2md] loop: [res.append(tmp % 4); tmp = tmp // 4].
    Python's [%] and [//] round toward minus infinity, as [Z.modulo] and
    [Z.div] do. *)
Fixpoint d2md_loop (n : nat) (tmp : Z) (res : list Z) : list Z :=
  match n with
  | O => res
  | S n' => d2md_loop n' (tmp / 4) (res ++ [tmp mod 4])
  end.

(** [d2md]: four base-4 digits, then [res.reverse()]. *)
Definition d2md (d_action : Z) : list Z :=
  rev (d2md_loop 4 d_action []).

(** ** Python helpers *)

(** [l[i]] on a Python list: negative indices count from the end, anything
    else outside the list raises [IndexError] ([None] here). *)
Definition py_index {A} (l : list A) (i : Z) : option A :=
  if 0 <=? i then nth_error l (Z.to_nat i)
  else if - Z.of_nat (List.length l) <=? i
       then nth_error l (Z.to_nat (Z.of_nat (List.length l) + i))
       else None.

(** [d[k]] on a dict with string keys: [None] is [KeyError]. *)
Fixpoint dict_get {V} (d : list (string * V)) (k : string) : option V :=
  match d with
  | [] => None
  | (k', v) :: d' => if String.eqb k k' then Some v else dict_get d' k
  end.

(** [d[k] = v]: an existing key keeps its position, a new key goes last. *)
Fixpoint dict_set {V} (d : list (string * V)) (k : string) (v : V)
  : list (string * V) :=
  match d with
  | [] => [(k, v)]
  | (k', v') :: d' =>
      if String.eqb k k' then (k', v) :: d' else (k', v') :: dict_set d' k v
  end.

(** [s[:-2]]: the string without its last two characters ([""] when it is
    shorter). *)
Definition drop_last2 (s : string) : string :=
  substring 0 (String.length s - 2) s.

(** [sub in s] for two strings: substring test. *)
Fixpoint str_contains (sub s : string) : bool :=
  String.prefix sub s ||
  match s with
  | EmptyString => false
  | String _ s' => str_contains sub s'
  end.

(** [x in l] for a list of strings: membership. *)
Definition list_contains (x : string) (l : list string) : bool :=
  existsb (String.eqb x) l.

(** ** Configuration and state *)

(** [self._crossing_phases[cross]]: the indices of the Green, Yellow and Red
    light phases, keys ['G'], ['Y'], ['R']. *)
Record PhaseSet := mkPhaseSet { G : list Z; Y : list Z; R : list Z }.

(** The commands the engine receives. *)
Inductive event :=
| SetTlPhase (cross : string) (phase : Z)   (* eng.set_tl_phase *)
| NextStep                                  (* eng.next_step *)
| EngReset.                                 (* eng.reset *)

(** The attributes set by [__init__] and [_parse_config_file], plus the
    engine's telemetry read-outs, as functions of its command trace. *)
Record Config := mkConfig {
  obs_type : list string;
  max_episode_duration : Z;
  green_duration : Z;
  yellow_duration : Z;
  red_duration : Z;
  from_discrete : bool;
  no_actions : bool;
  crossings : list string;
  crossing_in_roads : list (string * list string);
  crossing_out_roads : list (string * list string);
  crossing_phases : list (string * PhaseSet);
  get_lane_vehicle_count : list event -> list (string * Z);
  get_lane_waiting_vehicle_count : list event -> list (string * Z)
}.

(** The mutable attributes of the environment. *)
Record State := mkState {
  eng : list event;
  total_duration : Z;
  total_reward : Z;
  current_phases : list (string * Z)
}.

Inductive exn := IndexError | KeyError | TypeError | ValueError.

(** A Python call: a value and the new state, or an exception and the state
    reached when it was raised. *)
Inductive res (A : Type) :=
| Ok (a : A) (s : State)
| Err (e : exn) (s : State).
Arguments Ok {A}.
Arguments Err {A}.

Definition res_state {A} (r : res A) : State :=
  match r with Ok _ s => s | Err _ s => s end.

Definition M (A : Type) := State -> res A.

Definition ret {A} (a : A) : M A := fun s => Ok a s.
Definition bind {A B} (m : M A) (f : A -> M B) : M B :=
  fun s => match m s with Ok a s' => f a s' | Err e s' => Err e s' end.
Definition raise {A} (e : exn) : M A := fun s => Err e s.
Definition modify (f : State -> State) : M unit := fun s => Ok tt (f s).
Definition gets {A} (f : State -> A) : M A := fun s => Ok (f s) s.

Notation "x <- m ;; k" := (bind m (fun x => k))
  (at level 61, m at next level, right associativity).
Notation "m ;;; k" := (bind m (fun _ => k))
  (at level 61, right associativity).

Definition lift {A} (o : option A) (e : exn) : M A :=
  match o with Some a => ret a | None => raise e end.

Fixpoint mfor {A} (l : list A) (body : A -> M unit) : M unit :=
  match l with
  | [] => ret tt
  | a :: l' => body a ;;; mfor l' body
  end.

Definition emit (ev : event) : M unit :=
  modify (fun s => mkState (eng s ++ [ev]) (total_duration s)
                           (total_reward s) (current_phases s)).

Definition set_tl_phase (cross : string) (phase : Z) : M unit :=
  emit (SetTlPhase cross phase).

(** [for t in range(n): self._eng.next_step()]; [range] of a negative
    number is empty. *)
Definition next_steps (n : Z) : M unit :=
  modify (fun s => mkState (eng s ++ repeat NextStep (Z.to_nat n))
                           (total_duration s) (total_reward s)
                           (current_phases s)).

Definition add_duration (d : Z) : M unit :=
  modify (fun s => mkState (eng s) (total_duration s + d)
                           (total_reward s) (current_phases s)).

Definition set_current (cross : string) (p : Z) : M unit :=
  modify (fun s => mkState (eng s) (total_duration s) (total_reward s)
                           (dict_set (current_phases s) cross p)).

Definition phases_of (cfg : Config) (cross : string) : M PhaseSet :=
  lift (dict_get (crossing_phases cfg) cross) KeyError.

(** ** Phase transition controller: [_simulate] (lines 162-201) *)

(** The first loop of [_simulate]: an intersection whose action equals its
    current phase is re-set to [G[act]] at once; the others are collected in
    [changed_tl_id] as [cross -> (act, cur_act)]. *)
Fixpoint scan_actions (cfg : Config) (pairs : list (Z * (string * Z)))
    (changed : list (string * (Z * Z))) : M (list (string * (Z * Z))) :=
  match pairs with
  | [] => ret changed
  | (act, (cross, cur_act)) :: rest =>
      if act =? cur_act then
        ps <- phases_of cfg cross ;;
        new_phase <- lift (py_index (G ps) act) IndexError ;;
        set_tl_phase cross new_phase ;;;
        set_current cross act ;;;
        scan_actions cfg rest changed
      else scan_actions cfg rest (dict_set changed cross (act, cur_act))
  end.

Definition red_stage (cfg : Config) (changed : list (string * (Z * Z)))
  : M unit :=
  mfor changed (fun '(cross, _) =>
    ps <- phases_of cfg cross ;;
    red_phase <- lift (py_index (R ps) 0) IndexError ;;
    set_tl_phase cross red_phase) ;;;
  next_steps (red_duration cfg).

Definition yellow_stage (cfg : Config) (changed : list (string * (Z * Z)))
  : M unit :=
  mfor changed (fun '(cross, (act, cur_act)) =>
    ps <- phases_of cfg cross ;;
    yellow_phase <- lift (py_index (Y ps) cur_act) IndexError ;;
    set_tl_phase cross yellow_phase) ;;;
  next_steps (yellow_duration cfg).

Definition green_commands (cfg : Config) (changed : list (string * (Z * Z)))
  : M unit :=
  mfor changed (fun '(cross, (act, cur_act)) =>
    ps <- phases_of cfg cross ;;
    green_phase <- lift (py_index (G ps) act) IndexError ;;
    set_tl_phase cross green_phase ;;;
    set_current cross act).

Definition cycle (cfg : Config) : Z :=
  red_duration cfg + yellow_duration cfg + green_duration cfg.

Definition _simulate (cfg : Config) (action : list Z) : M unit :=
  if no_actions cfg then
    next_steps (cycle cfg) ;;;
    add_duration (cycle cfg)
  else
    cur <- gets current_phases ;;
    changed_tl_id <- scan_actions cfg (combine action cur) [] ;;
    match changed_tl_id with
    | [] => next_steps (cycle cfg)
    | _ :: _ =>
        (if 0 <? red_duration cfg then red_stage cfg changed_tl_id
         else ret tt) ;;;
        (if 0 <? yellow_duration cfg then yellow_stage cfg changed_tl_id
         else ret tt) ;;;
        green_commands cfg changed_tl_id ;;;
        next_steps (green_duration cfg)
    end ;;;
    add_duration (cycle cfg).

(** ** Telemetry: [_get_obs] and [_get_reward] (lines 120-160)

    Both only read the state; they are pure functions that either return
    their dict or raise. *)

Definition ebind {A B} (m : exn + A) (f : A -> exn + B) : exn + B :=
  match m with inl e => inl e | inr a => f a end.
Notation "x <-? m ;; k" := (ebind m (fun x => k))
  (at level 61, m at next level, right associativity).

Definition of_option {A} (o : option A) (e : exn) : exn + A :=
  match o with Some a => inr a | None => inl e end.

Fixpoint efold {A B} (f : B -> A -> exn + B) (l : list A) (acc : B)
  : exn + B :=
  match l with
  | [] => inr acc
  | a :: l' => acc' <-? f acc a ;; efold f l' acc'
  end.

(** [l[i] = v] on a Python list. *)
Definition py_set_index {A} (l : list A) (i : Z) (v : A) : option (list A) :=
  let n := Z.of_nat (List.length l) in
  let j := if i <? 0 then n + i else i in
  if (0 <=? j) && (j <? n)
  then Some (firstn (Z.to_nat j) l ++ v :: skipn (S (Z.to_nat j)) l)
  else None.

(** [obs[cross] += xs] *)
Definition obs_extend (obs : list (string * list Z)) (cross : string)
    (xs : list Z) : exn + list (string * list Z) :=
  old <-? of_option (dict_get obs cross) KeyError ;;
  inr (dict_set obs cross (old ++ xs)).

(** The per-intersection lane read-out: the values of the lanes whose
    [k[:-2]] is in the list [roads]. *)
Definition lane_values (all : list (string * Z)) (roads : list string)
  : list Z :=
  map snd (filter (fun '(k, _) => list_contains (drop_last2 k) roads) all).

Definition _get_obs (cfg : Config) (s : State)
  : exn + list (string * list Z) :=
  let obs := map (fun cross => (cross, [])) (crossings cfg) in
  obs <-? (if list_contains "phase" (obs_type cfg) then
             efold (fun obs '(cross, ps) =>
                      ph <-? of_option (dict_get (current_phases s) cross)
                                       KeyError ;;
                      onehot <-? of_option
                                   (py_set_index (repeat 0 (List.length (G ps)))
                                                 ph 1) IndexError ;;
                      obs_extend obs cross onehot)
                   (crossing_phases cfg) obs
           else inr obs) ;;
  obs <-? (if list_contains "lane_vehicle_num" (obs_type cfg) then
             let all := get_lane_vehicle_count cfg (eng s) in
             efold (fun obs '(cross, roads) =>
                      obs_extend obs cross (lane_values all roads))
                   (crossing_in_roads cfg) obs
           else inr obs) ;;
  (if list_contains "lane_waiting_vehicle_num" (obs_type cfg) then
     let all := get_lane_waiting_vehicle_count cfg (eng s) in
     efold (fun obs '(cross, roads) =>
              obs_extend obs cross (lane_values all roads))
           (crossing_in_roads cfg) obs
   else inr obs).

(** The inner loops of [_get_reward]: [for roads in ...: for k, v in ...:
    if k[:-2] in roads: cross_reward += v] (resp. [-= v]).  Here [roads]
    is one road id, a string, so [in] is a substring test. *)
Definition add_waiting (sign : Z) (all : list (string * Z))
    (road_ids : list string) (acc : Z) : Z :=
  fold_left (fun acc roads =>
    fold_left (fun acc '(k, v) =>
      if str_contains (drop_last2 k) roads then acc + sign * v else acc)
      all acc)
    road_ids acc.

Definition cross_reward (cfg : Config) (all : list (string * Z))
    (cross : string) : exn + Z :=
  in_roads <-? of_option (dict_get (crossing_in_roads cfg) cross) KeyError ;;
  out_roads <-? of_option (dict_get (crossing_out_roads cfg) cross) KeyError ;;
  inr (- add_waiting (-1) all out_roads (add_waiting 1 all in_roads 0)).

Definition _get_reward (cfg : Config) (s : State)
  : exn + list (string * Z) :=
  let all := get_lane_waiting_vehicle_count cfg (eng s) in
  efold (fun reward cross =>
           r <-? cross_reward cfg all cross ;;
           inr (dict_set reward cross r))
        (crossings cfg) (map (fun cross => (cross, 0)) (crossings cfg)).

(** Modelled from the spec: [squeeze_obs] (smartcross.utils.env_utils, not
    in the sources) concatenates the per-intersection vectors in the fixed
    intersection order into the flat observation. *)
Definition squeeze_obs (obs : list (string * list Z)) : list Z :=
  List.concat (map snd obs).

Definition pure {A} (r : exn + A) : M A :=
  fun s => match r with inl e => Err e s | inr a => Ok a s end.

(** ** Episode driver: [reset] and [step] (lines 203-231) *)

(** The body of the loop over [self._crossings] in [reset]. *)
Definition reset_crossing (cfg : Config) (cross : string) : M unit :=
  (if negb (no_actions cfg) then
     ps <- phases_of cfg cross ;;
     phase <- lift (py_index (G ps) 0) IndexError ;;
     set_tl_phase cross phase
   else ret tt) ;;;
  set_current cross 0.

Definition reset (cfg : Config) : M (list Z) :=
  modify (fun s => mkState (eng s ++ [EngReset]) 0 0 []) ;;;
  mfor (crossings cfg) (reset_crossing cfg) ;;;
  obs <- (fun s => pure (_get_obs cfg s) s) ;;
  ret (squeeze_obs obs).

(** The action handed to [step]: a scalar or a one-dimensional array. *)
Inductive action :=
| AScalar (d : Z)
| AVector (v : list Z).

(** [np.squeeze]: a one-element array becomes a 0-d array (a scalar). *)
Definition np_squeeze (a : action) : action :=
  match a with
  | AVector [x] => AScalar x
  | _ => a
  end.

(** The array [step] hands to [self._simulate]: [np.squeeze(action)], and
    in discrete mode [np.array(d2md(action))]. *)
Inductive sim_value :=
| Arr0 (d : Z)        (* a 0-d array *)
| Arr1 (v : list Z)   (* a one-dimensional array *)
| Arr2 (v : list Z).  (* [np.array(d2md(v))] for a one-dimensional [v]:
                         [%] and [//] act elementwise, so the four digits
                         are arrays and the result is a 4 x len(v) array *)

Definition action_value (cfg : Config) (a : action) : sim_value :=
  match np_squeeze a, from_discrete cfg with
  | AScalar d, true => Arr1 (d2md d)
  | AScalar d, false => Arr0 d
  | AVector v, true => Arr2 v
  | AVector v, false => Arr1 v
  end.

(** The per-intersection entries [zip(action, ...)] draws from that array,
    when it is one-dimensional. *)
Definition decode_action (cfg : Config) (a : action) : option (list Z) :=
  match action_value cfg a with
  | Arr1 v => Some v
  | _ => None
  end.

(** [self._simulate(action)] on any of these arrays.  With actions disabled
    the argument is never read (the first branch).  With actions enabled,
    [zip] over a 0-d array raises [TypeError] before the loop; the rows of a
    4 x len(v) array are arrays of len(v) <> 1 entries (a one-element vector
    was squeezed), and [if act == cur_act] on the first row raises
    [ValueError] (the truth value of such an array; of an empty one since
    NumPy 2.2), unless [self._current_phases] is empty and [zip] yields
    no pair, which is [_simulate] with no entry. *)
Definition simulate_value (cfg : Config) (x : sim_value) : M unit :=
  match x with
  | Arr1 v => _simulate cfg v
  | Arr0 _ => if no_actions cfg then _simulate cfg [] else raise TypeError
  | Arr2 _ =>
      if no_actions cfg then _simulate cfg [] else
      cur <- gets current_phases ;;
      match cur with
      | [] => _simulate cfg []
      | _ :: _ => raise ValueError
      end
  end.

(** [sum(reward.values())]: a Python sum of ints, exact. *)
Definition sum_values (d : list (string * Z)) : Z :=
  fold_left Z.add (map snd d) 0.

(** The value of an integer as [np.float32]: the nearest single-precision
    number, ties to even (24-bit significand); it is an integer again.
    For integers below 2^53 in magnitude this is the conversion whichever
    way NumPy performs it; magnitudes past the float32 range (about 3.4e38),
    which overflow to infinity, are not represented. *)
Definition round_f32 (x : Z) : Z :=
  let a := Z.abs x in
  if a <? 2 ^ 24 then x else
  let e := Z.log2 a - 23 in
  let q := Z.shiftr a e in
  let rem := a - Z.shiftl q e in
  let half := 2 ^ (e - 1) in
  let q' := if half <? rem then q + 1
            else if rem <? half then q
            else if Z.even q then q else q + 1 in
  Z.sgn x * Z.shiftl q' e.

(** [self._total_reward += reward] with [reward] a float32: the sum is a
    float32 (the int [0] set by [reset] plus a float32 is one too), so each
    addition is rounded. *)
Definition add_reward (r : Z) : M unit :=
  modify (fun s => mkState (eng s) (total_duration s)
                           (round_f32 (total_reward s + r))
                           (current_phases s)).

(** [step] returns the observation, the reward and [done]. *)
Definition step (cfg : Config) (a : action) : M (list Z * Z * bool) :=
  simulate_value cfg (action_value cfg a) ;;;
  obs <- (fun s => pure (_get_obs cfg s) s) ;;
  reward <- (fun s => pure (_get_reward cfg s) s) ;;
  let r := round_f32 (sum_values reward) in
  add_reward r ;;;
  d <- gets total_duration ;;
  ret (squeeze_obs obs, r, max_episode_duration cfg <? d).

(** A caller driving an episode: [step] once per action, in order, each on
    the state the previous call left; the first exception ends the run. *)
Fixpoint play (cfg : Config) (acts : list action) : M (list (list Z * Z * bool)) :=
  match acts with
  | [] => ret []
  | a :: acts' =>
      out <- step cfg a ;;
      outs <- play cfg acts' ;;
      ret (out :: outs)
  end.

(** ** The commands [_simulate] sends, written out *)

Definition gphase (cfg : Config) (cross : string) (i : Z) : option Z :=
  match dict_get (crossing_phases cfg) cross with
  | Some ps => py_index (G ps) i | None => None end.
Definition yphase (cfg : Config) (cross : string) (i : Z) : option Z :=
  match dict_get (crossing_phases cfg) cross with
  | Some ps => py_index (Y ps) i | None => None end.
Definition rphase (cfg : Config) (cross : string) : option Z :=
  match dict_get (crossing_phases cfg) cross with
  | Some ps => py_index (R ps) 0 | None => None end.

Definition opt_cmd (cross : string) (o : option Z) : list event :=
  match o with Some p => [SetTlPhase cross p] | None => [] end.

(** [changed_tl_id] after the first loop of [_simulate]. *)
Definition changed_of (pairs : list (Z * (string * Z)))
    (ch : list (string * (Z * Z))) : list (string * (Z * Z)) :=
  fold_left (fun ch '(act, (cross, cur_act)) =>
               if act =? cur_act then ch
               else dict_set ch cross (act, cur_act)) pairs ch.

Definition unchanged_cmds (cfg : Config) (pairs : list (Z * (string * Z)))
  : list event :=
  flat_map (fun '(act, (cross, cur_act)) =>
              if act =? cur_act then opt_cmd cross (gphase cfg cross act)
              else []) pairs.

Definition red_cmds (cfg : Config) (ch : list (string * (Z * Z)))
  : list event :=
  flat_map (fun '(cross, _) => opt_cmd cross (rphase cfg cross)) ch.
Definition yellow_cmds (cfg : Config) (ch : list (string * (Z * Z)))
  : list event :=
  flat_map (fun '(cross, (_, cur_act)) =>
              opt_cmd cross (yphase cfg cross cur_act)) ch.
Definition green_cmds (cfg : Config) (ch : list (string * (Z * Z)))
  : list event :=
  flat_map (fun '(cross, (act, _)) => opt_cmd cross (gphase cfg cross act)) ch.

(** The whole command sequence of one action-mode [_simulate]. *)
Definition sim_events (cfg : Config) (pairs : list (Z * (string * Z)))
  : list event :=
  let ch := changed_of pairs [] in
  unchanged_cmds cfg pairs ++
  match ch with
  | [] => repeat NextStep (Z.to_nat (cycle cfg))
  | _ :: _ =>
      (if 0 <? red_duration cfg
       then red_cmds cfg ch ++ repeat NextStep (Z.to_nat (red_duration cfg))
       else []) ++
      (if 0 <? yellow_duration cfg
       then yellow_cmds cfg ch
            ++ repeat NextStep (Z.to_nat (yellow_duration cfg))
       else []) ++
      green_cmds cfg ch ++ repeat NextStep (Z.to_nat (green_duration cfg))
  end.

Definition sim_current (pairs : list (Z * (string * Z))) (cur : list (string * Z))
  : list (string * Z) :=
  fold_left (fun c '(cross, (act, _)) => dict_set c cross act)
            (changed_of pairs []) cur.

(** Engine ticks in a command trace, and the phases commanded to one
    intersection. *)
Definition ticks (l : list event) : nat :=
  List.length (filter (fun e => match e with NextStep => true | _ => false end) l).

Definition cmds_for (x : string) (l : list event) : list Z :=
  flat_map (fun e => match e with
                     | SetTlPhase c p => if String.eqb c x then [p] else []
                     | _ => [] end) l.

(** ** Well-formedness of the topology and the controller state *)

Definition glen (cfg : Config) (cross : string) : Z :=
  match dict_get (crossing_phases cfg) cross with
  | Some ps => Z.of_nat (List.length (G ps)) | None => 0 end.

(** What the loader produces and the spec's data model requires: every
    intersection has its phases; a Red phase exists when the Red stage runs;
    a Yellow phase per Green one when the Yellow stage runs; phase indices
    are distinct (they are positions in [lightphases]). *)
Definition topology_wf (cfg : Config) : Prop :=
  Forall (fun cross => exists ps,
    dict_get (crossing_phases cfg) cross = Some ps /\
    (0 < red_duration cfg -> R ps <> []) /\
    (0 < yellow_duration cfg -> (List.length (G ps) <= List.length (Y ps))%nat) /\
    NoDup (G ps ++ Y ps ++ R ps)) (crossings cfg).

(** [self._current_phases]: one entry per intersection, in order, each a
    position in that intersection's Green list. *)
Definition state_ok (cfg : Config) (s : State) : Prop :=
  map fst (current_phases s) = crossings cfg /\ NoDup (crossings cfg) /\
  (forall cross c, In (cross, c) (current_phases s) -> 0 <= c < glen cfg cross).

(** Every action entry (as zipped with the intersections) is a position in
    its intersection's Green list. *)
Definition actions_in_range (cfg : Config) (cur : list (string * Z))
    (v : list Z) : Prop :=
  forall act cross c, In (act, (cross, c)) (combine v cur) ->
    0 <= act < glen cfg cross.

Definition durations_nonneg (cfg : Config) : Prop :=
  0 <= red_duration cfg /\ 0 <= yellow_duration cfg /\ 0 <= green_duration cfg.

(** [m] keeps [I], and its value satisfies [Q] when it returns. *)
Definition hoare (I : State -> Prop) {A} (m : M A) (Q : A -> Prop) : Prop :=
  forall s, I s ->
    match m s with Ok a s' => Q a /\ I s' | Err _ s' => I s' end.

(** The action-mode body of [_simulate], between reading
    [self._current_phases] and adding the cycle to [_total_duration]. *)
Definition sim_core (cfg : Config) (v : list Z) (cur : list (string * Z))
  : M unit :=
  changed_tl_id <- scan_actions cfg (combine v cur) [] ;;
  match changed_tl_id with
  | [] => next_steps (cycle cfg)
  | _ :: _ =>
      (if 0 <? red_duration cfg then red_stage cfg changed_tl_id
       else ret tt) ;;;
      (if 0 <? yellow_duration cfg then yellow_stage cfg changed_tl_id
       else ret tt) ;;;
      green_commands cfg changed_tl_id ;;;
      next_steps (green_duration cfg)
  end.

(** Every entry of [changed_tl_id] comes from a zipped pair whose action
    differs from the current phase. *)
Definition from_pairs (pairs : list (Z * (string * Z)))
    (ch : list (string * (Z * Z))) : Prop :=
  forall k a c, In (k, (a, c)) ch -> In (a, (k, c)) pairs /\ a <> c.

Definition olist (o : option Z) : list Z :=
  match o with Some p => [p] | None => [] end.

Definition pkey (p : Z * (string * Z)) : string := fst (snd p).

Definition swap_pair (p : Z * (string * Z)) : string * (Z * Z) :=
  let '(act, (cross, c)) := p in (cross, (act, c)).

Definition differs (p : Z * (string * Z)) : bool :=
  let '(act, (_, c)) := p in negb (act =? c).

(** Any sequence of [step] calls (whatever their outcome, exceptions
    included) with no [reset] in between. *)
Inductive runs (cfg : Config) : State -> State -> Prop :=
| runs_refl s : runs cfg s s
| runs_step s a s' : runs cfg (res_state (step cfg a s)) s' -> runs cfg s s'.

(** ** Loading the road network: [_parse_config_file] (lines 49-98) *)

(** One entry of [roadnet_config['intersections']]: its ['id'], ['virtual']
    flag, ['roads'], and, for each of its ['trafficLight']['lightphases'],
    [len(it['availableRoadLinks'])]. *)
Record rn_intersection := mkRnIntersection {
  rn_id : string;
  rn_virtual : bool;
  rn_roads : list string;
  rn_lightphases : list nat
}.

(** The three dicts the loop fills: [_crossing_in_roads],
    [_crossing_out_roads], [_crossing_phases]. *)
Record Topology := mkTopology {
  t_in : list (string * list string);
  t_out : list (string * list string);
  t_phases : list (string * PhaseSet)
}.

(** One light phase, at position [id] of [lightphases]: more than four road
    links is a Green phase, four a Yellow one, none the Red one; any other
    count only prints ["Unrecognized phase!"]. *)
Definition classify_phase (ps : PhaseSet) (id : Z) (n : nat) : PhaseSet :=
  if (4 <? n)%nat then mkPhaseSet (G ps ++ [id]) (Y ps) (R ps)
  else if (n =? 4)%nat then mkPhaseSet (G ps) (Y ps ++ [id]) (R ps)
  else if (n =? 0)%nat then mkPhaseSet (G ps) (Y ps) (R ps ++ [id])
  else ps.

(** [for id, it in enumerate(light_phases): ...], from position [id]. *)
Fixpoint classify_phases_from (id : Z) (links : list nat) (ps : PhaseSet)
  : PhaseSet :=
  match links with
  | [] => ps
  | n :: links' => classify_phases_from (id + 1) links' (classify_phase ps id n)
  end.

(** [self._crossing_phases[crossing_id] = {'G': [], 'Y': [], 'R': []}] and
    the loop over the light phases. *)
Definition classify_phases (links : list nat) : PhaseSet :=
  classify_phases_from 0 links (mkPhaseSet [] [] []).

Section Parse.
  (** [smartcross.utils.env_utils.get_suffix_num] is not in the sources: it
      is a parameter, so what is proved holds whatever it returns. *)
  Variable get_suffix_num : string -> list Z.

(** One road of an intersection: [road_id_num[0] == crossing_id_num[0] and
    road_id_num[1] == crossing_id_num[1]] (short-circuit [and], indexing
    raises on a short list) puts it in the outgoing list, else in the
    incoming one. *)
Definition split_road (crossing_id_num : list Z)
    (acc : list string * list string) (road_id : string)
  : exn + (list string * list string) :=
  let road_id_num := get_suffix_num road_id in
  r0 <-? of_option (py_index road_id_num 0) IndexError ;;
  c0 <-? of_option (py_index crossing_id_num 0) IndexError ;;
  same <-? (if r0 =? c0 then
              r1 <-? of_option (py_index road_id_num 1) IndexError ;;
              c1 <-? of_option (py_index crossing_id_num 1) IndexError ;;
              inr (r1 =? c1)
            else inr false) ;;
  inr (if same then (fst acc, snd acc ++ [road_id])
       else (fst acc ++ [road_id], snd acc)).

(** One iteration of [for item in crossings_config]: a virtual intersection
    is skipped; otherwise its entries of the three dicts are (re)set, its
    roads are split and its light phases classified.  The road lists are
    built locally and stored once: between [= []] and the last [append]
    nothing else reads or writes these entries. *)
Definition parse_item (t : Topology) (item : rn_intersection)
  : exn + Topology :=
  if rn_virtual item then inr t else
  let crossing_id := rn_id item in
  let crossing_id_num := get_suffix_num crossing_id in
  io <-? efold (split_road crossing_id_num) (rn_roads item) ([], []) ;;
  inr (mkTopology (dict_set (t_in t) crossing_id (fst io))
                  (dict_set (t_out t) crossing_id (snd io))
                  (dict_set (t_phases t) crossing_id
                            (classify_phases (rn_lightphases item)))).

Definition parse_intersections (items : list rn_intersection) : exn + Topology :=
  efold parse_item items (mkTopology [] [] []).
End Parse.

(** [self._crossings = list(self._crossing_in_roads.keys())]. *)
Definition topology_crossings (t : Topology) : list string := map fst (t_in t).

(** [self._road_lanes]: an empty list per road of [roadnet_config['roads']],
    then every lane of [get_lane_vehicle_count()] appended to the entry of
    [lane[:-2]] ([KeyError] when that road is not listed). *)
Definition build_road_lanes (road_ids : list string) (all_lanes : list string)
  : exn + list (string * list string) :=
  efold (fun rl lane =>
           old <-? of_option (dict_get rl (drop_last2 lane)) KeyError ;;
           inr (dict_set rl (drop_last2 lane) (old ++ [lane])))
        all_lanes
        (fold_left (fun rl road_id => dict_set rl road_id []) road_ids []).

(** ** Spaces: [_init_info] (lines 100-118) *)

(** [for road in self._crossing_in_roads.values(): for r in road:
    obs_len += len(self._road_lanes[r])]. *)
Definition add_lane_len (in_roads : list (string * list string))
    (road_lanes : list (string * list string)) (n : Z) : exn + Z :=
  efold (fun n '(_, road) =>
           efold (fun n r =>
                    lanes <-? of_option (dict_get road_lanes r) KeyError ;;
                    inr (n + Z.of_nat (List.length lanes)))
                 road n)
        in_roads n.

(** The length of the observation space. *)
Definition init_obs_len (obs_type : list string)
    (in_roads : list (string * list string))
    (phases : list (string * PhaseSet))
    (road_lanes : list (string * list string)) : exn + Z :=
  let obs_len := if list_contains "phase" obs_type
                 then fold_left (fun n '(_, ps) => n + Z.of_nat (List.length (G ps)))
                                phases 0
                 else 0 in
  obs_len <-? (if list_contains "lane_vehicle_num" obs_type
               then add_lane_len in_roads road_lanes obs_len else inr obs_len) ;;
  (if list_contains "lane_waiting_vehicle_num" obs_type
   then add_lane_len in_roads road_lanes obs_len else inr obs_len).

(** [act_shape]: the number of Green phases of each intersection, the
    [nvec] of the [MultiDiscrete] action space. *)
Definition init_act_shape (crossings : list string)
    (phases : list (string * PhaseSet)) : exn + list Z :=
  efold (fun act_shape cross =>
           ps <-? of_option (dict_get phases cross) KeyError ;;
           inr (act_shape ++ [Z.of_nat (List.length (G ps))]))
        crossings [].

(** The positions, counted from [id], of the light phases whose road-link
    count satisfies [f]: what the branches of [classify_phase] collect. *)
Fixpoint idx_where (f : nat -> bool) (id : Z) (links : list nat) : list Z :=
  match links with
  | [] => []
  | n :: links' => (if f n then [id] else []) ++ idx_where f (id + 1) links'
  end.

(** A list of [n] zeros with a one at position [j]. *)
Definition onehot (n : nat) (j : nat) : list Z :=
  repeat 0 j ++ 1 :: repeat 0 (n - S j).

(** What the three loops of [_get_obs] append to [obs[cross]], in the order
    they run: the one-hot of the current Green phase (a negative index
    counting from the end), the vehicle counts, the waiting counts. *)
Definition obs_features (cfg : Config) (s : State) (cross : string) : list Z :=
  (if list_contains "phase" (obs_type cfg) then
     match dict_get (crossing_phases cfg) cross, dict_get (current_phases s) cross with
     | Some ps, Some ph =>
         let n := List.length (G ps) in
         onehot n (Z.to_nat (if ph <? 0 then Z.of_nat n + ph else ph))
     | _, _ => []
     end
   else []) ++
  (if list_contains "lane_vehicle_num" (obs_type cfg) then
     match dict_get (crossing_in_roads cfg) cross with
     | Some roads => lane_values (get_lane_vehicle_count cfg (eng s)) roads
     | None => []
     end
   else []) ++
  (if list_contains "lane_waiting_vehicle_num" (obs_type cfg) then
     match dict_get (crossing_in_roads cfg) cross with
     | Some roads => lane_values (get_lane_waiting_vehicle_count cfg (eng s)) roads
     | None => []
     end
   else []).

(** ** Reward in the words of the spec *)

(** [buildReward] in the words of the spec: waiting counts over the lanes of
    the incoming roads minus those over the lanes of the outgoing roads,
    negated; a lane belongs to a road when its id minus the two-character
    lane suffix is that road's id. *)
Definition spec_road_waiting (all : list (string * Z)) (road_ids : list string) : Z :=
  fold_left (fun acc '(k, v) =>
               if list_contains (drop_last2 k) road_ids then acc + v else acc)
            all 0.

Definition spec_cross_reward (cfg : Config) (all : list (string * Z))
    (cross : string) : option Z :=
  match dict_get (crossing_in_roads cfg) cross,
        dict_get (crossing_out_roads cfg) cross with
  | Some in_roads, Some out_roads =>
      Some (- (spec_road_waiting all in_roads - spec_road_waiting all out_roads))
  | _, _ => None
  end.

(** ** Example topologies and runs *)

(** Telemetry of an empty road network: no lane reports any vehicle. *)
Definition no_vehicles (_ : list event) : list (string * Z) := [].

(** The four-phase intersection used in the examples: Green phases at
    positions 1-4 of [lightphases], Yellow at 5-8, the all-Red phase at 0. *)
Definition four_phase : PhaseSet := mkPhaseSet [1; 2; 3; 4] [5; 6; 7; 8] [0].

(** One non-virtual intersection, actions enabled, vector actions,
    red 5, yellow 3, green 10, episode limit 20. *)
Definition cfg_one : Config :=
  mkConfig ["phase"%string] 20 10 3 5 false false ["intersection_1_1"%string]
    [("intersection_1_1"%string, ["road_0_1_0"%string])] [("intersection_1_1"%string, ["road_1_1_0"%string])]
    [("intersection_1_1"%string, four_phase)] no_vehicles no_vehicles.

(** The same with a second intersection. *)
Definition cfg_two : Config :=
  mkConfig ["phase"%string] 20 10 3 5 false false ["intersection_1_1"%string; "intersection_2_1"%string]
    [("intersection_1_1"%string, ["road_0_1_0"%string]); ("intersection_2_1"%string, ["road_1_1_0"%string])]
    [("intersection_1_1"%string, ["road_1_1_0"%string]); ("intersection_2_1"%string, ["road_2_1_2"%string])]
    [("intersection_1_1"%string, four_phase); ("intersection_2_1"%string, four_phase)]
    no_vehicles no_vehicles.

(** [cfg_two] with flat discrete actions ([from_discrete]). *)
Definition cfg_two_flat : Config :=
  mkConfig ["phase"%string] 20 10 3 5 true false (crossings cfg_two)
    (crossing_in_roads cfg_two) (crossing_out_roads cfg_two)
    (crossing_phases cfg_two) no_vehicles no_vehicles.

(** An intersection whose incoming road is ["-100"] and whose outgoing road
    is ["100"] (the two directions of one edge, as in networks converted
    from SUMO); three vehicles wait on lane ["-100_0"], one on ["100_0"]. *)
Definition waiting_two_way (_ : list event) : list (string * Z) :=
  [("-100_0"%string, 3); ("100_0"%string, 1)].

Definition cfg_two_way : Config :=
  mkConfig ["lane_waiting_vehicle_num"%string] 20 10 3 5 false false
    ["intersection_1_1"%string]
    [("intersection_1_1"%string, ["-100"%string])]
    [("intersection_1_1"%string, ["100"%string])]
    [("intersection_1_1"%string, four_phase)] no_vehicles waiting_two_way.

(** A fresh environment: no engine command issued yet. *)
Definition init_state : State := mkState [] 0 0 [].

(** The state [reset] leaves. *)
Definition after_reset (cfg : Config) : State := res_state (reset cfg init_state).

Definition act_two : action := AVector [2; 0].

(** The state after [reset] and one [step] with [act_two] on [cfg_two]. *)
Definition two_step_state : State := res_state (step cfg_two act_two (after_reset cfg_two)).

(** Two more steps on [cfg_two], with [[1; 0]] and then [[0; 0]]. *)
Definition three_step_state : State :=
  res_state (step cfg_two (AVector [1; 0]) two_step_state).
Definition four_step_state : State :=
  res_state (step cfg_two (AVector [0; 0]) three_step_state).

(** [get_suffix_num] on the ids of the example road network: the numbers
    in the id, in order. *)
Definition suffix_example (id : string) : list Z :=
  match dict_get [("intersection_0_1"%string, [0; 1]); ("intersection_1_1"%string, [1; 1]);
                  ("intersection_2_1"%string, [2; 1]); ("road_0_1_0"%string, [0; 1; 0]);
                  ("road_1_1_0"%string, [1; 1; 0]); ("road_1_1_2"%string, [1; 1; 2]);
                  ("road_2_1_2"%string, [2; 1; 2])] id with
  | Some l => l
  | None => []
  end.

(** The intersections of an example road network: two real ones, with their
    roads and the road-link counts of their light phases, and a virtual one
    at the border. *)
Definition items_example : list rn_intersection :=
  [mkRnIntersection "intersection_1_1" false
     ["road_0_1_0"%string; "road_1_1_0"%string; "road_1_1_2"%string] [0; 5; 5; 4; 4]%nat;
   mkRnIntersection "intersection_0_1" true ["road_0_1_0"%string] [];
   mkRnIntersection "intersection_2_1" false
     ["road_1_1_0"%string; "road_2_1_2"%string] [0; 6; 4]%nat].

(** Telemetry with vehicles on three lanes of [cfg_two]'s incoming roads. *)
Definition lanes_two (_ : list event) : list (string * Z) :=
  [("road_0_1_0_0"%string, 2); ("road_0_1_0_1"%string, 1); ("road_1_1_0_0"%string, 3)].

(** [cfg_two] observing phases and both lane counts. *)
Definition cfg_two_lanes : Config :=
  mkConfig ["phase"%string; "lane_vehicle_num"%string; "lane_waiting_vehicle_num"%string]
    20 10 3 5 false false (crossings cfg_two)
    (crossing_in_roads cfg_two) (crossing_out_roads cfg_two)
    (crossing_phases cfg_two) lanes_two lanes_two.

(** The state [reset] leaves on [cfg_two_lanes] with [_total_reward] at
    -2^24, where consecutive float32 values are 2 apart. *)
Definition deep_reward_state : State :=
  mkState (eng (after_reset cfg_two_lanes)) (total_duration (after_reset cfg_two_lanes))
    (-16777216) (current_phases (after_reset cfg_two_lanes)).

(** Every lane of [cfg_two]'s roads reported with no waiting vehicle. *)
Definition idle_lanes_two (_ : list event) : list (string * Z) :=
  [("road_0_1_0_0"%string, 0); ("road_1_1_0_0"%string, 0); ("road_2_1_2_0"%string, 0)].

(** [cfg_two] whose engine reports [idle_lanes_two]. *)
Definition cfg_two_idle : Config :=
  mkConfig ["phase"%string] 20 10 3 5 false false (crossings cfg_two)
    (crossing_in_roads cfg_two) (crossing_out_roads cfg_two)
    (crossing_phases cfg_two) idle_lanes_two idle_lanes_two.

(** [cfg_two] with actions disabled. *)
Definition cfg_two_auto : Config :=
  mkConfig ["phase"%string] 20 10 3 5 false true (crossings cfg_two)
    (crossing_in_roads cfg_two) (crossing_out_roads cfg_two)
    (crossing_phases cfg_two) no_vehicles no_vehicles.

(** [cfg_two] with no outgoing roads recorded. *)
Definition cfg_two_no_out : Config :=
  mkConfig ["phase"%string] 20 10 3 5 false false (crossings cfg_two)
    (crossing_in_roads cfg_two) [] (crossing_phases cfg_two) no_vehicles no_vehicles.

(** [cfg_one] whose intersection has no Green phase. *)
Definition cfg_one_no_green : Config :=
  mkConfig ["phase"%string] 20 10 3 5 false false (crossings cfg_one)
    (crossing_in_roads cfg_one) (crossing_out_roads cfg_one)
    [("intersection_1_1"%string, mkPhaseSet [] [5; 6] [0])] no_vehicles no_vehicles.

(** ** Generic lemmas *)

Lemma dict_set_same {V} (d : list (string * V)) k v :
  dict_get d k = Some v -> dict_set d k v = d.
Proof.
  induction d as [|[k' v'] d IH]; simpl; [discriminate|].
  destruct (String.eqb k k') eqn:E; intros H.
  - inversion H; subst; reflexivity.
  - rewrite IH; auto.
Qed.

Lemma dict_set_fresh {V} (d : list (string * V)) k v :
  dict_get d k = None -> dict_set d k v = d ++ [(k, v)].
Proof.
  induction d as [|[k' v'] d IH]; simpl; [reflexivity|].
  destruct (String.eqb k k') eqn:E; intros H; [discriminate|].
  rewrite IH; auto.
Qed.

Lemma dict_get_in {V} (d : list (string * V)) k v :
  NoDup (map fst d) -> In (k, v) d -> dict_get d k = Some v.
Proof.
  induction d as [|[k' v'] d IH]; simpl; [tauto|].
  intros Hnd Hin; inversion Hnd as [|? ? Hnot Hnd']; subst.
  destruct (String.eqb k k') eqn:E.
  - apply String.eqb_eq in E; subst.
    destruct Hin as [Heq|Hin]; [congruence|].
    exfalso; apply Hnot; apply (in_map fst _ _ Hin).
  - destruct Hin as [Heq|Hin].
    + inversion Heq; subst; rewrite String.eqb_refl in E; discriminate.
    + auto.
Qed.

Lemma mfor_ok {A} (l : list A) (body : A -> M unit) (f : A -> State -> State) s :
  (forall a s, In a l -> body a s = Ok tt (f a s)) ->
  mfor l body s = Ok tt (fold_left (fun s a => f a s) l s).
Proof.
  revert s; induction l as [|a l IH]; intros s H; simpl; [reflexivity|].
  unfold bind; rewrite H by (left; reflexivity).
  apply IH; intros; apply H; right; assumption.
Qed.

Lemma fold_step {A} (l : list A) (g : A -> list event)
    (h : A -> list (string * Z) -> list (string * Z)) s :
  fold_left (fun s a => mkState (eng s ++ g a) (total_duration s)
                                (total_reward s) (h a (current_phases s))) l s
  = mkState (eng s ++ flat_map g l) (total_duration s) (total_reward s)
            (fold_left (fun c a => h a c) l (current_phases s)).
Proof.
  revert s; induction l as [|a l IH]; intros s; simpl.
  - rewrite app_nil_r; destruct s; reflexivity.
  - rewrite IH; simpl; rewrite app_assoc; reflexivity.
Qed.

Lemma fold_id {A B} (l : list A) (c : B) : fold_left (fun c _ => c) l c = c.
Proof. revert c; induction l; simpl; auto. Qed.

(** ** [_simulate] computed *)

Lemma scan_actions_ok cfg cur pairs ch s :
  current_phases s = cur ->
  (forall act cross c, In (act, (cross, c)) pairs -> act = c ->
     gphase cfg cross act <> None /\ dict_get cur cross = Some c) ->
  scan_actions cfg pairs ch s
  = Ok (changed_of pairs ch)
       (mkState (eng s ++ unchanged_cmds cfg pairs) (total_duration s)
                (total_reward s) cur).
Proof.
  revert ch s; induction pairs as [|[act [cross c]] pairs IH];
    intros ch s Hcur H; simpl.
  - rewrite app_nil_r; destruct s; simpl in *; subst; reflexivity.
  - destruct (act =? c) eqn:E.
    + apply Z.eqb_eq in E; subst act.
      destruct (H c cross c (or_introl eq_refl) eq_refl) as [Hg Hd].
      unfold gphase in *; unfold bind, phases_of, lift.
      destruct (dict_get (crossing_phases cfg) cross) as [ps|]; [|congruence].
      destruct (py_index (G ps) c) as [p|] eqn:Ep; [|congruence].
      cbn. rewrite Ep; cbn. rewrite Hcur, (dict_set_same _ _ _ Hd).
      rewrite IH; simpl.
      * rewrite <- app_assoc; reflexivity.
      * reflexivity.
      * intros; apply H; simpl; auto.
    + rewrite IH; auto. intros; apply H; simpl; auto.
Qed.

Lemma mfor_step {A} (l : list A) (body : A -> M unit) (g : A -> list event)
    (h : A -> list (string * Z) -> list (string * Z)) s :
  (forall a s, In a l ->
     body a s = Ok tt (mkState (eng s ++ g a) (total_duration s)
                               (total_reward s) (h a (current_phases s)))) ->
  mfor l body s
  = Ok tt (mkState (eng s ++ flat_map g l) (total_duration s) (total_reward s)
                   (fold_left (fun c a => h a c) l (current_phases s))).
Proof.
  intros H; rewrite (mfor_ok l body (fun a s =>
    mkState (eng s ++ g a) (total_duration s) (total_reward s)
            (h a (current_phases s))) s H).
  apply f_equal, fold_step.
Qed.

Lemma red_stage_ok cfg ch s :
  (forall cross x, In (cross, x) ch -> rphase cfg cross <> None) ->
  red_stage cfg ch s
  = Ok tt (mkState (eng s ++ red_cmds cfg ch
                        ++ repeat NextStep (Z.to_nat (red_duration cfg)))
                   (total_duration s) (total_reward s) (current_phases s)).
Proof.
  intros H; unfold red_stage, bind.
  rewrite (mfor_step _ _ (fun '(cross, _) => opt_cmd cross (rphase cfg cross))
                         (fun _ c => c)).
  - rewrite fold_id; cbn. rewrite app_assoc; reflexivity.
  - intros [cross x] s' Hin. specialize (H _ _ Hin).
    unfold rphase in *; unfold bind, phases_of, lift.
    destruct (dict_get (crossing_phases cfg) cross); [|congruence].
    cbv beta iota delta [ret].
    destruct (py_index (R p) 0); [reflexivity|congruence].
Qed.

Lemma yellow_stage_ok cfg ch s :
  (forall cross act c, In (cross, (act, c)) ch -> yphase cfg cross c <> None) ->
  yellow_stage cfg ch s
  = Ok tt (mkState (eng s ++ yellow_cmds cfg ch
                        ++ repeat NextStep (Z.to_nat (yellow_duration cfg)))
                   (total_duration s) (total_reward s) (current_phases s)).
Proof.
  intros H; unfold yellow_stage, bind.
  rewrite (mfor_step _ _ (fun '(cross, (_, cur_act)) =>
                            opt_cmd cross (yphase cfg cross cur_act))
                         (fun _ c => c)).
  - rewrite fold_id; cbn. rewrite app_assoc; reflexivity.
  - intros [cross [act c]] s' Hin. specialize (H _ _ _ Hin).
    unfold yphase in *; unfold bind, phases_of, lift.
    destruct (dict_get (crossing_phases cfg) cross); [|congruence].
    cbv beta iota delta [ret].
    destruct (py_index (Y p) c); [reflexivity|congruence].
Qed.

Lemma green_commands_ok cfg ch s :
  (forall cross act c, In (cross, (act, c)) ch -> gphase cfg cross act <> None) ->
  green_commands cfg ch s
  = Ok tt (mkState (eng s ++ green_cmds cfg ch)
                   (total_duration s) (total_reward s)
                   (fold_left (fun c '(cross, (act, _)) => dict_set c cross act)
                              ch (current_phases s))).
Proof.
  intros H; unfold green_commands.
  rewrite (mfor_step _ _ (fun '(cross, (act, _)) =>
                            opt_cmd cross (gphase cfg cross act))
                         (fun a c => let '(cross, (act, _)) := a in dict_set c cross act)).
  - reflexivity.
  - intros [cross [act c]] s' Hin. specialize (H _ _ _ Hin).
    unfold gphase in *; unfold bind, phases_of, lift.
    destruct (dict_get (crossing_phases cfg) cross); [|congruence].
    cbv beta iota delta [ret].
    destruct (py_index (G p) act); [reflexivity|congruence].
Qed.

Lemma simulate_ok cfg v s :
  no_actions cfg = false ->
  (forall act cross c, In (act, (cross, c)) (combine v (current_phases s)) ->
     act = c ->
     gphase cfg cross act <> None /\ dict_get (current_phases s) cross = Some c) ->
  (forall cross act c,
     In (cross, (act, c)) (changed_of (combine v (current_phases s)) []) ->
     gphase cfg cross act <> None /\
     (0 < red_duration cfg -> rphase cfg cross <> None) /\
     (0 < yellow_duration cfg -> yphase cfg cross c <> None)) ->
  _simulate cfg v s
  = Ok tt (mkState (eng s ++ sim_events cfg (combine v (current_phases s)))
                   (total_duration s + cycle cfg) (total_reward s)
                   (sim_current (combine v (current_phases s))
                                (current_phases s))).
Proof.
  intros Hna HU HC.
  unfold _simulate; rewrite Hna; unfold bind at 1, gets.
  unfold bind at 1.
  rewrite (scan_actions_ok cfg (current_phases s)) by auto.
  unfold sim_events, sim_current.
  destruct (changed_of (combine v (current_phases s)) []) as [|c0 ch] eqn:Ech.
  - cbn. rewrite app_assoc; reflexivity.
  - unfold bind.
    destruct (0 <? red_duration cfg) eqn:Er.
    + rewrite red_stage_ok
        by (intros cross [a c] Hin; apply (HC cross a c Hin); lia).
      destruct (0 <? yellow_duration cfg) eqn:Ey.
      * rewrite yellow_stage_ok
          by (intros cross a c Hin; apply (HC cross a c Hin); lia).
        rewrite green_commands_ok
          by (intros cross a c Hin; apply (HC cross a c Hin)).
        cbn. rewrite !app_assoc; reflexivity.
      * unfold ret.
        rewrite green_commands_ok
          by (intros cross a c Hin; apply (HC cross a c Hin)).
        cbn. rewrite !app_assoc; reflexivity.
    + unfold ret at 1.
      destruct (0 <? yellow_duration cfg) eqn:Ey.
      * rewrite yellow_stage_ok
          by (intros cross a c Hin; apply (HC cross a c Hin); lia).
        rewrite green_commands_ok
          by (intros cross a c Hin; apply (HC cross a c Hin)).
        cbn. rewrite !app_assoc; reflexivity.
      * unfold ret.
        rewrite green_commands_ok
          by (intros cross a c Hin; apply (HC cross a c Hin)).
        cbn. rewrite !app_assoc; reflexivity.
Qed.

(** ** Invariants of monadic computations, raising or not *)

Section Invariants.
Variable I : State -> Prop.

Lemma hoare_ret {A} (a : A) (Q : A -> Prop) : Q a -> hoare I (ret a) Q.
Proof. intros HQ s Hs; simpl; auto. Qed.

Lemma hoare_raise {A} e (Q : A -> Prop) : hoare I (raise e) Q.
Proof. intros s Hs; simpl; auto. Qed.

Lemma hoare_lift {A} (o : option A) e : hoare I (lift o e) (fun _ => True).
Proof. destruct o; intros s Hs; simpl; auto. Qed.

Lemma hoare_gets {A} (f : State -> A) : hoare I (gets f) (fun a => True).
Proof. intros s Hs; simpl; auto. Qed.

Lemma hoare_pure {A} (f : State -> exn + A) :
  hoare I (fun s => pure (f s) s) (fun _ => True).
Proof. intros s Hs; unfold pure; destruct (f s); auto. Qed.

Lemma hoare_bind {A B} (m : M A) (f : A -> M B) Q Q' :
  hoare I m Q -> (forall a, Q a -> hoare I (f a) Q') -> hoare I (bind m f) Q'.
Proof.
  intros Hm Hf s Hs; unfold bind.
  specialize (Hm s Hs); destruct (m s) as [a s'|e s']; auto.
  destruct Hm as [HQ Hs']; exact (Hf a HQ s' Hs').
Qed.

Lemma hoare_weaken {A} (m : M A) (Q Q' : A -> Prop) :
  hoare I m Q -> (forall a, Q a -> Q' a) -> hoare I m Q'.
Proof.
  intros Hm HQ s Hs; specialize (Hm s Hs); destruct (m s); intuition.
Qed.

Lemma hoare_mfor {A} (l : list A) (body : A -> M unit) :
  (forall a, In a l -> hoare I (body a) (fun _ => True)) ->
  hoare I (mfor l body) (fun _ => True).
Proof.
  induction l as [|a l IH]; intros H; simpl.
  - apply hoare_ret; trivial.
  - apply hoare_bind with (Q := fun _ => True); [apply H; left; auto|].
    intros _ _; apply IH; intros; apply H; right; auto.
Qed.
End Invariants.

Lemma bind_assoc {A B C} (m : M A) (f : A -> M B) (g : B -> M C) s :
  bind (bind m f) g s = bind m (fun a => bind (f a) g) s.
Proof. unfold bind; destruct (m s); reflexivity. Qed.

Lemma simulate_eq cfg v s :
  _simulate cfg v s =
  (if no_actions cfg then
     (next_steps (cycle cfg) ;;; add_duration (cycle cfg)) s
   else
     bind (sim_core cfg v (current_phases s))
          (fun _ => add_duration (cycle cfg)) s).
Proof.
  unfold _simulate, sim_core; destruct (no_actions cfg); [reflexivity|].
  unfold bind at 1, gets; rewrite bind_assoc.
  unfold bind; destruct (scan_actions _ _ _ _); reflexivity.
Qed.

Lemma dict_set_in {V} (d : list (string * V)) k v x :
  In x (dict_set d k v) -> In x d \/ x = (k, v).
Proof.
  induction d as [|[k' v'] d IH]; simpl; [intuition|].
  destruct (String.eqb k k') eqn:E; simpl.
  - apply String.eqb_eq in E; subst; intuition.
  - intros [H|H]; [left; left; auto|]. destruct (IH H); auto.
Qed.

Section SimInvariant.
Variable I : State -> Prop.
Variable cfg : Config.
Variable v : list Z.
Variable cur : list (string * Z).
Hypothesis I_emit : forall ev, hoare I (emit ev) (fun _ => True).
Hypothesis I_next : forall n, hoare I (next_steps n) (fun _ => True).
Hypothesis I_set : forall k a c, In (a, (k, c)) (combine v cur) ->
  hoare I (set_current k a) (fun _ => True).

Lemma scan_actions_hoare pairs ch :
  incl pairs (combine v cur) -> from_pairs (combine v cur) ch ->
  hoare I (scan_actions cfg pairs ch) (from_pairs (combine v cur)).
Proof.
  revert ch; induction pairs as [|[act [cross c]] pairs IH];
    intros ch Hincl Hch; simpl.
  - apply hoare_ret; auto.
  - assert (Hin : In (act, (cross, c)) (combine v cur))
      by (apply Hincl; left; auto).
    assert (Hincl' : incl pairs (combine v cur))
      by (intros x Hx; apply Hincl; right; auto).
    destruct (act =? c) eqn:E.
    + apply hoare_bind with (Q := fun _ => True); [apply hoare_lift|intros ps _].
      apply hoare_bind with (Q := fun _ => True); [apply hoare_lift|intros p _].
      apply hoare_bind with (Q := fun _ => True); [apply I_emit|intros _ _].
      apply hoare_bind with (Q := fun _ => True); [apply (I_set cross act c Hin)|intros _ _].
      apply IH; auto.
    + apply IH; auto.
      intros k a c' Hk; destruct (dict_set_in _ _ _ _ Hk) as [H|H].
      * apply Hch; auto.
      * inversion H; subst; split; auto; apply Z.eqb_neq; auto.
Qed.

Lemma sim_core_hoare : hoare I (sim_core cfg v cur) (fun _ => True).
Proof.
  unfold sim_core.
  eapply hoare_bind.
  - apply scan_actions_hoare; [apply incl_refl|intros ? ? ? []].
  - intros ch Hch; destruct ch as [|e ch'].
    + apply I_next.
    + apply hoare_bind with (Q := fun _ => True).
      { destruct (0 <? red_duration cfg); [|apply hoare_ret; trivial].
        unfold red_stage; apply hoare_bind with (Q := fun _ => True); [|intros; apply I_next].
        apply hoare_mfor; intros [k x] _.
        apply hoare_bind with (Q := fun _ => True); [apply hoare_lift|intros ps _].
        apply hoare_bind with (Q := fun _ => True); [apply hoare_lift|intros p _].
        apply I_emit. }
      intros _ _; apply hoare_bind with (Q := fun _ => True).
      { destruct (0 <? yellow_duration cfg); [|apply hoare_ret; trivial].
        unfold yellow_stage; apply hoare_bind with (Q := fun _ => True); [|intros; apply I_next].
        apply hoare_mfor; intros [k [a c]] _.
        apply hoare_bind with (Q := fun _ => True); [apply hoare_lift|intros ps _].
        apply hoare_bind with (Q := fun _ => True); [apply hoare_lift|intros p _].
        apply I_emit. }
      intros _ _; apply hoare_bind with (Q := fun _ => True); [|intros; apply I_next].
      unfold green_commands; apply hoare_mfor; intros [k [a c]] Hk.
      apply hoare_bind with (Q := fun _ => True); [apply hoare_lift|intros ps _].
      apply hoare_bind with (Q := fun _ => True); [apply hoare_lift|intros p _].
      apply hoare_bind with (Q := fun _ => True); [apply I_emit|intros _ _].
      apply (I_set k a c); apply (Hch _ _ _ Hk).
Qed.
End SimInvariant.

(** ** [_simulate] and [step]: what every outcome does to the state *)

Lemma hoare_modify (I : State -> Prop) f :
  (forall s, I s -> I (f s)) -> hoare I (modify f) (fun _ => True).
Proof. intros H s Hs; simpl; auto. Qed.

Lemma simulate_duration cfg v s :
  match _simulate cfg v s with
  | Ok _ s' => total_duration s' = total_duration s + cycle cfg
  | Err _ s' => total_duration s' = total_duration s
  end.
Proof.
  rewrite simulate_eq; destruct (no_actions cfg); [reflexivity|].
  set (I := fun s' => total_duration s' = total_duration s).
  assert (H : hoare I (sim_core cfg v (current_phases s)) (fun _ => True)).
  { apply sim_core_hoare; intros;
      unfold emit, next_steps, set_current; apply hoare_modify; auto. }
  specialize (H s eq_refl).
  unfold bind; destruct (sim_core cfg v (current_phases s) s); simpl in *;
    unfold I in H; intuition congruence.
Qed.

Lemma simulate_eng_extends cfg v s :
  exists l, eng (res_state (_simulate cfg v s)) = eng s ++ l.
Proof.
  rewrite simulate_eq; destruct (no_actions cfg).
  - eexists; cbn; reflexivity.
  - set (I := fun s' => exists l, eng s' = eng s ++ l).
    assert (H : hoare I (sim_core cfg v (current_phases s)) (fun _ => True)).
    { apply sim_core_hoare; intros;
        unfold emit, next_steps, set_current; apply hoare_modify;
        intros s0 [l H0]; unfold I; cbn; rewrite H0.
      - exists (l ++ [ev]); rewrite app_assoc; reflexivity.
      - exists (l ++ repeat NextStep (Z.to_nat n)); rewrite app_assoc; reflexivity.
      - exists l; reflexivity. }
    assert (Hs : I s) by (exists []; symmetry; apply app_nil_r).
    specialize (H s Hs).
    unfold bind; destruct (sim_core cfg v (current_phases s) s); simpl in *;
      [destruct H as [_ H]|]; exact H.
Qed.

(** [step] = [_simulate] on the decoded array, then read-only telemetry
    and the reward and duration bookkeeping. *)
Lemma step_outcome cfg a s :
  match simulate_value cfg (action_value cfg a) s with
  | Err e s1 => step cfg a s = Err e s1
  | Ok _ s1 =>
      eng (res_state (step cfg a s)) = eng s1 /\
      total_duration (res_state (step cfg a s)) = total_duration s1 /\
      current_phases (res_state (step cfg a s)) = current_phases s1 /\
      (forall o r d s', step cfg a s = Ok (o, r, d) s' ->
         d = (max_episode_duration cfg <? total_duration s'))
  end.
Proof.
  unfold step, bind.
  destruct (simulate_value cfg (action_value cfg a) s) as [u s1|e s1];
    [|reflexivity].
  unfold pure.
  destruct (_get_obs cfg s1) as [e|o]; [simpl; repeat split; congruence|].
  destruct (_get_reward cfg s1) as [e|rw]; [simpl; repeat split; congruence|].
  cbn. repeat split. intros o' r d s' H; inversion H; reflexivity.
Qed.

(** A decoded one-dimensional array goes to [_simulate] as it is. *)
Lemma simulate_value_decoded cfg a v :
  decode_action cfg a = Some v ->
  simulate_value cfg (action_value cfg a) = _simulate cfg v.
Proof.
  unfold decode_action. destruct (action_value cfg a); intros H;
    inversion H; reflexivity.
Qed.

(** Whatever the array, [_simulate] runs on some entries, or an exception
    is raised before any effect. *)
Lemma simulate_value_cases cfg x s :
  (exists v, simulate_value cfg x s = _simulate cfg v s) \/
  (exists e, simulate_value cfg x s = Err e s).
Proof.
  destruct x as [d|v|v]; simpl.
  - destruct (no_actions cfg); eauto.
  - eauto.
  - destruct (no_actions cfg); [eauto|].
    unfold bind, gets. destruct (current_phases s); eauto.
Qed.

(** ** The commands one intersection receives *)

Lemma cmds_for_app x l1 l2 :
  cmds_for x (l1 ++ l2) = cmds_for x l1 ++ cmds_for x l2.
Proof. apply flat_map_app. Qed.

Lemma cmds_for_repeat x n : cmds_for x (repeat NextStep n) = [].
Proof. induction n; simpl; auto. Qed.

Lemma cmds_for_flat_map {A} x (g : A -> list event) l :
  cmds_for x (flat_map g l) = flat_map (fun e => cmds_for x (g e)) l.
Proof.
  induction l; simpl; auto. rewrite cmds_for_app; f_equal; auto.
Qed.

Lemma cmds_for_opt x y o :
  cmds_for x (opt_cmd y o) = if String.eqb y x then olist o else [].
Proof.
  destruct o; simpl; destruct (String.eqb y x); reflexivity.
Qed.

Lemma flat_map_none {A B} (F : A -> list B) (key : A -> string) l x :
  (forall e', In e' l -> key e' <> x) ->
  (forall e', key e' <> x -> F e' = []) -> flat_map F l = [].
Proof.
  induction l as [|h l IH]; simpl; auto; intros Hl HF.
  rewrite HF, IH; auto.
Qed.

Lemma flat_map_only {A B} (F : A -> list B) (key : A -> string) l x e :
  NoDup (map key l) -> In e l -> key e = x ->
  (forall e', key e' <> x -> F e' = []) -> flat_map F l = F e.
Proof.
  induction l as [|h l IH]; simpl; [tauto|].
  intros Hnd Hin Hk HF; apply NoDup_cons_iff in Hnd as [Hnot Hnd'].
  destruct Hin as [<-|Hin].
  - assert (Hrest : flat_map F l = []).
    { apply (flat_map_none F key l x); auto.
      intros e' He' Hk'; apply Hnot; rewrite Hk, <- Hk'; apply in_map; auto. }
    rewrite Hrest, app_nil_r; reflexivity.
  - rewrite HF, IH; auto.
    intros H; apply Hnot; rewrite H, <- Hk; apply in_map; auto.
Qed.

Lemma dict_get_app {V} (d : list (string * V)) k k' v :
  k <> k' -> dict_get (d ++ [(k', v)]) k = dict_get d k.
Proof.
  induction d as [|[k0 v0] d IH]; simpl; intros Hne.
  - destruct (String.eqb k k') eqn:E; auto.
    apply String.eqb_eq in E; contradiction.
  - destruct (String.eqb k k0); auto.
Qed.

Lemma nodup_map_filter {A} (g : A -> string) (f : A -> bool) l :
  NoDup (map g l) -> NoDup (map g (filter f l)).
Proof.
  induction l as [|h l IH]; simpl; auto; intros Hnd.
  inversion Hnd as [|? ? Hnot Hnd']; subst.
  destruct (f h); simpl; auto.
  constructor; auto. intros Hin; apply Hnot.
  apply in_map_iff in Hin; destruct Hin as [y [Hy Hin]].
  apply filter_In in Hin; rewrite <- Hy; apply in_map; tauto.
Qed.

Lemma changed_of_nodup pairs ch :
  NoDup (map pkey pairs) ->
  (forall p, In p pairs -> dict_get ch (pkey p) = None) ->
  changed_of pairs ch = ch ++ map swap_pair (filter differs pairs).
Proof.
  revert ch; induction pairs as [|[act [cross c]] pairs IH]; intros ch Hnd Hch.
  - simpl; rewrite app_nil_r; reflexivity.
  - inversion Hnd as [|? ? Hnot Hnd']; subst.
    unfold changed_of; simpl fold_left; fold (changed_of pairs).
    simpl filter; unfold differs at 1.
    destruct (act =? c) eqn:E; simpl negb; cbv iota.
    + apply IH; auto; intros; apply Hch; right; auto.
    + rewrite dict_set_fresh by (apply (Hch (act, (cross, c))); left; auto).
      rewrite IH; [rewrite <- app_assoc; reflexivity|auto|].
      intros p Hp; rewrite dict_get_app; [apply Hch; right; auto|].
      intros Heq; apply Hnot; change (In cross (map pkey pairs)).
      rewrite <- Heq; apply in_map; auto.
Qed.

Lemma changed_of_all_eq pairs ch :
  (forall p, In p pairs -> differs p = false) -> changed_of pairs ch = ch.
Proof.
  revert ch; induction pairs as [|[act [cross c]] pairs IH]; intros ch H;
    [reflexivity|].
  unfold changed_of; simpl fold_left; fold (changed_of pairs).
  pose proof (H _ (or_introl eq_refl)) as Hd; simpl in Hd.
  destruct (act =? c); [|discriminate].
  apply IH; intros; apply H; right; auto.
Qed.

Lemma pkeys_combine (v : list Z) (cur : list (string * Z)) :
  NoDup (map fst cur) -> NoDup (map pkey (combine v cur)).
Proof.
  revert cur; induction v as [|a v IH]; intros [|[k c] cur] Hnd; simpl;
    try constructor.
  - inversion Hnd as [|? ? Hnot Hnd']; subst.
    intros Hin; apply Hnot.
    apply in_map_iff in Hin; destruct Hin as [[a' [k' c']] [Hk Hin]].
    unfold pkey in Hk; simpl in Hk; subst k'; apply in_combine_r in Hin.
    apply (in_map fst _ _ Hin).
  - inversion Hnd; auto.
Qed.

(** ** Well-formed inputs make [_simulate] succeed *)

Lemma changed_of_from_pairs P pairs ch :
  incl pairs P -> from_pairs P ch -> from_pairs P (changed_of pairs ch).
Proof.
  revert ch; induction pairs as [|[act [cross c]] pairs IH]; intros ch Hincl Hch;
    [exact Hch|].
  unfold changed_of; simpl fold_left; fold (changed_of pairs).
  apply IH; [intros x Hx; apply Hincl; right; auto|].
  destruct (act =? c) eqn:E; auto.
  intros k a c' Hk; destruct (dict_set_in _ _ _ _ Hk) as [H|H]; [apply Hch; auto|].
  inversion H; subst; split; [apply Hincl; left; auto|apply Z.eqb_neq; auto].
Qed.

Lemma py_index_in {A} (l : list A) i d :
  0 <= i < Z.of_nat (List.length l) -> py_index l i = Some (nth (Z.to_nat i) l d).
Proof.
  intros Hi; unfold py_index.
  destruct (0 <=? i) eqn:E; [|apply Z.leb_gt in E; lia].
  apply nth_error_nth'; lia.
Qed.

Lemma gphase_in cfg cross i :
  0 <= i < glen cfg cross ->
  exists ps, dict_get (crossing_phases cfg) cross = Some ps /\
             gphase cfg cross i = Some (nth (Z.to_nat i) (G ps) 0).
Proof.
  unfold glen, gphase; destruct (dict_get (crossing_phases cfg) cross) as [ps|];
    [|lia].
  intros Hi; exists ps; split; auto; apply py_index_in; auto.
Qed.

Lemma wf_crossing cfg cross :
  topology_wf cfg -> In cross (crossings cfg) ->
  exists ps, dict_get (crossing_phases cfg) cross = Some ps /\
    (0 < red_duration cfg -> R ps <> []) /\
    (0 < yellow_duration cfg -> (List.length (G ps) <= List.length (Y ps))%nat) /\
    NoDup (G ps ++ Y ps ++ R ps).
Proof. intros Hwf Hin; unfold topology_wf in Hwf; rewrite Forall_forall in Hwf; auto. Qed.

Lemma in_cur_crossings cfg s cross c :
  state_ok cfg s -> In (cross, c) (current_phases s) -> In cross (crossings cfg).
Proof.
  intros [Hk _] Hin; rewrite <- Hk; apply (in_map fst _ _ Hin).
Qed.

Lemma simulate_ok_wf cfg v s :
  no_actions cfg = false -> topology_wf cfg -> state_ok cfg s ->
  actions_in_range cfg (current_phases s) v ->
  _simulate cfg v s
  = Ok tt (mkState (eng s ++ sim_events cfg (combine v (current_phases s)))
                   (total_duration s + cycle cfg) (total_reward s)
                   (sim_current (combine v (current_phases s))
                                (current_phases s))).
Proof.
  intros Hna Hwf Hok Hin.
  pose proof Hok as [Hk [Hnd Hr]].
  apply simulate_ok; auto.
  - intros act cross c Hp ->.
    pose proof (in_combine_r _ _ _ _ Hp) as Hc.
    destruct (gphase_in cfg cross c (Hr _ _ Hc)) as [ps [_ ->]].
    split; [discriminate|].
    apply dict_get_in; auto; rewrite Hk; auto.
  - intros cross act c Hch.
    destruct (changed_of_from_pairs (combine v (current_phases s))
                (combine v (current_phases s)) [] (incl_refl _)
                (fun k a c H => False_ind _ H) cross act c Hch) as [Hp Hne].
    pose proof (in_combine_r _ _ _ _ Hp) as Hc.
    destruct (gphase_in cfg cross act (Hin _ _ _ Hp)) as [ps [Hps ->]].
    destruct (wf_crossing cfg cross Hwf (in_cur_crossings cfg s _ _ Hok Hc))
      as [ps' [Hps' [HR [HY _]]]].
    rewrite Hps in Hps'; inversion Hps'; subst ps'.
    pose proof (Hr _ _ Hc) as Hcr; unfold glen in Hcr; rewrite Hps in Hcr.
    split; [discriminate|split].
    + intros Hpos; unfold rphase; rewrite Hps.
      destruct (R ps) eqn:ER; [exfalso; apply (HR Hpos); auto|discriminate].
    + intros Hpos; unfold yphase; rewrite Hps.
      specialize (HY Hpos).
      rewrite (py_index_in _ _ 0) by lia; discriminate.
Qed.

(** ** The action codec *)

Lemma d2md_eq d :
  d2md d = [d / 4 / 4 / 4 mod 4; d / 4 / 4 mod 4; d / 4 mod 4; d mod 4].
Proof. reflexivity. Qed.

(** C4: on vectors of four entries in [[0, 4)], [d2md] inverts [md2d]. *)
Theorem d2md_md2d_inverse (v : list Z) :
  List.length v = 4%nat -> Forall (fun i => 0 <= i < 4) v ->
  d2md (md2d v) = v.
Proof.
  intros Hlen Hrange.
  destruct v as [|a [|b [|c [|e [|? ?]]]]]; simpl in Hlen; try discriminate.
  rewrite !Forall_cons_iff in Hrange.
  destruct Hrange as [Ha [Hb [Hc [He _]]]].
  rewrite d2md_eq; unfold md2d; simpl fold_left.
  assert (H : let n := (((0 * 4 + a) * 4 + b) * 4 + c) * 4 + e in
              n / 4 / 4 / 4 mod 4 = a /\ n / 4 / 4 mod 4 = b /\
              n / 4 mod 4 = c /\ n mod 4 = e)
    by (simpl; Z.div_mod_to_equations; lia).
  simpl in H; destruct H as [-> [-> [-> ->]]]; reflexivity.
Qed.

(** C9: [d2md] is total: four digits in [[0, 4)] for any index, and
    re-encoding them gives the index modulo 256. *)
Theorem d2md_total_mod (d : Z) :
  List.length (d2md d) = 4%nat /\ Forall (fun i => 0 <= i < 4) (d2md d) /\
  md2d (d2md d) = d mod 256.
Proof.
  rewrite d2md_eq; split; [reflexivity|split].
  - repeat constructor; apply Z.mod_pos_bound; lia.
  - unfold md2d; simpl fold_left; Z.div_mod_to_equations; lia.
Qed.

(** ** Phase commands of a step *)

Lemma in_opt_cmd x p y o :
  In (SetTlPhase x p) (opt_cmd y o) -> x = y /\ o = Some p.
Proof. destruct o; simpl; intuition congruence. Qed.

Lemma not_in_repeat_next ev n : ev <> NextStep -> ~ In ev (repeat NextStep n).
Proof. intros Hne Hin; apply repeat_spec in Hin; auto. Qed.

Lemma simulate_no_actions cfg v s :
  no_actions cfg = true ->
  _simulate cfg v s
  = Ok tt (mkState (eng s ++ repeat NextStep (Z.to_nat (cycle cfg)))
                   (total_duration s + cycle cfg) (total_reward s)
                   (current_phases s)).
Proof. intros H; unfold _simulate; rewrite H; reflexivity. Qed.

Lemma unchanged_hyp cfg v s :
  state_ok cfg s ->
  forall act cross c, In (act, (cross, c)) (combine v (current_phases s)) ->
    act = c ->
    gphase cfg cross act <> None /\ dict_get (current_phases s) cross = Some c.
Proof.
  intros [Hk [Hnd Hr]] act cross c Hp ->.
  pose proof (in_combine_r _ _ _ _ Hp) as Hc.
  destruct (gphase_in cfg cross c (Hr _ _ Hc)) as [ps [_ ->]].
  split; [discriminate|].
  apply dict_get_in; auto; rewrite Hk; auto.
Qed.

(** C8: when every decoded target equals the current phase, [step] leaves
    [self._current_phases] as it was, and the only phase commands it sends
    re-set intersections to the Green phase they are in. *)
Theorem noop_step_only_reasserts cfg a v s :
  state_ok cfg s -> decode_action cfg a = Some v ->
  (forall act cross c, In (act, (cross, c)) (combine v (current_phases s)) ->
     act = c) ->
  current_phases (res_state (step cfg a s)) = current_phases s /\
  exists new, eng (res_state (step cfg a s)) = eng s ++ new /\
    forall x p, In (SetTlPhase x p) new ->
      exists c, In (x, c) (current_phases s) /\ gphase cfg x c = Some p.
Proof.
  intros Hok Hdec Heq.
  pose proof (step_outcome cfg a s) as Hout.
  rewrite (simulate_value_decoded cfg a v Hdec) in Hout.
  destruct (no_actions cfg) eqn:Hna.
  - rewrite (simulate_no_actions cfg v s Hna) in Hout.
    destruct Hout as [He [_ [Hc _]]]; rewrite He, Hc; simpl.
    split; [reflexivity|]. eexists; split; [reflexivity|].
    intros x p Hin; exfalso; revert Hin; apply not_in_repeat_next; discriminate.
  - assert (Hch : changed_of (combine v (current_phases s)) [] = []).
    { apply changed_of_all_eq; intros [act [cross c]] Hp; simpl.
      rewrite (Heq _ _ _ Hp), Z.eqb_refl; reflexivity. }
    rewrite simulate_ok in Hout; auto.
    2: apply unchanged_hyp; auto.
    2: rewrite Hch; intros ? ? ? [].
    destruct Hout as [He [_ [Hc _]]]; rewrite He, Hc; simpl.
    unfold sim_current, sim_events; rewrite Hch; simpl.
    split; [reflexivity|]. eexists; split; [reflexivity|].
    intros x p Hin; apply in_app_or in Hin as [Hin|Hin].
    + unfold unchanged_cmds in Hin; apply in_flat_map in Hin.
      destruct Hin as [[act [cross c]] [Hp Hin]].
      rewrite (Heq _ _ _ Hp), Z.eqb_refl in Hin.
      apply in_opt_cmd in Hin as [-> Hg].
      exists c; split; [apply (in_combine_r _ _ _ _ Hp)|].
      exact Hg.
    + exfalso; revert Hin; apply not_in_repeat_next; discriminate.
Qed.

Lemma changed_list_facts pairs :
  NoDup (map pkey pairs) ->
  changed_of pairs [] = map swap_pair (filter differs pairs) /\
  NoDup (map fst (map swap_pair (filter differs pairs))) /\
  (forall x a c, In (x, (a, c)) (map swap_pair (filter differs pairs)) <->
                 In (a, (x, c)) pairs /\ a <> c).
Proof.
  intros Hnd; split; [apply changed_of_nodup; auto; intros; reflexivity|split].
  - rewrite map_map.
    replace (map (fun p => fst (swap_pair p)) (filter differs pairs))
      with (map pkey (filter differs pairs))
      by (apply map_ext; intros [? [? ?]]; reflexivity).
    apply nodup_map_filter; auto.
  - intros x a c; rewrite in_map_iff; split.
    + intros [[a' [x' c']] [Heq Hin]]; simpl in Heq; inversion Heq; subst.
      apply filter_In in Hin as [Hin Hd]; simpl in Hd.
      split; auto; apply Z.eqb_neq; destruct (a =? c); auto; discriminate.
    + intros [Hin Hne]; exists (a, (x, c)); split; auto.
      apply filter_In; split; auto; simpl; apply Z.eqb_neq in Hne; rewrite Hne;
        reflexivity.
Qed.

Ltac other_crossing_silent :=
  let Hne := fresh "Hne" in
  first [ intros [? [? ?]] Hne | intros [? ?] Hne ];
  unfold pkey in Hne; simpl in Hne |- *;
  repeat match goal with
         | |- context [if ?b then _ else _] =>
             match b with
             | String.eqb _ _ => fail 1
             | _ => destruct b
             end
         end;
  rewrite ?cmds_for_opt, ?(proj2 (String.eqb_neq _ _) Hne); reflexivity.

Lemma nodup_key_unique pairs p q :
  NoDup (map pkey pairs) -> In p pairs -> In q pairs -> pkey p = pkey q -> p = q.
Proof.
  induction pairs as [|h pairs IH]; [intros _ []|].
  intros Hnd Hp Hq Hk; apply NoDup_cons_iff in Hnd as [Hnot Hnd].
  destruct Hp as [<-|Hp]; destruct Hq as [<-|Hq]; auto.
  - exfalso; apply Hnot; rewrite Hk; apply in_map; auto.
  - exfalso; apply Hnot; rewrite <- Hk; apply in_map; auto.
Qed.

(** An intersection that transitions receives, in order, [R[0]] (when the
    Red stage runs), [Y[cur_act]] (when the Yellow stage runs) and
    [G[act]]. *)
Lemma cmds_for_changed cfg pairs x a c :
  NoDup (map pkey pairs) -> In (a, (x, c)) pairs -> a <> c ->
  cmds_for x (sim_events cfg pairs)
  = (if 0 <? red_duration cfg then olist (rphase cfg x) else []) ++
    (if 0 <? yellow_duration cfg then olist (yphase cfg x c) else []) ++
    olist (gphase cfg x a).
Proof.
  intros Hnd Hin Hne.
  destruct (changed_list_facts pairs Hnd) as [Hch [Hnd' Hmem]].
  unfold sim_events; rewrite Hch, cmds_for_app.
  assert (Hu : cmds_for x (unchanged_cmds cfg pairs) = []).
  { unfold unchanged_cmds; rewrite cmds_for_flat_map.
    rewrite (flat_map_only _ pkey pairs x (a, (x, c))); auto.
    - apply Z.eqb_neq in Hne; simpl; rewrite Hne; reflexivity.
    - other_crossing_silent. }
  rewrite Hu; simpl app.
  assert (Hx : In (x, (a, c)) (map swap_pair (filter differs pairs)))
    by (apply Hmem; auto).
  destruct (map swap_pair (filter differs pairs)) as [|h t]; [destruct Hx|].
  assert (Hr : cmds_for x (red_cmds cfg (h :: t)) = olist (rphase cfg x)).
  { unfold red_cmds; rewrite cmds_for_flat_map.
    rewrite (flat_map_only _ fst (h :: t) x (x, (a, c))); auto.
    - rewrite cmds_for_opt, String.eqb_refl; reflexivity.
    - other_crossing_silent. }
  assert (Hy : cmds_for x (yellow_cmds cfg (h :: t)) = olist (yphase cfg x c)).
  { unfold yellow_cmds; rewrite cmds_for_flat_map.
    rewrite (flat_map_only _ fst (h :: t) x (x, (a, c))); auto.
    - rewrite cmds_for_opt, String.eqb_refl; reflexivity.
    - other_crossing_silent. }
  assert (Hg : cmds_for x (green_cmds cfg (h :: t)) = olist (gphase cfg x a)).
  { unfold green_cmds; rewrite cmds_for_flat_map.
    rewrite (flat_map_only _ fst (h :: t) x (x, (a, c))); auto.
    - rewrite cmds_for_opt, String.eqb_refl; reflexivity.
    - other_crossing_silent. }
  rewrite !cmds_for_app, Hg, cmds_for_repeat, app_nil_r.
  destruct (0 <? red_duration cfg); destruct (0 <? yellow_duration cfg);
    rewrite ?cmds_for_app, ?Hr, ?Hy, ?cmds_for_repeat, ?app_nil_r; reflexivity.
Qed.

(** An intersection whose action equals its current phase receives only
    [G[cur_act]], whatever the others do. *)
Lemma cmds_for_unchanged cfg pairs x c :
  NoDup (map pkey pairs) -> In (c, (x, c)) pairs ->
  cmds_for x (sim_events cfg pairs) = olist (gphase cfg x c).
Proof.
  intros Hnd Hin.
  destruct (changed_list_facts pairs Hnd) as [Hch [Hnd' Hmem]].
  unfold sim_events; rewrite Hch, cmds_for_app.
  assert (Hu : cmds_for x (unchanged_cmds cfg pairs) = olist (gphase cfg x c)).
  { unfold unchanged_cmds; rewrite cmds_for_flat_map.
    rewrite (flat_map_only _ pkey pairs x (c, (x, c))); auto.
    - simpl; rewrite Z.eqb_refl, cmds_for_opt, String.eqb_refl; reflexivity.
    - other_crossing_silent. }
  assert (Hnot : forall e, In e (map swap_pair (filter differs pairs)) -> fst e <> x).
  { intros [x' [a' c']] He Heq; simpl in Heq; subst x'.
    apply Hmem in He as [He Hne].
    assert (Hk : (a', (x, c')) = (c, (x, c)))
      by (apply (nodup_key_unique pairs); auto).
    inversion Hk; subst; contradiction. }
  rewrite Hu.
  assert (Hsilent : forall g : string * (Z * Z) -> list event,
            (forall e, fst e <> x -> cmds_for x (g e) = []) ->
            cmds_for x (flat_map g (map swap_pair (filter differs pairs))) = []).
  { intros g Hg; rewrite cmds_for_flat_map.
    apply (flat_map_none _ fst _ x Hnot); auto. }
  assert (Hr : cmds_for x (red_cmds cfg (map swap_pair (filter differs pairs))) = [])
    by (apply Hsilent; other_crossing_silent).
  assert (Hy : cmds_for x (yellow_cmds cfg (map swap_pair (filter differs pairs))) = [])
    by (apply Hsilent; other_crossing_silent).
  assert (Hg : cmds_for x (green_cmds cfg (map swap_pair (filter differs pairs))) = [])
    by (apply Hsilent; other_crossing_silent).
  destruct (map swap_pair (filter differs pairs)) as [|h t].
  - rewrite cmds_for_repeat, app_nil_r; reflexivity.
  - rewrite !cmds_for_app, Hg, cmds_for_repeat.
    destruct (0 <? red_duration cfg); destruct (0 <? yellow_duration cfg);
      rewrite ?cmds_for_app, ?Hr, ?Hy, ?cmds_for_repeat; simpl;
      rewrite ?app_nil_r; reflexivity.
Qed.

Lemma nodup_app_disjoint {A} (l l' : list A) a :
  NoDup (l ++ l') -> In a l -> ~ In a l'.
Proof.
  induction l as [|h l IH]; simpl; [tauto|].
  intros Hnd [<-|Hin] Hin'; apply NoDup_cons_iff in Hnd as [Hnot Hnd].
  - apply Hnot, in_or_app; right; auto.
  - apply (IH Hnd Hin Hin').
Qed.

Lemma step_after_wf cfg a v s :
  no_actions cfg = false -> topology_wf cfg -> state_ok cfg s ->
  decode_action cfg a = Some v -> actions_in_range cfg (current_phases s) v ->
  eng (res_state (step cfg a s))
    = eng s ++ sim_events cfg (combine v (current_phases s)) /\
  total_duration (res_state (step cfg a s)) = total_duration s + cycle cfg /\
  current_phases (res_state (step cfg a s))
    = sim_current (combine v (current_phases s)) (current_phases s).
Proof.
  intros Hna Hwf Hok Hdec Hin.
  pose proof (step_outcome cfg a s) as Hout.
  rewrite (simulate_value_decoded cfg a v Hdec) in Hout.
  rewrite simulate_ok_wf in Hout; auto.
  destruct Hout as [He [Ht [Hc _]]]; rewrite He, Ht, Hc; auto.
Qed.

Lemma pairs_nodup cfg s v :
  state_ok cfg s -> NoDup (map pkey (combine v (current_phases s))).
Proof.
  intros [Hk [Hnd _]]; apply pkeys_combine; rewrite Hk; auto.
Qed.

(** C2: a transitioning intersection gets, during the Yellow stage, the
    Yellow phase at the position of the Green phase it leaves; it never gets
    the one at the position of its target. *)
Theorem clearance_yellow_is_previous cfg a v s x act c :
  no_actions cfg = false -> topology_wf cfg -> state_ok cfg s ->
  decode_action cfg a = Some v -> actions_in_range cfg (current_phases s) v ->
  0 < yellow_duration cfg ->
  In (act, (x, c)) (combine v (current_phases s)) -> act <> c ->
  exists ps new,
    dict_get (crossing_phases cfg) x = Some ps /\
    eng (res_state (step cfg a s)) = eng s ++ new /\
    cmds_for x new
      = (if 0 <? red_duration cfg then [nth 0 (R ps) 0] else []) ++
        [nth (Z.to_nat c) (Y ps) 0] ++ [nth (Z.to_nat act) (G ps) 0] /\
    ~ In (nth (Z.to_nat act) (Y ps) 0) (cmds_for x new).
Proof.
  intros Hna Hwf Hok Hdec Hin Hy Hp Hne.
  destruct (step_after_wf cfg a v s Hna Hwf Hok Hdec Hin) as [He _].
  pose proof (in_combine_r _ _ _ _ Hp) as Hc.
  destruct (wf_crossing cfg x Hwf (in_cur_crossings cfg s _ _ Hok Hc))
    as [ps [Hps [HR [HY Hnd]]]].
  pose proof (Hin _ _ _ Hp) as Hact; unfold glen in Hact; rewrite Hps in Hact.
  pose proof (proj2 (proj2 Hok) _ _ Hc) as Hcr; unfold glen in Hcr;
    rewrite Hps in Hcr.
  specialize (HY Hy).
  assert (Hcmds : cmds_for x (sim_events cfg (combine v (current_phases s)))
      = (if 0 <? red_duration cfg then [nth 0 (R ps) 0] else []) ++
        [nth (Z.to_nat c) (Y ps) 0] ++ [nth (Z.to_nat act) (G ps) 0]).
  { rewrite (cmds_for_changed cfg _ x act c); auto; [|apply (pairs_nodup cfg); auto].
    apply Z.ltb_lt in Hy as Hy'; rewrite Hy'.
    unfold rphase, yphase, gphase; rewrite Hps.
    rewrite (py_index_in (Y ps) c 0) by lia.
    rewrite (py_index_in (G ps) act 0) by lia.
    destruct (0 <? red_duration cfg) eqn:Er; [|reflexivity].
    apply Z.ltb_lt in Er; specialize (HR Er).
    rewrite (py_index_in (R ps) 0 0); [reflexivity|].
    destruct (R ps); [contradiction|simpl; lia]. }
  exists ps, (sim_events cfg (combine v (current_phases s))).
  split; [auto|split; [auto|split; [auto|]]].
  rewrite Hcmds; intros Hyin.
  assert (HinY : In (nth (Z.to_nat act) (Y ps) 0) (Y ps)) by (apply nth_In; lia).
  apply in_app_or in Hyin as [Hyin|Hyin].
  - destruct (0 <? red_duration cfg) eqn:Er; [|destruct Hyin].
    destruct Hyin as [Heq|[]].
    apply Z.ltb_lt in Er; specialize (HR Er).
    assert (HinR : In (nth 0 (R ps) 0) (R ps))
      by (destruct (R ps); [contradiction|left; reflexivity]).
    rewrite Heq in HinR.
    apply (nodup_app_disjoint (Y ps) (R ps) _ (NoDup_app_remove_l _ _ Hnd) HinY HinR).
  - destruct Hyin as [Heq|[Heq|[]]].
    + pose proof (NoDup_app_remove_r _ _ (NoDup_app_remove_l _ _ Hnd)) as HndY.
      rewrite (NoDup_nth _ 0) in HndY.
      apply Hne; apply Z2Nat.inj; try lia.
      apply HndY; [lia|lia|congruence].
    + apply (nodup_app_disjoint (G ps) (Y ps ++ R ps)
               (nth (Z.to_nat act) (G ps) 0) Hnd).
      * apply nth_In; lia.
      * rewrite Heq; apply in_or_app; left; auto.
Qed.

(** C3: an intersection whose target equals its current phase receives, during
    the whole step, no command other than its current Green phase (none at
    all when actions are disabled); in particular no Red and no Yellow phase,
    whatever the other intersections do. *)
Theorem unchanged_never_cleared cfg a v s x c :
  topology_wf cfg -> state_ok cfg s ->
  decode_action cfg a = Some v -> actions_in_range cfg (current_phases s) v ->
  In (c, (x, c)) (combine v (current_phases s)) ->
  exists ps new,
    dict_get (crossing_phases cfg) x = Some ps /\
    eng (res_state (step cfg a s)) = eng s ++ new /\
    cmds_for x new
      = (if no_actions cfg then [] else [nth (Z.to_nat c) (G ps) 0]) /\
    (forall p, In p (cmds_for x new) -> ~ In p (R ps) /\ ~ In p (Y ps)).
Proof.
  intros Hwf Hok Hdec Hin Hp.
  pose proof (in_combine_r _ _ _ _ Hp) as Hc.
  destruct (wf_crossing cfg x Hwf (in_cur_crossings cfg s _ _ Hok Hc))
    as [ps [Hps [_ [_ Hnd]]]].
  pose proof (proj2 (proj2 Hok) _ _ Hc) as Hcr; unfold glen in Hcr;
    rewrite Hps in Hcr.
  assert (Hg : forall p, In p [nth (Z.to_nat c) (G ps) 0] ->
                 ~ In p (R ps) /\ ~ In p (Y ps)).
  { intros p [<-|[]].
    assert (HinG : In (nth (Z.to_nat c) (G ps) 0) (G ps)) by (apply nth_In; lia).
    pose proof (nodup_app_disjoint _ _ _ Hnd HinG) as Hdis.
    split; intros H; apply Hdis; apply in_or_app; auto. }
  destruct (no_actions cfg) eqn:Hna.
  - pose proof (step_outcome cfg a s) as Hout.
    rewrite (simulate_value_decoded cfg a v Hdec) in Hout.
    rewrite simulate_no_actions in Hout by auto.
    destruct Hout as [He _]; simpl in He.
    exists ps, (repeat NextStep (Z.to_nat (cycle cfg))).
    rewrite cmds_for_repeat; split; [auto|split; [auto|split; [reflexivity|intros q []]]].
  - destruct (step_after_wf cfg a v s Hna Hwf Hok Hdec Hin) as [He _].
    exists ps, (sim_events cfg (combine v (current_phases s))).
    rewrite (cmds_for_unchanged cfg _ x c (pairs_nodup cfg s v Hok) Hp).
    unfold gphase; rewrite Hps, (py_index_in (G ps) c 0) by lia.
    split; [auto|split; [auto|split; [reflexivity|exact Hg]]].
Qed.

Lemma step_ok_duration cfg a s o r d s' :
  step cfg a s = Ok (o, r, d) s' ->
  total_duration s' = total_duration s + cycle cfg /\
  d = (max_episode_duration cfg <? total_duration s').
Proof.
  intros H.
  pose proof (step_outcome cfg a s) as Hout.
  destruct (simulate_value_cases cfg (action_value cfg a) s)
    as [[v Ev]|[e Ev]]; rewrite Ev in Hout; [|congruence].
  pose proof (simulate_duration cfg v s) as Hd.
  destruct (_simulate cfg v s) as [u s1|e s1]; [|congruence].
  destruct Hout as [_ [Ht [_ Hdone]]].
  rewrite H in Ht; simpl in Ht; split; [congruence|eapply Hdone; eauto].
Qed.

Lemma step_duration_mono cfg a s :
  durations_nonneg cfg ->
  total_duration s <= total_duration (res_state (step cfg a s)).
Proof.
  intros [Hr [Hy Hg]].
  pose proof (step_outcome cfg a s) as Hout.
  destruct (simulate_value_cases cfg (action_value cfg a) s)
    as [[v Ev]|[e Ev]]; rewrite Ev in Hout; [|rewrite Hout; simpl; lia].
  pose proof (simulate_duration cfg v s) as Hd.
  destruct (_simulate cfg v s) as [u s1|e s1].
  - destruct Hout as [_ [Ht _]]; rewrite Ht, Hd; unfold cycle; lia.
  - rewrite Hout; simpl; lia.
Qed.

Lemma runs_duration_mono cfg s s' :
  durations_nonneg cfg -> runs cfg s s' -> total_duration s <= total_duration s'.
Proof.
  intros Hnn H; induction H as [s|s a s' _ IH]; [lia|].
  pose proof (step_duration_mono cfg a s Hnn); lia.
Qed.

(** C6: [done] is [total_duration > max_episode_duration], read after the
    step's ticks were added; once a step has returned [done = true], every
    later step that returns (with no [reset] in between) returns
    [done = true] again. *)
Theorem done_exceeds_and_stays cfg :
  durations_nonneg cfg ->
  (forall a s o r d s', step cfg a s = Ok (o, r, d) s' ->
     total_duration s' = total_duration s + cycle cfg /\
     (d = true <-> max_episode_duration cfg < total_duration s')) /\
  (forall a s o r s1 s2 a' o' r' d' s3,
     step cfg a s = Ok (o, r, true) s1 -> runs cfg s1 s2 ->
     step cfg a' s2 = Ok (o', r', d') s3 -> d' = true).
Proof.
  intros Hnn; split.
  - intros a s o r d s' H.
    destruct (step_ok_duration cfg a s o r d s' H) as [Ht Hd].
    split; [exact Ht|]; subst d; apply Z.ltb_lt.
  - intros a s o r s1 s2 a' o' r' d' s3 H1 Hruns H3.
    destruct (step_ok_duration cfg a s o r true s1 H1) as [_ Hd1].
    destruct (step_ok_duration cfg a' s2 o' r' d' s3 H3) as [Ht3 Hd3].
    symmetry in Hd1; apply Z.ltb_lt in Hd1.
    pose proof (runs_duration_mono cfg s1 s2 Hnn Hruns).
    destruct Hnn as [Hr [Hy Hg]].
    subst d'; apply Z.ltb_lt; unfold cycle in Ht3; lia.
Qed.

(** ** The controller state across [reset] and [step] *)

Lemma reset_crossing_ok cfg cross s u s' :
  reset_crossing cfg cross s = Ok u s' ->
  current_phases s' = dict_set (current_phases s) cross 0 /\
  (no_actions cfg = false -> 0 < glen cfg cross).
Proof.
  unfold reset_crossing, glen, bind, phases_of, lift.
  destruct (no_actions cfg); simpl.
  - intros H; inversion H; subst; split; [reflexivity|discriminate].
  - destruct (dict_get (crossing_phases cfg) cross) as [ps|]; simpl; [|discriminate].
    destruct (py_index (G ps) 0) eqn:Ep; simpl; [|discriminate].
    intros H; inversion H; subst; split; [reflexivity|intros _].
    unfold py_index in Ep; simpl in Ep.
    destruct (G ps); simpl in *; [discriminate|lia].
Qed.

Lemma reset_loop_ok cfg l s u s' :
  NoDup l -> (forall x, In x l -> dict_get (current_phases s) x = None) ->
  mfor l (reset_crossing cfg) s = Ok u s' ->
  current_phases s' = current_phases s ++ map (fun c => (c, 0)) l /\
  (no_actions cfg = false -> forall x, In x l -> 0 < glen cfg x).
Proof.
  revert s; induction l as [|x l IH]; intros s Hnd Hfresh H; simpl in H.
  - inversion H; subst; split; [symmetry; apply app_nil_r|intros _ _ []].
  - unfold bind in H.
    destruct (reset_crossing cfg x s) as [u1 s1|e s1] eqn:Ex; [|discriminate].
    destruct (reset_crossing_ok cfg x s u1 s1 Ex) as [Hc1 Hg1].
    apply NoDup_cons_iff in Hnd as [Hnot Hnd].
    rewrite dict_set_fresh in Hc1 by (apply Hfresh; left; auto).
    assert (Hfresh' : forall y, In y l -> dict_get (current_phases s1) y = None).
    { intros y Hy; rewrite Hc1, dict_get_app.
      - apply Hfresh; right; auto.
      - intros ->; contradiction. }
    destruct (IH s1 Hnd Hfresh' H) as [Hc Hg].
    split.
    + rewrite Hc, Hc1, <- app_assoc; reflexivity.
    + intros Hna y [<-|Hy]; auto.
Qed.

Lemma reset_ok cfg s o s' :
  NoDup (crossings cfg) -> reset cfg s = Ok o s' ->
  current_phases s' = map (fun c => (c, 0)) (crossings cfg) /\
  (no_actions cfg = false -> forall x, In x (crossings cfg) -> 0 < glen cfg x).
Proof.
  intros Hnd H; unfold reset, bind, modify in H.
  destruct (mfor (crossings cfg) (reset_crossing cfg) _) as [u s1|e s1] eqn:Em;
    [|discriminate].
  apply reset_loop_ok in Em as [Hc Hg]; [|exact Hnd|intros; reflexivity].
  unfold pure in H; destruct (_get_obs cfg s1); [discriminate|].
  inversion H; subst; split; auto.
Qed.

Lemma dict_set_keys {V} (d : list (string * V)) k v :
  In k (map fst d) -> map fst (dict_set d k v) = map fst d.
Proof.
  induction d as [|[k' v'] d IH]; simpl; [tauto|].
  destruct (String.eqb k k') eqn:E; simpl; [reflexivity|].
  intros [H|H]; [subst; rewrite String.eqb_refl in E; discriminate|].
  rewrite IH; auto.
Qed.

(** Every property of [self._current_phases] that holds before the call and
    survives writing a zipped target into its intersection's entry holds
    after [_simulate], whether it returns or raises. *)
Lemma simulate_current_inv cfg v s (P : list (string * Z) -> Prop) :
  P (current_phases s) ->
  (forall d k a c, P d -> In (a, (k, c)) (combine v (current_phases s)) ->
     P (dict_set d k a)) ->
  P (current_phases (res_state (_simulate cfg v s))).
Proof.
  intros H0 Hset.
  rewrite simulate_eq; destruct (no_actions cfg); [exact H0|].
  set (I := fun s' => P (current_phases s')).
  assert (H : hoare I (sim_core cfg v (current_phases s)) (fun _ => True)).
  { apply sim_core_hoare; intros;
      unfold emit, next_steps, set_current; apply hoare_modify; auto.
    intros s0 Hs0; unfold I; simpl; eauto. }
  specialize (H s H0).
  unfold bind; destruct (sim_core cfg v (current_phases s) s); simpl in *;
    unfold I in H; intuition.
Qed.

Lemma step_current_inv cfg a v s (P : list (string * Z) -> Prop) :
  decode_action cfg a = Some v ->
  P (current_phases s) ->
  (forall d k a c, P d -> In (a, (k, c)) (combine v (current_phases s)) ->
     P (dict_set d k a)) ->
  P (current_phases (res_state (step cfg a s))).
Proof.
  intros Hdec H0 Hset.
  pose proof (simulate_current_inv cfg v s P H0 Hset) as Hs.
  pose proof (step_outcome cfg a s) as Hout.
  rewrite (simulate_value_decoded cfg a v Hdec) in Hout.
  destruct (_simulate cfg v s) as [u s1|e s1].
  - destruct Hout as [_ [_ [Hc _]]]; rewrite Hc; exact Hs.
  - rewrite Hout; exact Hs.
Qed.

(** C10: after [reset] returns, every intersection's index is [0] (and, with
    actions enabled, the controller state is well formed); after any [step]
    on a well-formed state whose action entries are in range, returning or
    not, the state is still well formed and each intersection's index is
    its previous one or its in-range target. *)
Theorem current_phase_invariant cfg :
  (forall s o s', NoDup (crossings cfg) -> reset cfg s = Ok o s' ->
     current_phases s' = map (fun c => (c, 0)) (crossings cfg) /\
     (no_actions cfg = false -> state_ok cfg s')) /\
  (forall a v s, state_ok cfg s -> decode_action cfg a = Some v ->
     actions_in_range cfg (current_phases s) v ->
     state_ok cfg (res_state (step cfg a s)) /\
     (forall x c', In (x, c') (current_phases (res_state (step cfg a s))) ->
        In (x, c') (current_phases s) \/
        exists c, In (c', (x, c)) (combine v (current_phases s)))).
Proof.
  split.
  - intros s o s' Hnd H.
    destruct (reset_ok cfg s o s' Hnd H) as [Hc Hg].
    split; [exact Hc|intros Hna].
    split; [rewrite Hc, map_map; apply map_id|split; [exact Hnd|]].
    intros x c Hin; rewrite Hc in Hin; apply in_map_iff in Hin as [y [Hy Hiny]].
    inversion Hy; subst; split; [lia|apply Hg; auto].
  - intros a v s [Hk [Hnd Hr]] Hdec Hin.
    set (cur := current_phases s).
    set (P := fun d : list (string * Z) => map fst d = crossings cfg /\
      forall x c', In (x, c') d -> 0 <= c' < glen cfg x /\
        (In (x, c') cur \/ exists c, In (c', (x, c)) (combine v cur))).
    assert (HP : P (current_phases (res_state (step cfg a s)))).
    { apply (step_current_inv cfg a v s P Hdec).
      - split; [exact Hk|intros x c' H; split; auto].
      - intros d k act c [Hkd Hd] Hp; split.
        + rewrite dict_set_keys; auto.
          rewrite Hkd, <- Hk; apply (in_map fst _ _ (in_combine_r _ _ _ _ Hp)).
        + intros x c' Hx; destruct (dict_set_in _ _ _ _ Hx) as [Hx'|Hx']; auto.
          inversion Hx'; subst; split; [apply (Hin _ _ _ Hp)|right; eauto]. }
    destruct HP as [Hk' Hd'].
    split; [split; [exact Hk'|split; [exact Hnd|]]|].
    + intros x c' Hx; apply (Hd' x c' Hx).
    + intros x c' Hx; apply (Hd' x c' Hx).
Qed.

(** ** Ticks *)

Lemma ticks_app l1 l2 : ticks (l1 ++ l2) = (ticks l1 + ticks l2)%nat.
Proof. unfold ticks; rewrite filter_app, length_app; reflexivity. Qed.

Lemma ticks_repeat n : ticks (repeat NextStep n) = n.
Proof. induction n as [|n IH]; [reflexivity|unfold ticks in *; simpl; rewrite IH; reflexivity]. Qed.

Lemma ticks_opt cross o : ticks (opt_cmd cross o) = 0%nat.
Proof. destruct o; reflexivity. Qed.

Lemma ticks_flat_map {A} (f : A -> list event) l :
  (forall a, ticks (f a) = 0%nat) -> ticks (flat_map f l) = 0%nat.
Proof.
  intros H; induction l as [|a l IH]; simpl; [reflexivity|].
  rewrite ticks_app, H, IH; reflexivity.
Qed.

Ltac no_ticks :=
  intros [? [? ?]]; cbn beta iota;
  first [apply ticks_opt | destruct (_ =? _); [apply ticks_opt|reflexivity]].

Lemma ticks_sim_events cfg pairs :
  durations_nonneg cfg -> Z.of_nat (ticks (sim_events cfg pairs)) = cycle cfg.
Proof.
  intros [Hr [Hy Hg]]; unfold sim_events, cycle.
  unfold unchanged_cmds, red_cmds, yellow_cmds, green_cmds.
  rewrite ticks_app, ticks_flat_map by no_ticks.
  destruct (changed_of pairs []) as [|e ch].
  - rewrite ticks_repeat; simpl; lia.
  - destruct (0 <? red_duration cfg) eqn:Er, (0 <? yellow_duration cfg) eqn:Ey;
      rewrite ?ticks_app, ?ticks_repeat, ?ticks_flat_map by no_ticks;
      rewrite ?Z.ltb_lt, ?Z.ltb_ge in *; simpl; lia.
Qed.

Lemma cfg_one_wf : topology_wf cfg_one.
Proof.
  apply Forall_cons; [|apply Forall_nil].
  exists four_phase; split; [reflexivity|split; [|split]].
  - intros _; discriminate.
  - intros _; simpl; lia.
  - simpl; repeat (apply NoDup_cons; [simpl; intuition discriminate|]);
      apply NoDup_nil.
Qed.

Lemma cfg_one_reset_ok : state_ok cfg_one (after_reset cfg_one).
Proof.
  split; [reflexivity|split; [repeat constructor; intros []|]].
  intros cross c [H|[]]; inversion H; subst; unfold glen; simpl; lia.
Qed.

(** C1: every [step] whose action reaches the per-intersection loop of
    [_simulate] (actions enabled, entries in range) issues exactly
    red + yellow + green ticks and adds that much to [total_duration]; but
    with a single intersection a vector action [[2]] is squeezed to a 0-d
    array, [zip] raises [TypeError] before the first tick, and the step
    consumes no tick at all instead of 5 + 3 + 10 = 18. *)
Theorem step_tick_budget :
  (forall cfg a v s, no_actions cfg = false -> topology_wf cfg -> state_ok cfg s ->
     decode_action cfg a = Some v -> actions_in_range cfg (current_phases s) v ->
     durations_nonneg cfg ->
     exists new, eng (res_state (step cfg a s)) = eng s ++ new /\
       Z.of_nat (ticks new) = cycle cfg /\
       total_duration (res_state (step cfg a s)) = total_duration s + cycle cfg) /\
  (topology_wf cfg_one /\ state_ok cfg_one (after_reset cfg_one) /\
   cycle cfg_one = 18 /\
   step cfg_one (AVector [2]) (after_reset cfg_one)
     = Err TypeError (after_reset cfg_one)).
Proof.
  split.
  - intros cfg a v s Hna Hwf Hok Hdec Hin Hnn.
    destruct (step_after_wf cfg a v s Hna Hwf Hok Hdec Hin) as [He [Ht _]].
    exists (sim_events cfg (combine v (current_phases s))).
    split; [exact He|split; [apply ticks_sim_events; exact Hnn|exact Ht]].
  - split; [apply cfg_one_wf|split; [apply cfg_one_reset_ok|]].
    split; reflexivity.
Qed.

(** C7: [_get_reward] tests [k[:-2] in roads] with [roads] a single road id,
    a substring test: the lane ["100_0"] of the outgoing road ["100"] is also
    counted for the incoming road ["-100"], so the intersection's reward is
    [-3] where the spec's definition gives [-(3 - 1) = -2]. *)
Theorem reward_counts_substring_roads :
  _get_reward cfg_two_way init_state = inr [("intersection_1_1"%string, -3)] /\
  spec_cross_reward cfg_two_way (waiting_two_way []) "intersection_1_1"
    = Some (-2).
Proof. split; vm_compute; reflexivity. Qed.

(** ** Out-of-range actions *)

Lemma mfor_err {A} (l : list A) (body : A -> M unit) E a0 :
  In a0 l ->
  (forall a s, In a l ->
     match body a s with Ok _ _ => True | Err e _ => e = E end) ->
  (forall s, exists s', body a0 s = Err E s') ->
  forall s, exists s', mfor l body s = Err E s'.
Proof.
  induction l as [|a l IH]; intros Hin Hall H0 s; [destruct Hin|].
  simpl; unfold bind.
  destruct Hin as [<-|Hin].
  - destruct (H0 s) as [s' ->]; eauto.
  - pose proof (Hall a s (or_introl eq_refl)) as Ha.
    destruct (body a s) as [u s1|e s1]; [|subst; eauto].
    apply IH; auto; intros; apply Hall; right; auto.
Qed.

Lemma green_commands_err cfg ch x act c :
  In (x, (act, c)) ch -> gphase cfg x act = None ->
  (forall cross a c, In (cross, (a, c)) ch ->
     dict_get (crossing_phases cfg) cross <> None) ->
  forall s, exists s', green_commands cfg ch s = Err IndexError s'.
Proof.
  intros Hx Hg Hps; unfold green_commands.
  apply (mfor_err _ _ _ (x, (act, c)) Hx).
  - intros [cross [a c']] s Hin; unfold phases_of, lift, bind.
    destruct (dict_get (crossing_phases cfg) cross) as [ps|] eqn:E;
      [|exfalso; apply (Hps _ _ _ Hin E)].
    cbn; destruct (py_index (G ps) a); cbn; auto.
  - intros s; unfold phases_of, lift, bind; unfold gphase in Hg.
    destruct (dict_get (crossing_phases cfg) x) as [ps|] eqn:E;
      [|exfalso; apply (Hps _ _ _ Hx E)].
    cbn; rewrite Hg; cbn; eauto.
Qed.

Lemma green_commands_no_ticks cfg ch s0 :
  hoare (fun s => exists l, eng s = eng s0 ++ l /\ ticks l = 0%nat)
        (green_commands cfg ch) (fun _ => True).
Proof.
  unfold green_commands; apply hoare_mfor; intros [cross [a c]] _.
  apply hoare_bind with (Q := fun _ => True); [apply hoare_lift|intros ps _].
  apply hoare_bind with (Q := fun _ => True); [apply hoare_lift|intros p _].
  apply hoare_bind with (Q := fun _ => True).
  - unfold set_tl_phase, emit; apply hoare_modify; intros s [l [Hl Ht]].
    exists (l ++ [SetTlPhase cross p]); cbn; rewrite Hl, app_assoc.
    split; [reflexivity|rewrite ticks_app, Ht; reflexivity].
  - intros _ _; unfold set_current; apply hoare_modify; intros s [l [Hl Ht]].
    exists l; cbn; auto.
Qed.

Lemma changed_phases_wf cfg v s cross act c :
  topology_wf cfg -> state_ok cfg s ->
  In (cross, (act, c)) (changed_of (combine v (current_phases s)) []) ->
  exists ps, dict_get (crossing_phases cfg) cross = Some ps /\
    (0 < red_duration cfg -> rphase cfg cross <> None) /\
    (0 < yellow_duration cfg -> yphase cfg cross c <> None).
Proof.
  intros Hwf Hok Hch; pose proof Hok as [Hk [Hnd Hr]].
  destruct (changed_of_from_pairs (combine v (current_phases s))
              (combine v (current_phases s)) [] (incl_refl _)
              (fun k a c H => False_ind _ H) cross act c Hch) as [Hp Hne].
  pose proof (in_combine_r _ _ _ _ Hp) as Hc.
  destruct (wf_crossing cfg cross Hwf (in_cur_crossings cfg s _ _ Hok Hc))
    as [ps [Hps [HR [HY _]]]].
  pose proof (Hr _ _ Hc) as Hcr; unfold glen in Hcr; rewrite Hps in Hcr.
  exists ps; split; [exact Hps|split].
  - intros Hpos; unfold rphase; rewrite Hps.
    destruct (R ps) eqn:ER; [exfalso; apply (HR Hpos); auto|discriminate].
  - intros Hpos; unfold yphase; rewrite Hps.
    specialize (HY Hpos).
    rewrite (py_index_in _ _ 0) by lia; discriminate.
Qed.

Lemma simulate_green_out_of_range cfg v s x act c :
  no_actions cfg = false -> topology_wf cfg -> state_ok cfg s ->
  durations_nonneg cfg ->
  In (act, (x, c)) (combine v (current_phases s)) -> glen cfg x <= act ->
  exists s' new,
    _simulate cfg v s = Err IndexError s' /\
    eng s' = eng s ++ new /\
    Z.of_nat (ticks new) = red_duration cfg + yellow_duration cfg /\
    (forall x' a' c', In (a', (x', c')) (combine v (current_phases s)) -> a' <> c' ->
       (0 < red_duration cfg ->
          exists p, rphase cfg x' = Some p /\ In (SetTlPhase x' p) new) /\
       (0 < yellow_duration cfg ->
          exists p, yphase cfg x' c' = Some p /\ In (SetTlPhase x' p) new)).
Proof.
  intros Hna Hwf Hok [Hr0 [Hy0 Hg0]] Hp Hact.
  pose proof Hok as [Hk [Hnd Hr]].
  pose proof (in_combine_r _ _ _ _ Hp) as Hc.
  pose proof (Hr _ _ Hc) as Hcr.
  assert (Hne : act <> c) by lia.
  assert (Hmem : forall x' a' c', In (a', (x', c')) (combine v (current_phases s)) ->
            a' <> c' -> In (x', (a', c')) (changed_of (combine v (current_phases s)) [])).
  { destruct (changed_list_facts _ (pairs_nodup cfg s v Hok)) as [Hch [_ Hm]].
    intros x' a' c' H1 H2; rewrite Hch; apply Hm; auto. }
  assert (Hx : In (x, (act, c)) (changed_of (combine v (current_phases s)) []))
    by (apply Hmem; auto).
  assert (HG : gphase cfg x act = None).
  { unfold gphase; unfold glen in Hact.
    destruct (dict_get (crossing_phases cfg) x); [|reflexivity].
    unfold py_index; rewrite (proj2 (Z.leb_le 0 act)) by lia.
    apply nth_error_None; lia. }
  assert (Hps : forall cross a c', In (cross, (a, c'))
                  (changed_of (combine v (current_phases s)) []) ->
                dict_get (crossing_phases cfg) cross <> None).
  { intros cross a c' H.
    destruct (changed_phases_wf cfg v s cross a c' Hwf Hok H) as [ps [E _]].
    rewrite E; discriminate. }
  unfold _simulate; rewrite Hna; unfold bind at 1, gets.
  unfold bind at 1.
  rewrite (scan_actions_ok cfg (current_phases s)) by (auto; apply unchanged_hyp; auto).
  set (ch := changed_of (combine v (current_phases s)) []) in *.
  set (s1 := mkState _ _ _ _).
  assert (Hred : forall st, exists l,
            (if 0 <? red_duration cfg then red_stage cfg ch else ret tt) st
            = Ok tt (mkState (eng st ++ l) (total_duration st) (total_reward st)
                             (current_phases st)) /\
            Z.of_nat (ticks l) = red_duration cfg /\
            (0 < red_duration cfg -> forall x' a' c', In (x', (a', c')) ch ->
               exists p, rphase cfg x' = Some p /\ In (SetTlPhase x' p) l)).
  { intros st; destruct (0 <? red_duration cfg) eqn:Er.
    - apply Z.ltb_lt in Er.
      rewrite red_stage_ok.
      + eexists; split; [reflexivity|split].
        * unfold red_cmds; rewrite ticks_app, ticks_flat_map by no_ticks.
          rewrite ticks_repeat; simpl; lia.
        * intros _ x' a' c' Hin.
          destruct (changed_phases_wf cfg v s x' a' c' Hwf Hok Hin) as [ps [_ [HR _]]].
          destruct (rphase cfg x') as [p|] eqn:Ep; [|exfalso; apply (HR Er); reflexivity].
          exists p; split; [reflexivity|].
          apply in_or_app; left; apply in_flat_map; exists (x', (a', c')).
          split; [exact Hin|]; simpl; rewrite Ep; left; reflexivity.
      + intros cross [a c'] H.
        destruct (changed_phases_wf cfg v s cross a c' Hwf Hok H) as [ps [_ [HR _]]].
        auto.
    - apply Z.ltb_ge in Er; exists []; split; [|split].
      + unfold ret; rewrite app_nil_r; destruct st; reflexivity.
      + simpl; lia.
      + intros; lia. }
  assert (Hyel : forall st, exists l,
            (if 0 <? yellow_duration cfg then yellow_stage cfg ch else ret tt) st
            = Ok tt (mkState (eng st ++ l) (total_duration st) (total_reward st)
                             (current_phases st)) /\
            Z.of_nat (ticks l) = yellow_duration cfg /\
            (0 < yellow_duration cfg -> forall x' a' c', In (x', (a', c')) ch ->
               exists p, yphase cfg x' c' = Some p /\ In (SetTlPhase x' p) l)).
  { intros st; destruct (0 <? yellow_duration cfg) eqn:Ey.
    - apply Z.ltb_lt in Ey.
      rewrite yellow_stage_ok.
      + eexists; split; [reflexivity|split].
        * unfold yellow_cmds; rewrite ticks_app, ticks_flat_map by no_ticks.
          rewrite ticks_repeat; simpl; lia.
        * intros _ x' a' c' Hin.
          destruct (changed_phases_wf cfg v s x' a' c' Hwf Hok Hin) as [ps [_ [_ HY]]].
          destruct (yphase cfg x' c') as [p|] eqn:Ep; [|exfalso; apply (HY Ey); reflexivity].
          exists p; split; [reflexivity|].
          apply in_or_app; left; apply in_flat_map; exists (x', (a', c')).
          split; [exact Hin|]; simpl; rewrite Ep; left; reflexivity.
      + intros cross a c' H.
        destruct (changed_phases_wf cfg v s cross a c' Hwf Hok H) as [ps [_ [_ HY]]].
        auto.
    - apply Z.ltb_ge in Ey; exists []; split; [|split].
      + unfold ret; rewrite app_nil_r; destruct st; reflexivity.
      + simpl; lia.
      + intros; lia. }
  destruct ch as [|c0 ch'] eqn:Ech; [destruct Hx|].
  unfold bind.
  destruct (Hred s1) as [l1 [E1 [T1 M1]]]; rewrite E1.
  set (s2 := mkState (eng s1 ++ l1) _ _ _).
  destruct (Hyel s2) as [l2 [E2 [T2 M2]]]; rewrite E2.
  set (s3 := mkState (eng s2 ++ l2) _ _ _).
  destruct (green_commands_err cfg _ x act c Hx HG Hps s3) as [s4 E4].
  pose proof (green_commands_no_ticks cfg (c0 :: ch') s3 s3) as H4.
  rewrite E4 in H4 |- *.
  destruct H4 as [l3 [Hl3 T3]]; [exists []; rewrite app_nil_r; auto|].
  exists s4, (unchanged_cmds cfg (combine v (current_phases s)) ++ l1 ++ l2 ++ l3).
  split; [reflexivity|split].
  - rewrite Hl3; subst s3 s2 s1; cbn; rewrite !app_assoc; reflexivity.
  - split.
    + rewrite !ticks_app, T3.
      unfold unchanged_cmds; rewrite ticks_flat_map by no_ticks; lia.
    + intros x' a' c' Hin Hne'; pose proof (Hmem x' a' c' Hin Hne') as Hc'.
      split; intros Hpos.
      * destruct (M1 Hpos x' a' c' Hc') as [p [Ep Hinp]].
        exists p; split; [exact Ep|].
        apply in_or_app; right; apply in_or_app; left; exact Hinp.
      * destruct (M2 Hpos x' a' c' Hc') as [p [Ep Hinp]].
        exists p; split; [exact Ep|].
        apply in_or_app; right; apply in_or_app; right; apply in_or_app; left; exact Hinp.
Qed.

Lemma d2md_mod d : d2md (d mod 256) = d2md d.
Proof.
  rewrite !d2md_eq; f_equal; [|f_equal; [|f_equal; [|f_equal]]];
    Z.div_mod_to_equations; lia.
Qed.

(** C5, counterexample: with two intersections ([4^2 - 1 = 15]), the flat
    index [256] is not rejected: [step] returns normally; and the vector
    action [[4; 0]], whose first entry is outside the four Green phases,
    raises [IndexError] only after the engine ran the 5 Red and 3 Yellow
    ticks. *)
Lemma invalid_action_not_rejected :
  (exists r s', step cfg_two_flat (AScalar 256) (after_reset cfg_two_flat) = Ok r s') /\
  (exists s', step cfg_two (AVector [4; 0]) (after_reset cfg_two) = Err IndexError s' /\
              ticks (eng s') = 8%nat).
Proof.
  split.
  - vm_compute; eauto.
  - exists (res_state (step cfg_two (AVector [4; 0]) (after_reset cfg_two))).
    split; vm_compute; reflexivity.
Qed.

(** C5, as the code behaves: nothing validates the action.  A flat index is
    only read modulo [256] by [d2md], so [step d] is [step (d mod 256)]; a
    vector entry at or past its intersection's number of Green phases raises
    [IndexError] at the Green lookup, after the Red and Yellow commands and
    all their ticks were sent, with [total_duration] not advanced: every
    intersection whose entry differs from its current phase has received its
    Red phase (when there is a Red stage) and the Yellow phase of its current
    phase (when there is a Yellow stage). *)
Theorem actions_not_validated :
  (forall cfg d s, from_discrete cfg = true ->
     step cfg (AScalar d) s = step cfg (AScalar (d mod 256)) s) /\
  (forall cfg a v s x act c,
     no_actions cfg = false -> topology_wf cfg -> state_ok cfg s ->
     durations_nonneg cfg -> decode_action cfg a = Some v ->
     In (act, (x, c)) (combine v (current_phases s)) -> glen cfg x <= act ->
     exists s' new,
       step cfg a s = Err IndexError s' /\
       eng s' = eng s ++ new /\
       Z.of_nat (ticks new) = red_duration cfg + yellow_duration cfg /\
       total_duration s' = total_duration s /\
       (forall x' a' c', In (a', (x', c')) (combine v (current_phases s)) -> a' <> c' ->
          (0 < red_duration cfg ->
             exists p, rphase cfg x' = Some p /\ In (SetTlPhase x' p) new) /\
          (0 < yellow_duration cfg ->
             exists p, yphase cfg x' c' = Some p /\ In (SetTlPhase x' p) new))).
Proof.
  split.
  - intros cfg d s Hfd.
    unfold step, action_value; simpl np_squeeze; rewrite Hfd, d2md_mod.
    reflexivity.
  - intros cfg a v s x act c Hna Hwf Hok Hnn Hdec Hp Hact.
    destruct (simulate_green_out_of_range cfg v s x act c Hna Hwf Hok Hnn Hp Hact)
      as [s' [new [Es [He [Ht Hcmd]]]]].
    pose proof (simulate_duration cfg v s) as Hd; rewrite Es in Hd.
    pose proof (step_outcome cfg a s) as Hout.
    rewrite (simulate_value_decoded cfg a v Hdec), Es in Hout.
    exists s', new; auto.
Qed.

Lemma cfg_two_wf : topology_wf cfg_two.
Proof.
  assert (Hps : exists ps, Some four_phase = Some ps /\
    (0 < 5 -> R ps <> []) /\ (0 < 3 -> (List.length (G ps) <= List.length (Y ps))%nat) /\
    NoDup (G ps ++ Y ps ++ R ps)).
  { exists four_phase; split; [reflexivity|split; [|split]].
    - intros _; discriminate.
    - intros _; simpl; lia.
    - simpl; repeat (apply NoDup_cons; [simpl; intuition discriminate|]);
        apply NoDup_nil. }
  repeat apply Forall_cons; try apply Forall_nil; exact Hps.
Qed.

Lemma after_reset_two :
  after_reset cfg_two
  = mkState [EngReset; SetTlPhase "intersection_1_1" 1; SetTlPhase "intersection_2_1" 1]
            0 0 [("intersection_1_1"%string, 0); ("intersection_2_1"%string, 0)].
Proof. vm_compute; reflexivity. Qed.

Lemma cfg_two_reset_ok : state_ok cfg_two (after_reset cfg_two).
Proof.
  rewrite after_reset_two.
  split; [reflexivity|split].
  - repeat constructor; simpl; intuition discriminate.
  - intros cross c [H|[H|[]]]; inversion H; subst; unfold glen; simpl; lia.
Qed.

Lemma cfg_two_in_range v :
  Forall (fun a => 0 <= a < 4) v ->
  actions_in_range cfg_two (current_phases (after_reset cfg_two)) v.
Proof.
  rewrite after_reset_two; simpl.
  intros Hv act cross c H.
  destruct v as [|a0 [|a1 [|a2 v]]]; simpl in H; [destruct H| | |];
    rewrite ?Forall_cons_iff in Hv;
    repeat (destruct H as [H|H]; [inversion H; subst; unfold glen; simpl; lia|]);
    destruct H.
Qed.

Lemma cfg_two_nonneg : durations_nonneg cfg_two.
Proof. unfold durations_nonneg; simpl; lia. Qed.

Lemma cfg_two_auto_nonneg : durations_nonneg cfg_two_auto.
Proof. unfold durations_nonneg; simpl; lia. Qed.

Lemma step_tick_budget_witness :
  exists new, eng two_step_state = eng (after_reset cfg_two) ++ new /\
    Z.of_nat (ticks new) = cycle cfg_two /\
    total_duration two_step_state = total_duration (after_reset cfg_two) + cycle cfg_two.
Proof.
  apply (proj1 step_tick_budget cfg_two act_two [2; 0] (after_reset cfg_two)).
  - reflexivity.
  - apply cfg_two_wf.
  - apply cfg_two_reset_ok.
  - reflexivity.
  - apply cfg_two_in_range; repeat constructor; lia.
  - apply cfg_two_nonneg.
Defined.

Lemma clearance_yellow_is_previous_witness :
  exists ps new,
    dict_get (crossing_phases cfg_two) "intersection_1_1"%string = Some ps /\
    eng two_step_state = eng (after_reset cfg_two) ++ new /\
    cmds_for "intersection_1_1"%string new
      = (if 0 <? red_duration cfg_two then [nth 0 (R ps) 0] else []) ++
        [nth (Z.to_nat 0) (Y ps) 0] ++ [nth (Z.to_nat 2) (G ps) 0] /\
    ~ In (nth (Z.to_nat 2) (Y ps) 0) (cmds_for "intersection_1_1"%string new).
Proof.
  apply (clearance_yellow_is_previous cfg_two act_two [2; 0] (after_reset cfg_two)
           "intersection_1_1"%string 2 0).
  - reflexivity.
  - apply cfg_two_wf.
  - apply cfg_two_reset_ok.
  - reflexivity.
  - apply cfg_two_in_range; repeat constructor; lia.
  - simpl; lia.
  - rewrite after_reset_two; simpl; auto.
  - lia.
Defined.

Lemma unchanged_never_cleared_witness :
  exists ps new,
    dict_get (crossing_phases cfg_two) "intersection_2_1"%string = Some ps /\
    eng two_step_state = eng (after_reset cfg_two) ++ new /\
    cmds_for "intersection_2_1"%string new
      = (if no_actions cfg_two then [] else [nth (Z.to_nat 0) (G ps) 0]) /\
    (forall p, In p (cmds_for "intersection_2_1"%string new) -> ~ In p (R ps) /\ ~ In p (Y ps)).
Proof.
  apply (unchanged_never_cleared cfg_two act_two [2; 0] (after_reset cfg_two)
           "intersection_2_1"%string 0).
  - apply cfg_two_wf.
  - apply cfg_two_reset_ok.
  - reflexivity.
  - apply cfg_two_in_range; repeat constructor; lia.
  - rewrite after_reset_two; simpl; auto.
Defined.

Lemma d2md_md2d_inverse_witness : d2md (md2d [1; 2; 3; 0]) = [1; 2; 3; 0].
Proof.
  apply d2md_md2d_inverse; [reflexivity|repeat constructor; lia].
Defined.

Lemma actions_not_validated_witness :
  exists s' new,
    step cfg_two (AVector [4; 0]) (after_reset cfg_two) = Err IndexError s' /\
    eng s' = eng (after_reset cfg_two) ++ new /\
    Z.of_nat (ticks new) = red_duration cfg_two + yellow_duration cfg_two /\
    total_duration s' = total_duration (after_reset cfg_two) /\
    (forall x' a' c', In (a', (x', c')) (combine [4; 0] (current_phases (after_reset cfg_two))) ->
       a' <> c' ->
       (0 < red_duration cfg_two ->
          exists p, rphase cfg_two x' = Some p /\ In (SetTlPhase x' p) new) /\
       (0 < yellow_duration cfg_two ->
          exists p, yphase cfg_two x' c' = Some p /\ In (SetTlPhase x' p) new)).
Proof.
  apply (proj2 actions_not_validated cfg_two (AVector [4; 0]) [4; 0]
           (after_reset cfg_two) "intersection_1_1"%string 4 0).
  - reflexivity.
  - apply cfg_two_wf.
  - apply cfg_two_reset_ok.
  - apply cfg_two_nonneg.
  - reflexivity.
  - rewrite after_reset_two; simpl; auto.
  - unfold glen; simpl; lia.
Defined.

Lemma done_exceeds_and_stays_witness :
  step cfg_two act_two (after_reset cfg_two)
    = Ok ([0; 0; 1; 0; 1; 0; 0; 0], 0, false) two_step_state /\
  total_duration two_step_state = total_duration (after_reset cfg_two) + cycle cfg_two /\
  (false = true <-> max_episode_duration cfg_two < total_duration two_step_state) /\
  step cfg_two (AVector [1; 0]) two_step_state
    = Ok ([0; 1; 0; 0; 1; 0; 0; 0], 0, true) three_step_state /\
  total_duration three_step_state = total_duration two_step_state + cycle cfg_two /\
  (true = true <-> max_episode_duration cfg_two < total_duration three_step_state) /\
  step cfg_two_auto (AScalar 0) (after_reset cfg_two_auto)
    = Ok ([1; 0; 0; 0; 1; 0; 0; 0], 0, false)
         (res_state (step cfg_two_auto (AScalar 0) (after_reset cfg_two_auto))) /\
  total_duration (res_state (step cfg_two_auto (AScalar 0) (after_reset cfg_two_auto)))
    = total_duration (after_reset cfg_two_auto) + cycle cfg_two_auto /\
  (false = true <-> max_episode_duration cfg_two_auto
                    < total_duration (res_state (step cfg_two_auto (AScalar 0)
                                                      (after_reset cfg_two_auto)))) /\
  runs cfg_two three_step_state four_step_state /\
  step cfg_two act_two four_step_state
    = Ok ([0; 0; 1; 0; 1; 0; 0; 0], 0, true) (res_state (step cfg_two act_two four_step_state)) /\
  true = true.
Proof.
  destruct (done_exceeds_and_stays cfg_two cfg_two_nonneg) as [P1 P2].
  destruct (done_exceeds_and_stays cfg_two_auto cfg_two_auto_nonneg) as [Q1 _].
  assert (H1 : step cfg_two act_two (after_reset cfg_two)
                 = Ok ([0; 0; 1; 0; 1; 0; 0; 0], 0, false) two_step_state)
    by (vm_compute; reflexivity).
  assert (H2 : step cfg_two (AVector [1; 0]) two_step_state
                 = Ok ([0; 1; 0; 0; 1; 0; 0; 0], 0, true) three_step_state)
    by (vm_compute; reflexivity).
  assert (H3 : step cfg_two_auto (AScalar 0) (after_reset cfg_two_auto)
                 = Ok ([1; 0; 0; 0; 1; 0; 0; 0], 0, false)
                      (res_state (step cfg_two_auto (AScalar 0) (after_reset cfg_two_auto))))
    by (vm_compute; reflexivity).
  assert (H4 : step cfg_two act_two four_step_state
                 = Ok ([0; 0; 1; 0; 1; 0; 0; 0], 0, true)
                      (res_state (step cfg_two act_two four_step_state)))
    by (vm_compute; reflexivity).
  assert (R : runs cfg_two three_step_state four_step_state)
    by exact (runs_step cfg_two three_step_state (AVector [0; 0]) four_step_state
                (runs_refl cfg_two four_step_state)).
  destruct (P1 _ _ _ _ _ _ H1) as [T1 D1].
  destruct (P1 _ _ _ _ _ _ H2) as [T2 D2].
  destruct (Q1 _ _ _ _ _ _ H3) as [T3 D3].
  exact (conj H1 (conj T1 (conj D1 (conj H2 (conj T2 (conj D2 (conj H3 (conj T3
          (conj D3 (conj R (conj H4 (P2 _ _ _ _ _ _ _ _ _ _ _ H2 R H4)))))))))))).
Defined.

Lemma noop_step_only_reasserts_witness :
  current_phases (res_state (step cfg_two (AVector [0; 0]) (after_reset cfg_two)))
    = current_phases (after_reset cfg_two) /\
  exists new, eng (res_state (step cfg_two (AVector [0; 0]) (after_reset cfg_two)))
                = eng (after_reset cfg_two) ++ new /\
    forall x p, In (SetTlPhase x p) new ->
      exists c, In (x, c) (current_phases (after_reset cfg_two)) /\ gphase cfg_two x c = Some p.
Proof.
  apply (noop_step_only_reasserts cfg_two (AVector [0; 0]) [0; 0] (after_reset cfg_two)).
  - apply cfg_two_reset_ok.
  - reflexivity.
  - rewrite after_reset_two; simpl.
    intros act cross c [H|[H|[]]]; inversion H; reflexivity.
Defined.

Lemma current_phase_invariant_witness :
  (current_phases (after_reset cfg_two) = map (fun c => (c, 0)) (crossings cfg_two) /\
   (no_actions cfg_two = false -> state_ok cfg_two (after_reset cfg_two))) /\
  (state_ok cfg_two two_step_state /\
   (forall x c', In (x, c') (current_phases two_step_state) ->
      In (x, c') (current_phases (after_reset cfg_two)) \/
      exists c, In (c', (x, c)) (combine [2; 0] (current_phases (after_reset cfg_two))))).
Proof.
  destruct (current_phase_invariant cfg_two) as [Hreset Hstep]; split.
  - apply (Hreset init_state [1; 0; 0; 0; 1; 0; 0; 0]).
    + repeat constructor; simpl; intuition discriminate.
    + vm_compute; reflexivity.
  - apply (Hstep act_two [2; 0] (after_reset cfg_two)).
    + apply cfg_two_reset_ok.
    + reflexivity.
    + apply cfg_two_in_range; repeat constructor; lia.
Defined.

(** ** Further properties of the code *)

(** *** The action codec *)

Lemma md2d_snoc v i : md2d (v ++ [i]) = md2d v * 4 + i.
Proof. unfold md2d; rewrite fold_left_app; reflexivity. Qed.

Lemma md2d_app u v : md2d (u ++ v) = md2d u * 4 ^ Z.of_nat (List.length v) + md2d v.
Proof.
  induction v as [|i v IH] using rev_ind.
  - rewrite app_nil_r; simpl; unfold md2d; simpl; lia.
  - rewrite app_assoc, !md2d_snoc, IH, length_app; simpl length.
    rewrite Nat2Z.inj_add, Z.pow_add_r by lia; simpl; lia.
Qed.

Lemma md2d_zeros k v : md2d (repeat 0 k ++ v) = md2d v.
Proof.
  rewrite md2d_app.
  assert (H : md2d (repeat 0 k) = 0).
  { unfold md2d; induction k as [|k IH]; [reflexivity|].
    simpl repeat; simpl fold_left; exact IH. }
  rewrite H; lia.
Qed.

Lemma d2md_md2d_len4 (v : list Z) :
  List.length v = 4%nat -> Forall (fun i => 0 <= i < 4) v ->
  d2md (md2d v) = v.
Proof.
  intros Hlen Hrange.
  destruct v as [|a [|b [|c [|e [|? ?]]]]]; simpl in Hlen; try discriminate.
  rewrite !Forall_cons_iff in Hrange.
  destruct Hrange as [Ha [Hb [Hc [He _]]]].
  rewrite d2md_eq; unfold md2d; simpl fold_left.
  assert (H : let n := (((0 * 4 + a) * 4 + b) * 4 + c) * 4 + e in
              n / 4 / 4 / 4 mod 4 = a /\ n / 4 / 4 mod 4 = b /\
              n / 4 mod 4 = c /\ n mod 4 = e)
    by (simpl; Z.div_mod_to_equations; lia).
  simpl in H; destruct H as [-> [-> [-> ->]]]; reflexivity.
Qed.

Lemma md2d_bound (v : list Z) :
  Forall (fun i => 0 <= i < 4) v ->
  0 <= md2d v < 4 ^ Z.of_nat (List.length v).
Proof.
  induction v as [|i v IH] using rev_ind; intros H.
  - unfold md2d; simpl; lia.
  - apply Forall_app in H as [Hv Hi]; inversion Hi as [|? ? Hi' _]; subst.
    specialize (IH Hv).
    rewrite md2d_snoc, length_app, Nat2Z.inj_add, Z.pow_add_r by lia; simpl.
    nia.
Qed.

(** X1: the encoding of a vector of digits in [[0, 4)] lies in
    [[0, 4 ^ length)]. *)
Theorem md2d_range (v : list Z) :
  Forall (fun i => 0 <= i < 4) v ->
  0 <= md2d v < 4 ^ Z.of_nat (List.length v).
Proof. apply md2d_bound. Qed.

(** X2: encoding a vector of digits in [[0, 4)] with [md2d] and decoding it
    with [d2md] gives back its last four entries, padded with leading zeros
    when it has fewer than four. *)
Theorem d2md_md2d_last4 (v : list Z) :
  Forall (fun i => 0 <= i < 4) v ->
  d2md (md2d v) = skipn (List.length v - 4) (repeat 0 (4 - List.length v) ++ v).
Proof.
  intros Hr.
  destruct (Nat.le_gt_cases (List.length v) 4) as [Hle|Hgt].
  - replace (List.length v - 4)%nat with 0%nat by lia; simpl skipn.
    rewrite <- (md2d_zeros (4 - List.length v) v).
    assert (Hl : List.length (repeat 0 (4 - List.length v) ++ v) = 4%nat)
      by (rewrite length_app, repeat_length; lia).
    assert (Hf : Forall (fun i => 0 <= i < 4) (repeat 0 (4 - List.length v) ++ v)).
    { apply Forall_app; split; [|exact Hr].
      apply Forall_forall; intros x Hx; apply repeat_spec in Hx; lia. }
    exact (d2md_md2d_len4 _ Hl Hf).
  - replace (4 - List.length v)%nat with 0%nat by lia; simpl repeat; simpl app.
    rewrite <- (firstn_skipn (List.length v - 4) v) at 1.
    set (pre := firstn (List.length v - 4) v).
    set (suf := skipn (List.length v - 4) v).
    assert (Hl : List.length suf = 4%nat) by (unfold suf; rewrite length_skipn; lia).
    assert (Hs : Forall (fun i => 0 <= i < 4) suf).
    { unfold suf; apply Forall_forall; intros x Hx.
      apply (proj1 (Forall_forall _ v) Hr).
      rewrite <- (firstn_skipn (List.length v - 4) v); apply in_or_app; right; exact Hx. }
    rewrite md2d_app, Hl.
    rewrite <- d2md_mod.
    pose proof (md2d_bound suf Hs) as Hb; rewrite Hl in Hb; simpl in Hb.
    replace ((md2d pre * 4 ^ Z.of_nat 4 + md2d suf) mod 256) with (md2d suf).
    + apply d2md_md2d_len4; assumption.
    + simpl. rewrite Z.add_comm, Z.mod_add by lia. rewrite Z.mod_small by lia. reflexivity.
Qed.

(** *** Classifying the light phases *)

Lemma classify_phases_from_eq id links ps :
  classify_phases_from id links ps =
  mkPhaseSet (G ps ++ idx_where (fun n => 4 <? n)%nat id links)
             (Y ps ++ idx_where (fun n => n =? 4)%nat id links)
             (R ps ++ idx_where (fun n => n =? 0)%nat id links).
Proof.
  revert id ps; induction links as [|n links IH]; intros id ps; simpl.
  - rewrite !app_nil_r; destruct ps; reflexivity.
  - rewrite IH; unfold classify_phase.
    destruct (Nat.ltb_spec 4 n); destruct (Nat.eqb_spec n 4);
      destruct (Nat.eqb_spec n 0); try lia; simpl;
      rewrite <- ?app_assoc; reflexivity.
Qed.

Lemma idx_where_in f id links i :
  In i (idx_where f id links) <->
  id <= i < id + Z.of_nat (List.length links) /\
  f (nth (Z.to_nat (i - id)) links 0%nat) = true.
Proof.
  revert id; induction links as [|n links IH]; intros id.
  - simpl; split; [tauto|lia].
  - cbn [idx_where]; rewrite in_app_iff, IH.
    change (List.length (n :: links)) with (S (List.length links)).
    rewrite Nat2Z.inj_succ.
    destruct (Z.lt_trichotomy i id) as [Hlt|[->|Hgt]].
    + split.
      * intros [H|[Hb _]]; [destruct (f n); [destruct H as [H|[]]|destruct H]|];
          exfalso; lia.
      * intros [Hb _]; exfalso; lia.
    + rewrite Z.sub_diag; change (nth (Z.to_nat 0) (n :: links) 0%nat) with n.
      destruct (f n).
      * split; [intros _; split; [lia|reflexivity]|intros _; left; left; reflexivity].
      * split; [intros [[]|[Hb _]]; exfalso; lia|intros [_ H]; discriminate].
    + replace (Z.to_nat (i - id)) with (S (Z.to_nat (i - (id + 1)))) by lia.
      cbn [nth]; split.
      * intros [H|[Hb Hf]].
        -- destruct (f n); [destruct H as [H|[]]; lia|destruct H].
        -- split; [lia|exact Hf].
      * intros [Hb Hf]; right; split; [lia|exact Hf].
Qed.

Lemma idx_where_nodup f id links : NoDup (idx_where f id links).
Proof.
  revert id; induction links as [|n links IH]; intros id; simpl; [constructor|].
  apply NoDup_app; [destruct (f n); repeat constructor; simpl; tauto|apply IH|].
  intros a Ha Hb; apply idx_where_in in Hb.
  destruct (f n); simpl in Ha; [destruct Ha as [<-|[]]; lia|contradiction].
Qed.

(** X3: [_parse_config_file] puts light phase [i] in the Green list exactly
    when it has more than four road links, in the Yellow list exactly when it
    has four, in the Red list exactly when it has none; a phase with one to
    three links is in no list. *)
Theorem classify_phases_members (links : list nat) (i : Z) :
  let ps := classify_phases links in
  (In i (G ps) <-> 0 <= i < Z.of_nat (List.length links) /\
                   (4 < nth (Z.to_nat i) links 0%nat)%nat) /\
  (In i (Y ps) <-> 0 <= i < Z.of_nat (List.length links) /\
                   nth (Z.to_nat i) links 0%nat = 4%nat) /\
  (In i (R ps) <-> 0 <= i < Z.of_nat (List.length links) /\
                   nth (Z.to_nat i) links 0%nat = 0%nat).
Proof.
  unfold classify_phases; rewrite classify_phases_from_eq; simpl.
  rewrite !idx_where_in, !Z.sub_0_r.
  rewrite Nat.ltb_lt, !Nat.eqb_eq; tauto.
Qed.

(** X4: the Green, Yellow and Red lists built for an intersection hold
    distinct phase positions, none of them in two lists. *)
Theorem classify_phases_nodup (links : list nat) :
  let ps := classify_phases links in NoDup (G ps ++ Y ps ++ R ps).
Proof.
  unfold classify_phases; rewrite classify_phases_from_eq; simpl.
  pose proof (fun f => idx_where_in f 0 links) as Hin.
  apply NoDup_app;
    [apply idx_where_nodup|apply NoDup_app; [apply idx_where_nodup|apply idx_where_nodup|]|].
  - intros a Ha Hb; apply Hin in Ha as [_ Ha]; apply Hin in Hb as [_ Hb].
    rewrite Nat.eqb_eq in Ha, Hb; lia.
  - intros a Ha Hb; apply in_app_iff in Hb.
    apply Hin in Ha as [_ Ha]; rewrite Nat.ltb_lt in Ha.
    destruct Hb as [Hb|Hb]; apply Hin in Hb as [_ Hb];
      rewrite Nat.eqb_eq in Hb; lia.
Qed.

(** *** The dicts filled by [_parse_config_file] *)

Lemma list_contains_In x l : list_contains x l = true <-> In x l.
Proof.
  unfold list_contains; rewrite existsb_exists; split.
  - intros [y [Hy E]]; apply String.eqb_eq in E; subst; exact Hy.
  - intros H; exists x; split; [exact H|apply String.eqb_refl].
Qed.

Lemma dict_set_keys_cond {V} (d : list (string * V)) k v :
  map fst (dict_set d k v) =
  if list_contains k (map fst d) then map fst d else map fst d ++ [k].
Proof.
  unfold list_contains.
  induction d as [|[k' v'] d IH]; simpl; [reflexivity|].
  destruct (String.eqb k k') eqn:E; simpl; [reflexivity|].
  rewrite IH; destruct (existsb (String.eqb k) (map fst d)); reflexivity.
Qed.

Lemma dict_set_keys_iff {V} (d : list (string * V)) k v x :
  In x (map fst (dict_set d k v)) <-> x = k \/ In x (map fst d).
Proof.
  rewrite dict_set_keys_cond.
  destruct (list_contains k (map fst d)) eqn:E.
  - apply list_contains_In in E; split; [tauto|intros [->|H]; auto].
  - rewrite in_app_iff; simpl; intuition congruence.
Qed.

Lemma dict_set_nodup {V} (d : list (string * V)) k v :
  NoDup (map fst d) -> NoDup (map fst (dict_set d k v)).
Proof.
  intros Hnd; rewrite dict_set_keys_cond.
  destruct (list_contains k (map fst d)) eqn:E; [exact Hnd|].
  apply NoDup_app; [exact Hnd|repeat constructor; simpl; tauto|].
  intros a Ha [Heq|[]]; subst a.
  apply (proj2 (list_contains_In k _)) in Ha; congruence.
Qed.

Lemma dict_get_set_same {V} (d : list (string * V)) k v :
  dict_get (dict_set d k v) k = Some v.
Proof.
  induction d as [|[k' v'] d IH]; simpl.
  - rewrite String.eqb_refl; reflexivity.
  - destruct (String.eqb k k') eqn:E; simpl; rewrite ?E; [reflexivity|exact IH].
Qed.

Lemma dict_get_set_other {V} (d : list (string * V)) k k' v :
  k' <> k -> dict_get (dict_set d k v) k' = dict_get d k'.
Proof.
  intros Hne; induction d as [|[k0 v0] d IH]; simpl.
  - destruct (String.eqb k' k) eqn:E; [apply String.eqb_eq in E; congruence|reflexivity].
  - destruct (String.eqb k k0) eqn:E; simpl.
    + apply String.eqb_eq in E; subst.
      destruct (String.eqb k' k0) eqn:E'; [apply String.eqb_eq in E'; congruence|reflexivity].
    + destruct (String.eqb k' k0); [reflexivity|exact IH].
Qed.

Lemma dict_get_not_in {V} (d : list (string * V)) k :
  ~ In k (map fst d) -> dict_get d k = None.
Proof.
  induction d as [|[k' v'] d IH]; simpl; [reflexivity|]; intros H.
  destruct (String.eqb k k') eqn:E; [apply String.eqb_eq in E; subst; tauto|].
  apply IH; tauto.
Qed.

Lemma parse_fold_keys gsn items t0 t :
  efold (parse_item gsn) items t0 = inr t ->
  map fst (t_out t0) = map fst (t_in t0) ->
  map fst (t_phases t0) = map fst (t_in t0) ->
  NoDup (map fst (t_in t0)) ->
  map fst (t_out t) = map fst (t_in t) /\
  map fst (t_phases t) = map fst (t_in t) /\
  NoDup (map fst (t_in t)) /\
  (forall x, In x (map fst (t_in t)) <->
     In x (map fst (t_in t0)) \/
     In x (map rn_id (filter (fun it => negb (rn_virtual it)) items))).
Proof.
  revert t0; induction items as [|a items IH]; intros t0 H Ho Hp Hnd; simpl in H.
  - inversion H; subst; simpl; repeat split; auto; tauto.
  - destruct (parse_item gsn t0 a) as [e|t1] eqn:Ep; simpl in H; [discriminate|].
    unfold parse_item in Ep.
    destruct (rn_virtual a) eqn:Ev.
    + inversion Ep; subst t1; simpl; rewrite Ev; simpl.
      exact (IH t0 H Ho Hp Hnd).
    + destruct (efold _ (rn_roads a) ([], [])) as [e|io]; simpl in Ep; [discriminate|].
      inversion Ep; subst t1; clear Ep; simpl; rewrite Ev; simpl.
      destruct (IH _ H) as [Ho' [Hp' [Hnd' Hin']]]; simpl.
      * rewrite !dict_set_keys_cond, Ho; reflexivity.
      * rewrite !dict_set_keys_cond, Hp; reflexivity.
      * apply dict_set_nodup; exact Hnd.
      * cbn [t_in] in Hin'; repeat split; auto.
        -- intros Hx; apply Hin' in Hx; rewrite dict_set_keys_iff in Hx; simpl.
           destruct Hx as [[->|Hx]|Hx]; tauto.
        -- intros Hx; apply Hin'; rewrite dict_set_keys_iff; simpl in Hx.
           destruct Hx as [Hx|[<-|Hx]]; tauto.
Qed.

(** X5: after [_parse_config_file], [_crossing_in_roads],
    [_crossing_out_roads] and [_crossing_phases] have the same keys in the
    same order, so [self._crossings] lists each of them once, and an id is
    an intersection exactly when some non-virtual entry of the road network
    carries it. *)
Theorem parse_intersections_keys gsn items t :
  parse_intersections gsn items = inr t ->
  map fst (t_out t) = topology_crossings t /\
  map fst (t_phases t) = topology_crossings t /\
  NoDup (topology_crossings t) /\
  (forall x, In x (topology_crossings t) <->
     In x (map rn_id (filter (fun it => negb (rn_virtual it)) items))).
Proof.
  intros H; unfold topology_crossings.
  destruct (parse_fold_keys gsn items (mkTopology [] [] []) t H eq_refl eq_refl
              (NoDup_nil _)) as [Ho [Hp [Hnd Hin]]].
  split; [exact Ho|split; [exact Hp|split; [exact Hnd|]]].
  intros x; specialize (Hin x); simpl in Hin; tauto.
Qed.

Lemma split_road_step gsn cnum acc r :
  (2 <= List.length cnum)%nat -> (2 <= List.length (gsn r))%nat ->
  split_road gsn cnum acc r =
  inr (if (nth 0 (gsn r) 0 =? nth 0 cnum 0) && (nth 1 (gsn r) 0 =? nth 1 cnum 0)
       then (fst acc, snd acc ++ [r]) else (fst acc ++ [r], snd acc)).
Proof.
  unfold split_road; intros Hc Hr.
  destruct (gsn r) as [|r0 [|r1 rr]]; simpl in Hr; try lia.
  destruct cnum as [|c0 [|c1 cc]]; simpl in Hc; try lia.
  unfold py_index; simpl.
  destruct (r0 =? c0); reflexivity.
Qed.

Lemma split_roads_fold gsn cnum roads ins outs :
  (2 <= List.length cnum)%nat ->
  (forall r, In r roads -> (2 <= List.length (gsn r))%nat) ->
  efold (split_road gsn cnum) roads (ins, outs) =
  inr (ins ++ filter (fun r => negb ((nth 0 (gsn r) 0 =? nth 0 cnum 0) &&
                                     (nth 1 (gsn r) 0 =? nth 1 cnum 0))) roads,
       outs ++ filter (fun r => (nth 0 (gsn r) 0 =? nth 0 cnum 0) &&
                                (nth 1 (gsn r) 0 =? nth 1 cnum 0)) roads).
Proof.
  intros Hc; revert ins outs; induction roads as [|r roads IH]; intros ins outs Hr.
  - simpl; rewrite !app_nil_r; reflexivity.
  - simpl efold; rewrite split_road_step by (auto; apply Hr; left; auto); simpl.
    destruct ((nth 0 (gsn r) 0 =? nth 0 cnum 0) && (nth 1 (gsn r) 0 =? nth 1 cnum 0));
      simpl; rewrite IH by (intros; apply Hr; right; auto);
      rewrite <- app_assoc; reflexivity.
Qed.

(** X6: when [get_suffix_num] gives at least two numbers for the
    intersection id and for each of its roads, the road loop never raises:
    the outgoing list holds, in their order, the roads whose first two
    suffix numbers are those of the intersection, and the incoming list
    all other roads, in their order. *)
Theorem split_roads_partition gsn (crossing_id : string) (roads : list string) :
  (2 <= List.length (gsn crossing_id))%nat ->
  (forall r, In r roads -> (2 <= List.length (gsn r))%nat) ->
  let own r := (nth 0 (gsn r) 0 =? nth 0 (gsn crossing_id) 0) &&
               (nth 1 (gsn r) 0 =? nth 1 (gsn crossing_id) 0) in
  efold (split_road gsn (gsn crossing_id)) roads ([], []) =
  inr (filter (fun r => negb (own r)) roads, filter own roads).
Proof.
  intros Hc Hr own; unfold own.
  rewrite (split_roads_fold gsn (gsn crossing_id) roads [] [] Hc Hr); reflexivity.
Qed.

Lemma parse_fold_other gsn items t0 t k :
  efold (parse_item gsn) items t0 = inr t ->
  ~ In k (map rn_id (filter (fun it => negb (rn_virtual it)) items)) ->
  dict_get (t_in t) k = dict_get (t_in t0) k /\
  dict_get (t_out t) k = dict_get (t_out t0) k /\
  dict_get (t_phases t) k = dict_get (t_phases t0) k.
Proof.
  revert t0; induction items as [|a items IH]; intros t0 H Hk; simpl in H.
  - inversion H; subst; auto.
  - destruct (parse_item gsn t0 a) as [e|t1] eqn:Ep; simpl in H; [discriminate|].
    unfold parse_item in Ep; simpl in Hk.
    destruct (rn_virtual a) eqn:Ev; simpl in Hk.
    + inversion Ep; subst t1; exact (IH t0 H Hk).
    + destruct (efold _ (rn_roads a) ([], [])) as [e|io]; simpl in Ep; [discriminate|].
      inversion Ep; subst t1; clear Ep.
      destruct (IH _ H) as [Hi [Ho Hp]]; [tauto|]; simpl in Hi, Ho, Hp.
      assert (Hne : k <> rn_id a) by (intros ->; tauto).
      rewrite dict_get_set_other in Hi by exact Hne.
      rewrite dict_get_set_other in Ho by exact Hne.
      rewrite dict_get_set_other in Hp by exact Hne; auto.
Qed.

Lemma parse_fold_entries gsn items t0 t :
  efold (parse_item gsn) items t0 = inr t ->
  NoDup (map rn_id (filter (fun it => negb (rn_virtual it)) items)) ->
  (forall x, In x (map rn_id (filter (fun it => negb (rn_virtual it)) items)) ->
     ~ In x (map fst (t_in t0))) ->
  map fst (t_in t) =
    map fst (t_in t0) ++ map rn_id (filter (fun it => negb (rn_virtual it)) items) /\
  (forall it, In it items -> rn_virtual it = false ->
     exists io,
       efold (split_road gsn (gsn (rn_id it))) (rn_roads it) ([], []) = inr io /\
       dict_get (t_in t) (rn_id it) = Some (fst io) /\
       dict_get (t_out t) (rn_id it) = Some (snd io) /\
       dict_get (t_phases t) (rn_id it) = Some (classify_phases (rn_lightphases it))).
Proof.
  revert t0; induction items as [|a items IH]; intros t0 H Hnd Hfresh; simpl in H.
  - inversion H; subst; rewrite app_nil_r; split; [reflexivity|intros _ []].
  - destruct (parse_item gsn t0 a) as [e|t1] eqn:Ep; simpl in H; [discriminate|].
    unfold parse_item in Ep; simpl in Hnd, Hfresh.
    destruct (rn_virtual a) eqn:Ev; simpl in Hnd, Hfresh.
    + inversion Ep; subst t1.
      destruct (IH t0 H Hnd Hfresh) as [Hk He]; split; [simpl; rewrite Ev; exact Hk|].
      intros it [<-|Hit] Hv; [congruence|exact (He it Hit Hv)].
    + destruct (efold _ (rn_roads a) ([], [])) as [e|io] eqn:Eio; simpl in Ep;
        [discriminate|].
      inversion Ep; subst t1; clear Ep.
      apply NoDup_cons_iff in Hnd as [Hnot Hnd].
      assert (Hfa : ~ In (rn_id a) (map fst (t_in t0))) by (apply Hfresh; left; auto).
      destruct (IH _ H Hnd) as [Hk He].
      { intros x Hx; simpl; rewrite dict_set_keys_iff; intros [->|Hx'];
          [contradiction|exact (Hfresh x (or_intror Hx) Hx')]. }
      split.
      * simpl; rewrite Ev; simpl; rewrite Hk; simpl; rewrite dict_set_keys_cond.
        destruct (list_contains (rn_id a) (map fst (t_in t0))) eqn:Ec.
        -- apply list_contains_In in Ec; contradiction.
        -- rewrite <- app_assoc; reflexivity.
      * intros it [<-|Hit] Hv.
        -- exists io; split; [exact Eio|].
           destruct (parse_fold_other gsn items _ t (rn_id a) H Hnot) as [Hi [Ho Hp]].
           simpl in Hi, Ho, Hp; rewrite Hi, Ho, Hp, !dict_get_set_same; auto.
        -- exact (He it Hit Hv).
Qed.

(** X7: when the non-virtual intersections of the road network have
    distinct ids, [self._crossings] lists them in file order, and each one's
    entries are the incoming and outgoing lists of its road loop and the
    classification of its own light phases. *)
Theorem parse_intersections_entries gsn items t :
  parse_intersections gsn items = inr t ->
  NoDup (map rn_id (filter (fun it => negb (rn_virtual it)) items)) ->
  topology_crossings t = map rn_id (filter (fun it => negb (rn_virtual it)) items) /\
  (forall it, In it items -> rn_virtual it = false ->
     exists io,
       efold (split_road gsn (gsn (rn_id it))) (rn_roads it) ([], []) = inr io /\
       dict_get (t_in t) (rn_id it) = Some (fst io) /\
       dict_get (t_out t) (rn_id it) = Some (snd io) /\
       dict_get (t_phases t) (rn_id it) = Some (classify_phases (rn_lightphases it))).
Proof.
  intros H Hnd.
  destruct (parse_fold_entries gsn items (mkTopology [] [] []) t H Hnd)
    as [Hk He]; [intros x _ []|].
  split; [exact Hk|exact He].
Qed.

(** *** [self._road_lanes] *)

Lemma road_lanes_init road_ids (d : list (string * list string)) r :
  dict_get (fold_left (fun rl road_id => dict_set rl road_id []) road_ids d) r =
  if list_contains r road_ids then Some [] else dict_get d r.
Proof.
  unfold list_contains; revert d; induction road_ids as [|x l IH]; intros d;
    simpl; [reflexivity|].
  rewrite IH; destruct (String.eqb r x) eqn:E; simpl.
  - apply String.eqb_eq in E; subst.
    destruct (existsb (String.eqb x) l); [reflexivity|apply dict_get_set_same].
  - destruct (existsb (String.eqb r) l); [reflexivity|].
    apply dict_get_set_other; intros ->; rewrite String.eqb_refl in E; discriminate.
Qed.

Lemma road_lanes_fold road_ids lanes (acc : list (string * list string)) prefix :
  (forall r, dict_get acc r =
     if list_contains r road_ids
     then Some (filter (fun lane => String.eqb (drop_last2 lane) r) prefix)
     else None) ->
  (forallb (fun lane => list_contains (drop_last2 lane) road_ids) lanes = true ->
   exists acc',
     efold (fun rl lane =>
              old <-? of_option (dict_get rl (drop_last2 lane)) KeyError ;;
              inr (dict_set rl (drop_last2 lane) (old ++ [lane]))) lanes acc = inr acc' /\
     forall r, dict_get acc' r =
       if list_contains r road_ids
       then Some (filter (fun lane => String.eqb (drop_last2 lane) r) (prefix ++ lanes))
       else None) /\
  (forallb (fun lane => list_contains (drop_last2 lane) road_ids) lanes = false ->
   efold (fun rl lane =>
            old <-? of_option (dict_get rl (drop_last2 lane)) KeyError ;;
            inr (dict_set rl (drop_last2 lane) (old ++ [lane]))) lanes acc = inl KeyError).
Proof.
  revert acc prefix; induction lanes as [|lane lanes IH]; intros acc prefix Hinv.
  - split; [intros _; exists acc; rewrite app_nil_r; split; auto|discriminate].
  - simpl efold; simpl forallb; rewrite (Hinv (drop_last2 lane)).
    destruct (list_contains (drop_last2 lane) road_ids) eqn:Ec; simpl.
    + assert (Hinv' : forall r, dict_get (dict_set acc (drop_last2 lane)
          (filter (fun l => String.eqb (drop_last2 l) (drop_last2 lane)) prefix ++ [lane])) r =
        if list_contains r road_ids
        then Some (filter (fun l => String.eqb (drop_last2 l) r) (prefix ++ [lane]))
        else None).
      { intros r; rewrite filter_app; simpl.
        destruct (String.eqb (drop_last2 lane) r) eqn:E.
        - apply String.eqb_eq in E; subst r; rewrite dict_get_set_same, Ec; reflexivity.
        - rewrite dict_get_set_other, Hinv, app_nil_r; [reflexivity|].
          intros ->; rewrite String.eqb_refl in E; discriminate. }
      destruct (IH _ _ Hinv') as [Hok Herr]; split.
      * intros Hall; destruct (Hok Hall) as [acc' [He Hv]]; exists acc'; split; [exact He|].
        intros r; rewrite Hv, <- app_assoc; reflexivity.
      * exact Herr.
    + split; [discriminate|reflexivity].
Qed.

(** X8: when every lane reported by [get_lane_vehicle_count] has its road
    ([lane[:-2]]) among the roads of the road network, [self._road_lanes]
    is built without raising: the entry of each listed road holds, in
    reported order, exactly the lanes of that road, and no other key is
    present. *)
Theorem build_road_lanes_groups (road_ids all_lanes : list string) :
  (forall lane, In lane all_lanes -> In (drop_last2 lane) road_ids) ->
  exists rl, build_road_lanes road_ids all_lanes = inr rl /\
    (forall r, In r road_ids ->
       dict_get rl r = Some (filter (fun lane => String.eqb (drop_last2 lane) r) all_lanes)) /\
    (forall r, ~ In r road_ids -> dict_get rl r = None).
Proof.
  intros Hall.
  destruct (road_lanes_fold road_ids all_lanes
              (fold_left (fun rl road_id => dict_set rl road_id []) road_ids []) [])
    as [Hok _].
  { intros r; rewrite road_lanes_init; simpl.
    destruct (list_contains r road_ids); reflexivity. }
  destruct Hok as [rl [He Hv]].
  { apply forallb_forall; intros lane Hl; apply list_contains_In; auto. }
  exists rl; split; [exact He|split].
  - intros r Hr; rewrite Hv; apply list_contains_In in Hr; rewrite Hr; reflexivity.
  - intros r Hr; rewrite Hv.
    destruct (list_contains r road_ids) eqn:E; [apply list_contains_In in E; tauto|reflexivity].
Qed.

(** X9: building [self._road_lanes] raises exactly when some reported lane
    belongs to a road missing from the road network, and the only exception
    it raises is [KeyError]. *)
Theorem build_road_lanes_error (road_ids all_lanes : list string) :
  (build_road_lanes road_ids all_lanes = inl KeyError <->
   exists lane, In lane all_lanes /\ ~ In (drop_last2 lane) road_ids) /\
  (forall e, build_road_lanes road_ids all_lanes = inl e -> e = KeyError).
Proof.
  destruct (road_lanes_fold road_ids all_lanes
              (fold_left (fun rl road_id => dict_set rl road_id []) road_ids []) [])
    as [Hok Herr].
  { intros r; rewrite road_lanes_init; simpl.
    destruct (list_contains r road_ids); reflexivity. }
  unfold build_road_lanes.
  destruct (forallb (fun lane => list_contains (drop_last2 lane) road_ids) all_lanes) eqn:Ef.
  - destruct (Hok eq_refl) as [rl [He _]]; rewrite He.
    split; [|discriminate].
    split; [discriminate|].
    intros [lane [Hl Hn]]; exfalso; apply Hn; apply list_contains_In.
    rewrite forallb_forall in Ef; auto.
  - rewrite (Herr eq_refl); split; [|congruence].
    split; [intros _|reflexivity].
    apply Bool.not_true_iff_false in Ef; rewrite forallb_forall in Ef.
    destruct (existsb (fun lane => negb (list_contains (drop_last2 lane) road_ids))
                all_lanes) eqn:Ex.
    + apply existsb_exists in Ex as [lane [Hl Hn]]; exists lane; split; [exact Hl|].
      rewrite <- list_contains_In; destruct (list_contains _ _); simpl in Hn; congruence.
    + exfalso; apply Ef; intros lane Hl.
      destruct (list_contains (drop_last2 lane) road_ids) eqn:E; [reflexivity|].
      assert (Hx : existsb (fun lane => negb (list_contains (drop_last2 lane) road_ids))
                     all_lanes = true)
        by (apply existsb_exists; exists lane; rewrite E; auto).
      congruence.
Qed.

(** *** The action space of [_init_info] *)

Lemma act_shape_fold crossings (phases : list (string * PhaseSet)) acc shape :
  efold (fun act_shape cross =>
           ps <-? of_option (dict_get phases cross) KeyError ;;
           inr (act_shape ++ [Z.of_nat (List.length (G ps))])) crossings acc = inr shape ->
  shape = acc ++ map (fun x => match dict_get phases x with
                               | Some ps => Z.of_nat (List.length (G ps))
                               | None => 0 end) crossings.
Proof.
  revert acc; induction crossings as [|x l IH]; intros acc H; simpl in H.
  - inversion H; subst; rewrite app_nil_r; reflexivity.
  - destruct (dict_get phases x) as [ps|] eqn:E; simpl in H; [|discriminate].
    rewrite (IH _ H), <- app_assoc; simpl; rewrite E; reflexivity.
Qed.

Lemma combine_map_r {A B C} (v : list A) (l : list B) (f : B -> C) :
  combine v (map f l) = map (fun p => (fst p, f (snd p))) (combine v l).
Proof.
  revert l; induction v as [|a v IH]; intros [|b l]; simpl; auto.
  rewrite IH; reflexivity.
Qed.

(** X10: when [_init_info] builds the action space, its [MultiDiscrete]
    shape is the number of Green phases of each intersection, in the order
    of [self._crossings]; so an action lies in the space (each entry, as
    zipped with the intersections, below its bound and non-negative) exactly
    when every entry is a position in its intersection's Green list. *)
Theorem init_act_shape_green cfg shape (cur : list (string * Z)) (v : list Z) :
  init_act_shape (crossings cfg) (crossing_phases cfg) = inr shape ->
  shape = map (glen cfg) (crossings cfg) /\
  (map fst cur = crossings cfg ->
   (actions_in_range cfg cur v <->
    Forall (fun p => 0 <= fst p < snd p) (combine v shape))).
Proof.
  intros H; apply act_shape_fold in H; simpl in H.
  assert (Hs : shape = map (glen cfg) (crossings cfg)) by (rewrite H; reflexivity).
  split; [exact Hs|intros Hk].
  rewrite Hs, <- Hk, map_map, combine_map_r, Forall_map, Forall_forall.
  unfold actions_in_range; split.
  - intros Hr [act [cross c]] Hin; simpl; exact (Hr act cross c Hin).
  - intros Hf act cross c Hin; exact (Hf _ Hin).
Qed.

(** *** The observation of [_get_obs] *)

Lemma firstn_repeat_le {A} (x : A) k n :
  (k <= n)%nat -> firstn k (repeat x n) = repeat x k.
Proof.
  revert n; induction k as [|k IH]; intros [|n] H; simpl; try reflexivity; try lia.
  rewrite IH by lia; reflexivity.
Qed.

Lemma skipn_repeat_any {A} (x : A) k n : skipn k (repeat x n) = repeat x (n - k).
Proof.
  revert n; induction k as [|k IH]; intros [|n]; simpl; try reflexivity; apply IH.
Qed.

Lemma py_set_index_onehot n ph :
  - Z.of_nat n <= ph < Z.of_nat n ->
  py_set_index (repeat 0 n) ph 1 =
  Some (onehot n (Z.to_nat (if ph <? 0 then Z.of_nat n + ph else ph))).
Proof.
  intros Hb; unfold py_set_index, onehot; rewrite repeat_length.
  set (j := if ph <? 0 then Z.of_nat n + ph else ph).
  assert (Hj : 0 <= j < Z.of_nat n) by (unfold j; destruct (Z.ltb_spec ph 0); lia).
  destruct (Z.leb_spec 0 j); [|lia]; destruct (Z.ltb_spec j (Z.of_nat n)); [|lia].
  rewrite firstn_repeat_le by lia; rewrite skipn_repeat_any; reflexivity.
Qed.

Lemma dict_get_map_keys {V} (L : list string) (P : string -> V) k :
  In k L -> dict_get (map (fun x => (x, P x)) L) k = Some (P k).
Proof.
  induction L as [|y L IH]; simpl; [tauto|]; intros H.
  destruct (String.eqb k y) eqn:E.
  - apply String.eqb_eq in E; subst; reflexivity.
  - destruct H as [->|H]; [rewrite String.eqb_refl in E; discriminate|auto].
Qed.

Lemma dict_set_map_keys {V} (L : list string) (P : string -> V) k v :
  NoDup L -> In k L ->
  dict_set (map (fun x => (x, P x)) L) k v =
  map (fun x => (x, if String.eqb x k then v else P x)) L.
Proof.
  induction L as [|y L IH]; simpl; [tauto|]; intros Hnd H.
  apply NoDup_cons_iff in Hnd as [Hnot Hnd].
  destruct (String.eqb k y) eqn:E.
  - apply String.eqb_eq in E; subst y; rewrite String.eqb_refl; f_equal.
    apply map_ext_in; intros x Hx.
    destruct (String.eqb x k) eqn:E'; [apply String.eqb_eq in E'; subst; contradiction|].
    reflexivity.
  - rewrite String.eqb_sym, E; f_equal.
    destruct H as [->|H]; [rewrite String.eqb_refl in E; discriminate|auto].
Qed.

Lemma efold_extend {A} (L : list string) (d : list (string * A))
    (body : list (string * list Z) -> string * A -> exn + list (string * list Z))
    (F P : string -> list Z) :
  NoDup L -> NoDup (map fst d) -> (forall k, In k (map fst d) -> In k L) ->
  (forall obs k a, In (k, a) d -> body obs (k, a) = obs_extend obs k (F k)) ->
  efold body d (map (fun x => (x, P x)) L) =
  inr (map (fun x => (x, P x ++ (if list_contains x (map fst d) then F x else []))) L).
Proof.
  intros HL; revert P; induction d as [|[k a] d IH]; intros P Hnd Hsub Hb; simpl.
  - f_equal; apply map_ext; intros x; rewrite app_nil_r; reflexivity.
  - simpl in Hnd; apply NoDup_cons_iff in Hnd as [Hnot Hnd].
    assert (Hk : In k L) by (apply Hsub; left; auto).
    rewrite Hb by (left; auto); unfold obs_extend.
    rewrite dict_get_map_keys by exact Hk; simpl.
    rewrite dict_set_map_keys by assumption.
    rewrite (IH (fun x => if String.eqb x k then P k ++ F k else P x)); auto.
    + f_equal; apply map_ext_in; intros x Hx; unfold list_contains; simpl.
      destruct (String.eqb x k) eqn:E; simpl.
      * apply String.eqb_eq in E; subst x.
        assert (Hc : existsb (String.eqb k) (map fst d) = false).
        { apply Bool.not_true_iff_false; intros Hc.
          apply (list_contains_In k (map fst d)) in Hc; contradiction. }
        rewrite Hc, app_nil_r; reflexivity.
      * reflexivity.
    + intros; apply Hsub; right; auto.
    + intros; apply Hb; right; auto.
Qed.

Lemma get_obs_eq cfg s :
  NoDup (crossings cfg) ->
  map fst (crossing_phases cfg) = crossings cfg ->
  map fst (crossing_in_roads cfg) = crossings cfg ->
  (list_contains "phase" (obs_type cfg) = true ->
   forall cross, In cross (crossings cfg) ->
   exists ph, dict_get (current_phases s) cross = Some ph /\
              - glen cfg cross <= ph < glen cfg cross) ->
  _get_obs cfg s =
  inr (map (fun cross => (cross, obs_features cfg s cross)) (crossings cfg)).
Proof.
  intros Hnd Hp Hi Hcur.
  assert (Hin : forall x, In x (crossings cfg) -> list_contains x (crossings cfg) = true)
    by (intros x Hx; apply list_contains_In; exact Hx).
  set (F1 := fun cross =>
    match dict_get (crossing_phases cfg) cross, dict_get (current_phases s) cross with
    | Some ps, Some ph =>
        let n := List.length (G ps) in
        onehot n (Z.to_nat (if ph <? 0 then Z.of_nat n + ph else ph))
    | _, _ => [] end).
  unfold _get_obs.
  set (P1 := fun x : string =>
              if list_contains "phase" (obs_type cfg) then F1 x else []).
  match goal with |- (ebind ?m ?k) = _ =>
    assert (E1 : m = inr (map (fun x => (x, P1 x)) (crossings cfg))) end.
  { unfold P1; destruct (list_contains "phase" (obs_type cfg)) eqn:Eph.
    - change (map (fun cross => (cross, [])) (crossings cfg))
        with (map (fun x => (x, (fun _ => @nil Z) x)) (crossings cfg)).
      rewrite (efold_extend (crossings cfg) (crossing_phases cfg) _ F1); auto.
      + f_equal; apply map_ext_in; intros x Hx; rewrite Hp, Hin by exact Hx; reflexivity.
      + rewrite Hp; exact Hnd.
      + rewrite Hp; auto.
      + intros obs k a Hka.
        assert (Hk : In k (crossings cfg)) by (rewrite <- Hp; apply (in_map fst _ _ Hka)).
        assert (Hg : dict_get (crossing_phases cfg) k = Some a)
          by (apply dict_get_in; [rewrite Hp; exact Hnd|exact Hka]).
        destruct (Hcur eq_refl k Hk) as [ph [Hph Hr]].
        unfold glen in Hr; rewrite Hg in Hr.
        simpl; rewrite Hph; simpl; rewrite py_set_index_onehot by exact Hr; simpl.
        unfold F1; rewrite Hg, Hph; reflexivity.
    - reflexivity. }
  rewrite E1; simpl.
  assert (Hloop : forall (cnt : list event -> list (string * Z)) (P : string -> list Z),
    efold (fun obs '(cross, roads) =>
             obs_extend obs cross (lane_values (cnt (eng s)) roads))
          (crossing_in_roads cfg) (map (fun x => (x, P x)) (crossings cfg)) =
    inr (map (fun x => (x, P x ++
           match dict_get (crossing_in_roads cfg) x with
           | Some roads => lane_values (cnt (eng s)) roads
           | None => [] end)) (crossings cfg))).
  { intros cnt P.
    rewrite (efold_extend (crossings cfg) (crossing_in_roads cfg) _
               (fun x => match dict_get (crossing_in_roads cfg) x with
                         | Some roads => lane_values (cnt (eng s)) roads
                         | None => [] end)); auto.
    - f_equal; apply map_ext_in; intros x Hx; rewrite Hi, Hin by exact Hx; reflexivity.
    - rewrite Hi; exact Hnd.
    - rewrite Hi; auto.
    - intros obs k a Hka.
      assert (Hg : dict_get (crossing_in_roads cfg) k = Some a)
        by (apply dict_get_in; [rewrite Hi; exact Hnd|exact Hka]).
      simpl; rewrite Hg; reflexivity. }
  destruct (list_contains "lane_vehicle_num" (obs_type cfg)) eqn:E2;
    [rewrite Hloop|]; simpl;
    (destruct (list_contains "lane_waiting_vehicle_num" (obs_type cfg)) eqn:E3;
       [rewrite Hloop|]);
    f_equal; apply map_ext; intros x; cbv beta; unfold obs_features, P1;
    rewrite E2, E3; fold (F1 x); rewrite ?app_nil_r, ?app_assoc, ?app_nil_r; reflexivity.
Qed.

(** X11: when [_crossing_phases] and [_crossing_in_roads] are keyed by the
    intersections, in the order of [self._crossings] and without repeats,
    and (when the phase is observed) every intersection has a current
    phase that indexes its Green list (negative indices counting from the
    end), [_get_obs] does not raise: each intersection's vector is the
    one-hot of its current phase, then its vehicle counts, then its waiting
    counts, in this order whatever the order of the entries of [obs_type]. *)
Theorem get_obs_layout cfg s :
  NoDup (crossings cfg) ->
  map fst (crossing_phases cfg) = crossings cfg ->
  map fst (crossing_in_roads cfg) = crossings cfg ->
  (list_contains "phase" (obs_type cfg) = true ->
   forall cross, In cross (crossings cfg) ->
   exists ph, dict_get (current_phases s) cross = Some ph /\
              - glen cfg cross <= ph < glen cfg cross) ->
  _get_obs cfg s =
  inr (map (fun cross => (cross, obs_features cfg s cross)) (crossings cfg)).
Proof. apply get_obs_eq. Qed.

(** *** The observation length of [_init_info] *)

Lemma build_road_lanes_ok road_ids all_lanes rl :
  build_road_lanes road_ids all_lanes = inr rl ->
  forall r, dict_get rl r =
    if list_contains r road_ids
    then Some (filter (fun lane => String.eqb (drop_last2 lane) r) all_lanes)
    else None.
Proof.
  intros H.
  destruct (road_lanes_fold road_ids all_lanes
              (fold_left (fun rl road_id => dict_set rl road_id []) road_ids []) [])
    as [Hok Herr].
  { intros r; rewrite road_lanes_init; simpl.
    destruct (list_contains r road_ids); reflexivity. }
  unfold build_road_lanes in H.
  destruct (forallb (fun lane => list_contains (drop_last2 lane) road_ids) all_lanes).
  - destruct (Hok eq_refl) as [rl' [He Hv]]; rewrite He in H; inversion H; subst; exact Hv.
  - rewrite (Herr eq_refl) in H; discriminate.
Qed.

Lemma length_filter_or {A} (f g : A -> bool) l :
  (forall x, f x = true -> g x = false) ->
  List.length (filter (fun x => f x || g x) l) =
  (List.length (filter f l) + List.length (filter g l))%nat.
Proof.
  intros Hfg; induction l as [|x l IH]; simpl; [reflexivity|].
  destruct (f x) eqn:Ef; simpl.
  - rewrite (Hfg x Ef), IH; reflexivity.
  - destruct (g x); simpl; rewrite IH; lia.
Qed.

Lemma filter_false {A} (l : list A) : filter (fun _ => false) l = [].
Proof. induction l; simpl; auto. Qed.

Lemma sum_road_lanes roads (L : list string) :
  NoDup roads ->
  list_sum (map (fun r => List.length
                   (filter (fun lane => String.eqb (drop_last2 lane) r) L)) roads) =
  List.length (filter (fun k => list_contains (drop_last2 k) roads) L).
Proof.
  induction roads as [|r roads IH]; intros Hnd; simpl.
  - unfold list_contains; simpl; rewrite filter_false; reflexivity.
  - apply NoDup_cons_iff in Hnd as [Hnot Hnd].
    unfold list_contains in *; simpl.
    rewrite length_filter_or; [rewrite IH by exact Hnd; reflexivity|].
    intros k E; apply String.eqb_eq in E; rewrite E.
    apply Bool.not_true_iff_false; intros Hc.
    apply (list_contains_In r roads) in Hc; contradiction.
Qed.

Lemma length_lane_values (all : list (string * Z)) roads :
  List.length (lane_values all roads) =
  List.length (filter (fun k => list_contains (drop_last2 k) roads) (map fst all)).
Proof.
  unfold lane_values; rewrite length_map.
  induction all as [|[k v] all IH]; simpl; [reflexivity|].
  destruct (list_contains (drop_last2 k) roads); simpl; rewrite IH; reflexivity.
Qed.

Lemma lane_len_loop (rl : list (string * list string)) (roads : list string) n0 n :
  efold (fun n r =>
           lanes <-? of_option (dict_get rl r) KeyError ;;
           inr (n + Z.of_nat (List.length lanes))) roads n0 = inr n ->
  n = n0 + Z.of_nat (list_sum (map (fun r => match dict_get rl r with
                                          | Some l => List.length l
                                          | None => 0%nat end) roads)) /\
  (forall r, In r roads -> dict_get rl r <> None).
Proof.
  revert n0; induction roads as [|r roads IH]; intros n0 H; simpl in H.
  - inversion H; subst; simpl; split; [lia|tauto].
  - destruct (dict_get rl r) as [l|] eqn:E; simpl in H; [|discriminate].
    destruct (IH _ H) as [Hn Hr]; simpl; rewrite E; split.
    + rewrite Hn; lia.
    + intros x [<-|Hx]; [congruence|auto].
Qed.

Lemma add_lane_len_ok (in_roads : list (string * list string)) rl n0 n :
  add_lane_len in_roads rl n0 = inr n ->
  n = n0 + Z.of_nat (list_sum (map (fun p =>
        list_sum (map (fun r => match dict_get rl r with
                                | Some l => List.length l
                                | None => 0%nat end) (snd p))) in_roads)) /\
  (forall p r, In p in_roads -> In r (snd p) -> dict_get rl r <> None).
Proof.
  unfold add_lane_len; revert n0.
  induction in_roads as [|[c roads] in_roads IH]; intros n0 H; simpl in H.
  - inversion H; subst; simpl; split; [lia|tauto].
  - destruct (efold _ roads n0) as [e|n1] eqn:E; simpl in H; [discriminate|].
    apply lane_len_loop in E as [Hn1 Hr1].
    destruct (IH _ H) as [Hn Hr]; simpl; split.
    + rewrite Hn, Hn1; lia.
    + intros p r [<-|Hp] Hin; [exact (Hr1 r Hin)|exact (Hr p r Hp Hin)].
Qed.

Lemma phase_len_fold (phases : list (string * PhaseSet)) n0 :
  fold_left (fun n '(_, ps) => n + Z.of_nat (List.length (G ps))) phases n0 =
  n0 + Z.of_nat (list_sum (map (fun p => List.length (G (snd p))) phases)).
Proof.
  revert n0; induction phases as [|[c ps] phases IH]; intros n0; simpl; [lia|].
  rewrite IH; lia.
Qed.

Lemma map_dict_get_keys {V W} (d : list (string * V)) (g : string -> option V -> W) :
  NoDup (map fst d) ->
  map (fun c => g c (dict_get d c)) (map fst d) = map (fun p => g (fst p) (Some (snd p))) d.
Proof.
  induction d as [|[k v] d IH]; simpl; intros Hnd; [reflexivity|].
  apply NoDup_cons_iff in Hnd as [Hnot Hnd].
  rewrite String.eqb_refl; f_equal.
  rewrite <- IH by exact Hnd; apply map_ext_in; intros c Hc.
  destruct (String.eqb c k) eqn:E; [apply String.eqb_eq in E; subst; contradiction|].
  reflexivity.
Qed.

Lemma length_onehot n j : (j < n)%nat -> List.length (onehot n j) = n.
Proof.
  intros H; unfold onehot; rewrite length_app; cbn [List.length].
  rewrite !repeat_length; lia.
Qed.

Lemma sum3 (L : list string) (b1 b2 b3 : bool) (f g : string -> nat) :
  Z.of_nat (list_sum (map (fun c => ((if b1 then f c else 0) +
                                     ((if b2 then g c else 0) +
                                      (if b3 then g c else 0)))%nat) L)) =
  (if b1 then Z.of_nat (list_sum (map f L)) else 0) +
  (if b2 then Z.of_nat (list_sum (map g L)) else 0) +
  (if b3 then Z.of_nat (list_sum (map g L)) else 0).
Proof.
  induction L as [|c L IH]; simpl; [destruct b1, b2, b3; reflexivity|].
  rewrite Nat2Z.inj_add, IH; destruct b1, b2, b3; lia.
Qed.

(** X12: with the road lanes built from the engine's lane list, that lane
    list unchanged for both counters, no road listed twice for one
    intersection, and the keys and current phases [_get_obs] needs (as in
    X11), the observation vector has exactly the length [_init_info] gives
    the observation space. *)
Theorem obs_len_matches cfg s road_ids rl obs_len :
  NoDup (crossings cfg) ->
  map fst (crossing_phases cfg) = crossings cfg ->
  map fst (crossing_in_roads cfg) = crossings cfg ->
  (forall cross roads, In (cross, roads) (crossing_in_roads cfg) -> NoDup roads) ->
  (list_contains "phase" (obs_type cfg) = true ->
   forall cross, In cross (crossings cfg) ->
   exists ph, dict_get (current_phases s) cross = Some ph /\
              - glen cfg cross <= ph < glen cfg cross) ->
  build_road_lanes road_ids (map fst (get_lane_vehicle_count cfg (eng s))) = inr rl ->
  map fst (get_lane_waiting_vehicle_count cfg (eng s)) =
    map fst (get_lane_vehicle_count cfg (eng s)) ->
  init_obs_len (obs_type cfg) (crossing_in_roads cfg) (crossing_phases cfg) rl = inr obs_len ->
  exists obs, _get_obs cfg s = inr obs /\
              Z.of_nat (List.length (squeeze_obs obs)) = obs_len.
Proof.
  intros Hnd Hp Hi Hrd Hcur Hrl Hw Hlen.
  set (all_lanes := map fst (get_lane_vehicle_count cfg (eng s))) in *.
  rewrite (get_obs_eq cfg s Hnd Hp Hi Hcur); eexists; split; [reflexivity|].
  unfold squeeze_obs; rewrite length_concat, !map_map; simpl.
  set (fph := fun c => match dict_get (crossing_phases cfg) c with
                       | Some ps => List.length (G ps) | None => 0%nat end).
  set (W := fun c => match dict_get (crossing_in_roads cfg) c with
                     | Some roads =>
                         List.length (filter (fun k => list_contains (drop_last2 k) roads)
                                             all_lanes)
                     | None => 0%nat end).
  set (b1 := list_contains "phase" (obs_type cfg)) in *.
  set (b2 := list_contains "lane_vehicle_num" (obs_type cfg)) in *.
  set (b3 := list_contains "lane_waiting_vehicle_num" (obs_type cfg)) in *.
  assert (Hfeat : forall c, In c (crossings cfg) ->
    List.length (obs_features cfg s c) =
    ((if b1 then fph c else 0) + ((if b2 then W c else 0) + (if b3 then W c else 0)))%nat).
  { intros c Hc; unfold obs_features; fold b1 b2 b3.
    rewrite !length_app; f_equal; [|f_equal].
    - destruct b1 eqn:E1; [|reflexivity].
      destruct (Hcur eq_refl c Hc) as [ph [Hph Hr]].
      unfold fph, glen in *.
      destruct (dict_get (crossing_phases cfg) c) as [ps|]; [|lia].
      rewrite Hph; apply length_onehot; destruct (Z.ltb_spec ph 0); lia.
    - destruct b2; [|reflexivity]; unfold W.
      destruct (dict_get (crossing_in_roads cfg) c); [|reflexivity].
      rewrite length_lane_values; reflexivity.
    - destruct b3; [|reflexivity]; unfold W.
      destruct (dict_get (crossing_in_roads cfg) c); [|reflexivity].
      rewrite length_lane_values, Hw; reflexivity. }
  rewrite (map_ext_in _ _ _ Hfeat), sum3.
  assert (Hph : list_sum (map (fun p => List.length (G (snd p))) (crossing_phases cfg)) =
                list_sum (map fph (crossings cfg))).
  { unfold fph; rewrite <- Hp, (map_dict_get_keys (crossing_phases cfg)
      (fun _ o => match o with Some ps => List.length (G ps) | None => 0%nat end));
      [reflexivity|rewrite Hp; exact Hnd]. }
  assert (Hl : forall n0 n, add_lane_len (crossing_in_roads cfg) rl n0 = inr n ->
                            n = n0 + Z.of_nat (list_sum (map W (crossings cfg)))).
  { intros n0 n H; apply add_lane_len_ok in H as [Hn Hr]; rewrite Hn; f_equal; f_equal.
    unfold W; rewrite <- Hi, (map_dict_get_keys (crossing_in_roads cfg)
      (fun _ o => match o with
                  | Some roads => List.length (filter (fun k =>
                      list_contains (drop_last2 k) roads) all_lanes)
                  | None => 0%nat end)) by (rewrite Hi; exact Hnd).
    f_equal; apply map_ext_in; intros [c roads] Hcr; simpl.
    rewrite <- sum_road_lanes by exact (Hrd c roads Hcr); f_equal.
    apply map_ext_in; intros r Hr'.
    pose proof (Hr (c, roads) r Hcr Hr') as Hn'.
    rewrite (build_road_lanes_ok _ _ _ Hrl r) in *.
    destruct (list_contains r road_ids); [reflexivity|congruence]. }
  unfold init_obs_len in Hlen; fold b1 b2 b3 in Hlen.
  rewrite phase_len_fold in Hlen.
  destruct b2; simpl in Hlen.
  - destruct (add_lane_len _ rl _) as [e|n1] eqn:E1; simpl in Hlen; [discriminate|].
    apply Hl in E1.
    destruct b3; [apply Hl in Hlen|inversion Hlen]; subst;
      destruct b1; rewrite ?Hph; lia.
  - destruct b3; [apply Hl in Hlen|inversion Hlen]; subst;
      destruct b1; rewrite ?Hph; lia.
Qed.

(** *** The reward of [_get_reward] *)

Lemma efold_set_keys (L L' : list string) (h : string -> exn + Z) (H P : string -> Z) :
  NoDup L -> NoDup L' -> (forall x, In x L' -> In x L) ->
  (forall x, In x L' -> h x = inr (H x)) ->
  efold (fun reward cross => r <-? h cross ;; inr (dict_set reward cross r))
        L' (map (fun x => (x, P x)) L) =
  inr (map (fun x => (x, if list_contains x L' then H x else P x)) L).
Proof.
  intros HL; revert P; induction L' as [|k L' IH]; intros P Hnd Hsub Hh; simpl.
  - f_equal; apply map_ext; intros x; reflexivity.
  - apply NoDup_cons_iff in Hnd as [Hnot Hnd].
    rewrite Hh by (left; auto); simpl.
    rewrite (dict_set_map_keys L P k (H k) HL (Hsub k (or_introl eq_refl))).
    rewrite (IH (fun x => if String.eqb x k then H k else P x)); auto.
    + f_equal; apply map_ext_in; intros x Hx; unfold list_contains; simpl.
      destruct (String.eqb x k) eqn:E; simpl; [|reflexivity].
      apply String.eqb_eq in E; subst x.
      destruct (existsb (String.eqb k) L'); reflexivity.
    + intros; apply Hsub; right; auto.
    + intros; apply Hh; right; auto.
Qed.

Lemma add_waiting_zero sign (all : list (string * Z)) roads acc :
  (forall k v, In (k, v) all -> v = 0) -> add_waiting sign all roads acc = acc.
Proof.
  intros Hz; unfold add_waiting.
  assert (Hin : forall r acc,
    fold_left (fun acc '(k, v) =>
      if str_contains (drop_last2 k) r then acc + sign * v else acc) all acc = acc).
  { clear acc; intros r; revert Hz; induction all as [|[k v] all IHa]; intros Hz acc;
      simpl; [reflexivity|].
    rewrite (Hz k v) by (left; auto).
    rewrite (IHa (fun k' v' H => Hz k' v' (or_intror H))).
    destruct (str_contains (drop_last2 k) r); lia. }
  clear Hz; revert acc; induction roads as [|r roads IH]; intros acc; simpl;
    [reflexivity|].
  rewrite Hin; apply IH.
Qed.

(** X13: when no lane has a waiting vehicle and every intersection has its
    incoming and outgoing road lists, [_get_reward] returns 0 for every
    intersection. *)
Theorem no_waiting_zero_reward cfg s :
  NoDup (crossings cfg) ->
  (forall c, In c (crossings cfg) ->
     dict_get (crossing_in_roads cfg) c <> None /\
     dict_get (crossing_out_roads cfg) c <> None) ->
  (forall k v, In (k, v) (get_lane_waiting_vehicle_count cfg (eng s)) -> v = 0) ->
  _get_reward cfg s = inr (map (fun c => (c, 0)) (crossings cfg)).
Proof.
  intros Hnd Hkeys Hz; unfold _get_reward.
  rewrite (efold_set_keys (crossings cfg) (crossings cfg) _ (fun _ => 0) (fun _ => 0));
    auto.
  - f_equal; apply map_ext; intros x; destruct (list_contains _ _); reflexivity.
  - intros x Hx; destruct (Hkeys x Hx) as [Hin Hout]; unfold cross_reward.
    destruct (dict_get (crossing_in_roads cfg) x); [|congruence].
    destruct (dict_get (crossing_out_roads cfg) x); [|congruence]; simpl.
    rewrite !add_waiting_zero by exact Hz; reflexivity.
Qed.

Lemma efold_some_keyerror {A B} (f : B -> A -> exn + B) l acc x :
  (forall acc a e, f acc a = inl e -> e = KeyError) ->
  In x l -> (forall acc, exists e, f acc x = inl e) ->
  efold f l acc = inl KeyError.
Proof.
  intros Hk; revert acc; induction l as [|a l IH]; intros acc Hx Hf; simpl; [destruct Hx|].
  destruct (f acc a) as [e|acc'] eqn:E; simpl.
  - rewrite (Hk _ _ _ E); reflexivity.
  - destruct Hx as [<-|Hx].
    + destruct (Hf acc) as [e He]; congruence.
    + apply IH; auto.
Qed.

(** X14: when some intersection has no entry in [_crossing_in_roads] or in
    [_crossing_out_roads], [_get_reward] raises [KeyError], whatever the
    engine reports. *)
Theorem reward_missing_roads_keyerror cfg s c :
  In c (crossings cfg) ->
  dict_get (crossing_in_roads cfg) c = None \/
  dict_get (crossing_out_roads cfg) c = None ->
  _get_reward cfg s = inl KeyError.
Proof.
  intros Hc Hmiss; unfold _get_reward.
  apply (efold_some_keyerror _ _ _ c); auto.
  - intros acc a e; unfold cross_reward.
    destruct (dict_get (crossing_in_roads cfg) a); simpl; [|congruence].
    destruct (dict_get (crossing_out_roads cfg) a); simpl; congruence.
  - intros acc; unfold cross_reward.
    destruct Hmiss as [E|E]; rewrite E; simpl; [eauto|].
    destruct (dict_get (crossing_in_roads cfg) c); simpl; eauto.
Qed.

(** *** [reset] *)

Lemma reset_crossing_trace cfg c s u s' :
  reset_crossing cfg c s = Ok u s' ->
  eng s' = eng s ++ (if no_actions cfg then [] else opt_cmd c (gphase cfg c 0)) /\
  total_duration s' = total_duration s /\ total_reward s' = total_reward s /\
  (no_actions cfg = false -> gphase cfg c 0 <> None).
Proof.
  unfold reset_crossing, gphase, bind, phases_of, lift.
  destruct (no_actions cfg); cbn -[py_index].
  - intros H; inversion H; subst; cbn.
    rewrite app_nil_r; split; [reflexivity|split; [reflexivity|split; [reflexivity|intros; congruence]]].
  - destruct (dict_get (crossing_phases cfg) c) as [ps|]; cbn -[py_index]; [|intros H; discriminate H].
    destruct (py_index (G ps) 0) eqn:Ep; cbn; [|intros H; discriminate H].
    intros H; inversion H; subst; cbn.
    split; [reflexivity|split; [reflexivity|split; [reflexivity|intros; congruence]]].
Qed.

Lemma reset_loop_trace cfg l s u s' :
  mfor l (reset_crossing cfg) s = Ok u s' ->
  eng s' = eng s ++ flat_map (fun c => if no_actions cfg then []
                                        else opt_cmd c (gphase cfg c 0)) l /\
  total_duration s' = total_duration s /\ total_reward s' = total_reward s /\
  (no_actions cfg = false -> forall c, In c l -> gphase cfg c 0 <> None).
Proof.
  revert s; induction l as [|x l IH]; intros s H; simpl in H.
  - inversion H; subst; cbn; rewrite app_nil_r.
    split; [reflexivity|split; [reflexivity|split; [reflexivity|intros _ _ []]]].
  - unfold bind in H.
    destruct (reset_crossing cfg x s) as [u1 s1|e s1] eqn:Ex; [|discriminate].
    destruct (reset_crossing_trace cfg x s u1 s1 Ex) as [He1 [Hd1 [Hr1 Hg1]]].
    destruct (IH s1 H) as [He [Hd [Hr Hg]]].
    split; [|split; [congruence|split; [congruence|]]].
    + rewrite He, He1, <- app_assoc; reflexivity.
    + intros Hna c [<-|Hc]; auto.
Qed.

Lemma flat_map_nil_fun {A B} (l : list A) : flat_map (fun _ => @nil B) l = [].
Proof. induction l; simpl; auto. Qed.

(** X15: a [reset] that returns sends [eng.reset()], then, with actions
    enabled, the first Green phase of every intersection in crossing order;
    it zeroes the duration and reward counters, and returns the squeezed
    observation of the state it leaves.  It returns only if every
    intersection has a first Green phase. *)
Theorem reset_trace cfg s o s' :
  reset cfg s = Ok o s' ->
  eng s' = eng s ++ EngReset ::
             (if no_actions cfg then []
              else flat_map (fun c => opt_cmd c (gphase cfg c 0)) (crossings cfg)) /\
  total_duration s' = 0 /\ total_reward s' = 0 /\
  (no_actions cfg = false -> forall c, In c (crossings cfg) -> gphase cfg c 0 <> None) /\
  exists obs, _get_obs cfg s' = inr obs /\ o = squeeze_obs obs.
Proof.
  intros H; unfold reset, bind, modify in H.
  destruct (mfor (crossings cfg) (reset_crossing cfg) _) as [u s1|e s1] eqn:Em;
    [|discriminate].
  apply reset_loop_trace in Em as [He [Hd [Hr Hg]]]; cbn in He, Hd, Hr.
  unfold pure in H; destruct (_get_obs cfg s1) as [e|obs] eqn:Eo; [discriminate|].
  inversion H; subst; clear H.
  split; [|split; [auto|split; [auto|split; [auto|eauto]]]].
  rewrite He, <- app_assoc; cbn; f_equal; f_equal.
  destruct (no_actions cfg); [apply flat_map_nil_fun|reflexivity].
Qed.

Lemma reset_crossing_errors cfg c s :
  match reset_crossing cfg c s with
  | Ok _ _ => True
  | Err e s' => (e = KeyError \/ e = IndexError) /\ s' = s
  end.
Proof.
  unfold reset_crossing, bind, phases_of, lift.
  destruct (no_actions cfg); cbn -[py_index]; [exact I|].
  destruct (dict_get (crossing_phases cfg) c) as [ps|]; cbn -[py_index]; [|auto].
  destruct (py_index (G ps) 0); cbn; auto.
Qed.

Lemma mfor_err_some {A} (l : list A) (body : A -> M unit) (P : exn -> State -> Prop) a0 :
  In a0 l ->
  (forall a s, In a l ->
     match body a s with Ok _ _ => True | Err e s' => P e s' end) ->
  (forall s, exists e s', body a0 s = Err e s') ->
  forall s, exists e s', mfor l body s = Err e s' /\ P e s'.
Proof.
  induction l as [|a l IH]; intros Hin Hall H0 s; [destruct Hin|].
  simpl; unfold bind.
  pose proof (Hall a s (or_introl eq_refl)) as Ha.
  destruct Hin as [<-|Hin].
  - destruct (H0 s) as [e [s' E]]; rewrite E in *; eauto.
  - destruct (body a s) as [u s1|e s1]; [|eauto].
    apply IH; auto; intros; apply Hall; right; auto.
Qed.

Lemma mfor_reset_grows cfg l s :
  let s' := res_state (mfor l (reset_crossing cfg) s) in
  total_duration s' = total_duration s /\ total_reward s' = total_reward s /\
  exists tail, eng s' = eng s ++ tail.
Proof.
  revert s; induction l as [|x l IH]; intros s; simpl.
  - split; [reflexivity|split; [reflexivity|exists []; symmetry; apply app_nil_r]].
  - unfold bind.
    destruct (reset_crossing cfg x s) as [u1 s1|e s1] eqn:Ex.
    + destruct (reset_crossing_trace cfg x s u1 s1 Ex) as [He1 [Hd1 [Hr1 _]]].
      destruct (IH s1) as [Hd [Hr [tail Ht]]].
      split; [congruence|split; [congruence|]].
      rewrite Ht, He1, <- app_assoc; eauto.
    + pose proof (reset_crossing_errors cfg x s) as Hx; rewrite Ex in Hx.
      destruct Hx as [_ ->]; simpl.
      split; [reflexivity|split; [reflexivity|exists []; symmetry; apply app_nil_r]].
Qed.

(** X16: with actions enabled, [reset] raises ([KeyError] or [IndexError])
    as soon as one intersection has no first Green phase; the state it
    leaves has its counters zeroed and the engine already reset. *)
Theorem reset_missing_green cfg s c :
  no_actions cfg = false -> In c (crossings cfg) -> gphase cfg c 0 = None ->
  exists e s', reset cfg s = Err e s' /\ (e = KeyError \/ e = IndexError) /\
    total_duration s' = 0 /\ total_reward s' = 0 /\
    exists tail, eng s' = eng s ++ EngReset :: tail.
Proof.
  intros Hna Hc Hg; unfold reset, bind at 1 2, modify; cbv beta iota.
  set (s0 := mkState (eng s ++ [EngReset]) 0 0 []).
  pose proof (mfor_reset_grows cfg (crossings cfg) s0) as Hgrow.
  destruct (mfor_err_some (crossings cfg) (reset_crossing cfg)
              (fun e _ => e = KeyError \/ e = IndexError) c Hc) with (s := s0)
    as [e [s' [Em He]]].
  - intros a s1 _; pose proof (reset_crossing_errors cfg a s1) as H.
    destruct (reset_crossing cfg a s1); [exact I|apply H].
  - intros s1; unfold reset_crossing, gphase, bind, phases_of, lift in *.
    rewrite Hna; cbn -[py_index].
    destruct (dict_get (crossing_phases cfg) c) as [ps|]; cbn -[py_index]; [|eauto].
    rewrite Hg; cbn; eauto.
  - rewrite Em in Hgrow |- *; cbn in Hgrow |- *.
    destruct Hgrow as [Hd [Hr [tail Ht]]].
    exists e, s'; split; [reflexivity|split; [exact He|split; [exact Hd|split; [exact Hr|]]]].
    exists tail; rewrite Ht, <- app_assoc; reflexivity.
Qed.

(** *** [step] and a run of steps *)

Lemma simulate_reward cfg v s :
  total_reward (res_state (_simulate cfg v s)) = total_reward s.
Proof.
  rewrite simulate_eq; destruct (no_actions cfg); [reflexivity|].
  set (I := fun s' => total_reward s' = total_reward s).
  assert (H : hoare I (sim_core cfg v (current_phases s)) (fun _ => True)).
  { apply sim_core_hoare; intros;
      unfold emit, next_steps, set_current; apply hoare_modify; auto. }
  specialize (H s eq_refl).
  unfold bind; destruct (sim_core cfg v (current_phases s) s); simpl in *;
    unfold I in H; intuition congruence.
Qed.

Lemma get_obs_counters cfg s d r :
  _get_obs cfg (mkState (eng s) d r (current_phases s)) = _get_obs cfg s.
Proof. destruct s; reflexivity. Qed.

Lemma get_reward_counters cfg s d r :
  _get_reward cfg (mkState (eng s) d r (current_phases s)) = _get_reward cfg s.
Proof. destruct s; reflexivity. Qed.

Lemma step_ok_bookkeeping cfg a s o r d s' :
  step cfg a s = Ok (o, r, d) s' ->
  exists obs rw, _get_obs cfg s' = inr obs /\ o = squeeze_obs obs /\
    _get_reward cfg s' = inr rw /\ r = round_f32 (sum_values rw) /\
    total_reward s' = round_f32 (total_reward s + r).
Proof.
  intros H; unfold step, bind in H.
  destruct (simulate_value_cases cfg (action_value cfg a) s)
    as [[v Ev]|[e Ev]]; rewrite Ev in H; [|discriminate].
  pose proof (simulate_reward cfg v s) as Hr.
  destruct (_simulate cfg v s) as [u s1|e s1]; [|discriminate].
  unfold pure in H.
  destruct (_get_obs cfg s1) as [e|obs] eqn:Eo; [discriminate|].
  destruct (_get_reward cfg s1) as [e|rw] eqn:Er; [discriminate|].
  cbn in H; inversion H; subst; clear H.
  exists obs, rw; cbn in Hr |- *.
  rewrite get_obs_counters, get_reward_counters, Eo, Er, Hr.
  repeat split; reflexivity.
Qed.

(** X17: when [step] returns [(obs, reward, done)], [obs] is the squeezed
    observation and [reward] the sum of the per-intersection rewards of the
    state it leaves, as a float32, and [_total_reward] is the float32 sum of
    its previous value and [reward]. *)
Theorem step_reward_accumulates cfg a s o r d s' :
  step cfg a s = Ok (o, r, d) s' ->
  exists obs rw, _get_obs cfg s' = inr obs /\ o = squeeze_obs obs /\
    _get_reward cfg s' = inr rw /\ r = round_f32 (sum_values rw) /\
    total_reward s' = round_f32 (total_reward s + r).
Proof. apply step_ok_bookkeeping. Qed.

Lemma play_ok cfg acts s outs s' :
  play cfg acts s = Ok outs s' ->
  List.length outs = List.length acts /\
  total_duration s' = total_duration s + Z.of_nat (List.length acts) * cycle cfg /\
  total_reward s' = fold_left (fun t r => round_f32 (t + r))
                              (map (fun x => snd (fst x)) outs) (total_reward s) /\
  map snd outs = map (fun k => max_episode_duration cfg <?
                                 total_duration s + Z.of_nat k * cycle cfg)
                     (seq 1 (List.length acts)).
Proof.
  revert s outs; induction acts as [|a acts IH]; intros s outs H; cbn in H.
  - inversion H; subst; cbn; repeat split; lia.
  - unfold bind in H.
    destruct (step cfg a s) as [[[o r] d] s1|e s1] eqn:Es; [|discriminate].
    destruct (play cfg acts s1) as [outs' s2|e s2] eqn:Ep; [|discriminate].
    cbn in H; inversion H; subst; clear H.
    destruct (step_ok_duration cfg a s o r d s1 Es) as [Hd1 Hdone].
    destruct (step_ok_bookkeeping cfg a s o r d s1 Es) as [_ [_ [_ [_ [_ [_ Hr1]]]]]].
    destruct (IH s1 outs' Ep) as [Hl [Hd [Hr Hf]]].
    cbn [List.length map fold_right fst snd].
    split; [rewrite Hl; reflexivity|split; [|split]].
    + rewrite Hd, Hd1; lia.
    + rewrite Hr, Hr1; reflexivity.
    + rewrite Hf, Hdone, Hd1; cbn [seq map].
      rewrite <- (seq_shift (List.length acts) 1), map_map.
      f_equal; [f_equal; lia|].
      apply map_ext; intros k; f_equal; lia.
Qed.

(** X18: a run of [step] calls from the state [reset] leaves, all returning,
    yields one result per action; [_total_duration] is then the number of
    steps times the cycle, [_total_reward] the returned rewards added in
    order from 0 with each partial sum rounded to float32, and the [k]-th
    [done] flag is [max_episode_duration < k * cycle]. *)
Theorem reset_play_counters cfg acts s o0 s0 outs s' :
  reset cfg s = Ok o0 s0 -> play cfg acts s0 = Ok outs s' ->
  List.length outs = List.length acts /\
  total_duration s' = Z.of_nat (List.length acts) * cycle cfg /\
  total_reward s' = fold_left (fun t r => round_f32 (t + r))
                              (map (fun x => snd (fst x)) outs) 0 /\
  map snd outs = map (fun k => max_episode_duration cfg <? Z.of_nat k * cycle cfg)
                     (seq 1 (List.length acts)).
Proof.
  intros Hreset Hplay.
  assert (H0 : total_duration s0 = 0 /\ total_reward s0 = 0).
  { unfold reset, bind, modify in Hreset.
    destruct (mfor (crossings cfg) (reset_crossing cfg) _) as [u s1|e s1] eqn:Em;
      [|discriminate].
    apply reset_loop_trace in Em as [_ [Hd [Hr _]]]; cbn in Hd, Hr.
    unfold pure in Hreset; destruct (_get_obs cfg s1); [discriminate|].
    inversion Hreset; subst; auto. }
  destruct H0 as [Hd0 Hr0].
  destruct (play_ok cfg acts s0 outs s' Hplay) as [Hl [Hd [Hr Hf]]].
  rewrite Hd0 in Hd, Hf; rewrite Hr0 in Hr.
  split; [exact Hl|split; [lia|split; [exact Hr|]]].
  rewrite Hf; apply map_ext; intros k; f_equal.
Qed.

(** *** Instances of the further properties *)

Lemma md2d_range_witness :
  Forall (fun i => 0 <= i < 4) [1; 2; 3] /\
  0 <= md2d [1; 2; 3] < 4 ^ Z.of_nat (List.length [1; 2; 3]).
Proof.
  split; [repeat constructor; lia|].
  apply (md2d_range [1; 2; 3]); repeat constructor; lia.
Defined.

Lemma d2md_md2d_last4_witness :
  Forall (fun i => 0 <= i < 4) [1; 2; 3; 0; 2] /\
  d2md (md2d [1; 2; 3; 0; 2]) = [2; 3; 0; 2] /\
  d2md (md2d [1; 2; 3; 0; 2])
  = skipn (List.length [1; 2; 3; 0; 2] - 4)
          (repeat 0 (4 - List.length [1; 2; 3; 0; 2]) ++ [1; 2; 3; 0; 2]).
Proof.
  split; [repeat constructor; lia|split; [vm_compute; reflexivity|]].
  apply (d2md_md2d_last4 [1; 2; 3; 0; 2]); repeat constructor; lia.
Defined.

Lemma parse_intersections_keys_witness :
  parse_intersections suffix_example items_example
  = inr (mkTopology
           [("intersection_1_1"%string, ["road_0_1_0"%string]);
            ("intersection_2_1"%string, ["road_1_1_0"%string])]
           [("intersection_1_1"%string, ["road_1_1_0"%string; "road_1_1_2"%string]);
            ("intersection_2_1"%string, ["road_2_1_2"%string])]
           [("intersection_1_1"%string, mkPhaseSet [1; 2] [3; 4] [0]);
            ("intersection_2_1"%string, mkPhaseSet [1] [2] [0])]) /\
  (let t := mkTopology
           [("intersection_1_1"%string, ["road_0_1_0"%string]);
            ("intersection_2_1"%string, ["road_1_1_0"%string])]
           [("intersection_1_1"%string, ["road_1_1_0"%string; "road_1_1_2"%string]);
            ("intersection_2_1"%string, ["road_2_1_2"%string])]
           [("intersection_1_1"%string, mkPhaseSet [1; 2] [3; 4] [0]);
            ("intersection_2_1"%string, mkPhaseSet [1] [2] [0])] in
   map fst (t_out t) = topology_crossings t /\
   map fst (t_phases t) = topology_crossings t /\
   NoDup (topology_crossings t) /\
   (forall x, In x (topology_crossings t) <->
      In x (map rn_id (filter (fun it => negb (rn_virtual it)) items_example)))).
Proof.
  split; [vm_compute; reflexivity|].
  apply (parse_intersections_keys suffix_example items_example); vm_compute; reflexivity.
Defined.

Lemma split_roads_partition_witness :
  (2 <= List.length (suffix_example "intersection_1_1"))%nat /\
  (forall r, In r ["road_0_1_0"%string; "road_1_1_0"%string; "road_1_1_2"%string] ->
     (2 <= List.length (suffix_example r))%nat) /\
  (let own r := (nth 0 (suffix_example r) 0 =? nth 0 (suffix_example "intersection_1_1") 0) &&
                (nth 1 (suffix_example r) 0 =? nth 1 (suffix_example "intersection_1_1") 0) in
   efold (split_road suffix_example (suffix_example "intersection_1_1"))
         ["road_0_1_0"%string; "road_1_1_0"%string; "road_1_1_2"%string] ([], []) =
   inr (filter (fun r => negb (own r))
               ["road_0_1_0"%string; "road_1_1_0"%string; "road_1_1_2"%string],
        filter own ["road_0_1_0"%string; "road_1_1_0"%string; "road_1_1_2"%string])).
Proof.
  assert (H1 : (2 <= List.length (suffix_example "intersection_1_1"))%nat)
    by (apply Nat.leb_le; vm_compute; reflexivity).
  assert (H2 : forall r, In r ["road_0_1_0"%string; "road_1_1_0"%string; "road_1_1_2"%string] ->
     (2 <= List.length (suffix_example r))%nat)
    by (intros r [<-|[<-|[<-|[]]]]; apply Nat.leb_le; vm_compute; reflexivity).
  split; [exact H1|split; [exact H2|]].
  exact (split_roads_partition suffix_example "intersection_1_1"
           ["road_0_1_0"%string; "road_1_1_0"%string; "road_1_1_2"%string] H1 H2).
Defined.

Lemma parse_intersections_entries_witness :
  parse_intersections suffix_example items_example
  = inr (mkTopology
           [("intersection_1_1"%string, ["road_0_1_0"%string]);
            ("intersection_2_1"%string, ["road_1_1_0"%string])]
           [("intersection_1_1"%string, ["road_1_1_0"%string; "road_1_1_2"%string]);
            ("intersection_2_1"%string, ["road_2_1_2"%string])]
           [("intersection_1_1"%string, mkPhaseSet [1; 2] [3; 4] [0]);
            ("intersection_2_1"%string, mkPhaseSet [1] [2] [0])]) /\
  NoDup (map rn_id (filter (fun it => negb (rn_virtual it)) items_example)) /\
  (let t := mkTopology
           [("intersection_1_1"%string, ["road_0_1_0"%string]);
            ("intersection_2_1"%string, ["road_1_1_0"%string])]
           [("intersection_1_1"%string, ["road_1_1_0"%string; "road_1_1_2"%string]);
            ("intersection_2_1"%string, ["road_2_1_2"%string])]
           [("intersection_1_1"%string, mkPhaseSet [1; 2] [3; 4] [0]);
            ("intersection_2_1"%string, mkPhaseSet [1] [2] [0])] in
   topology_crossings t = map rn_id (filter (fun it => negb (rn_virtual it)) items_example) /\
   (forall it, In it items_example -> rn_virtual it = false ->
      exists io,
        efold (split_road suffix_example (suffix_example (rn_id it))) (rn_roads it) ([], [])
          = inr io /\
        dict_get (t_in t) (rn_id it) = Some (fst io) /\
        dict_get (t_out t) (rn_id it) = Some (snd io) /\
        dict_get (t_phases t) (rn_id it) = Some (classify_phases (rn_lightphases it)))).
Proof.
  assert (Hp : parse_intersections suffix_example items_example
  = inr (mkTopology
           [("intersection_1_1"%string, ["road_0_1_0"%string]);
            ("intersection_2_1"%string, ["road_1_1_0"%string])]
           [("intersection_1_1"%string, ["road_1_1_0"%string; "road_1_1_2"%string]);
            ("intersection_2_1"%string, ["road_2_1_2"%string])]
           [("intersection_1_1"%string, mkPhaseSet [1; 2] [3; 4] [0]);
            ("intersection_2_1"%string, mkPhaseSet [1] [2] [0])]))
    by (vm_compute; reflexivity).
  assert (Hn : NoDup (map rn_id (filter (fun it => negb (rn_virtual it)) items_example))).
  { simpl; repeat constructor; simpl; intuition discriminate. }
  split; [exact Hp|split; [exact Hn|]].
  exact (parse_intersections_entries suffix_example items_example _ Hp Hn).
Defined.

Lemma build_road_lanes_groups_witness :
  (forall lane, In lane (map fst (lanes_two [])) ->
     In (drop_last2 lane) ["road_0_1_0"%string; "road_1_1_0"%string; "road_2_1_2"%string]) /\
  exists rl, build_road_lanes ["road_0_1_0"%string; "road_1_1_0"%string; "road_2_1_2"%string]
                              (map fst (lanes_two [])) = inr rl /\
    (forall r, In r ["road_0_1_0"%string; "road_1_1_0"%string; "road_2_1_2"%string] ->
       dict_get rl r = Some (filter (fun lane => String.eqb (drop_last2 lane) r)
                                    (map fst (lanes_two [])))) /\
    (forall r, ~ In r ["road_0_1_0"%string; "road_1_1_0"%string; "road_2_1_2"%string] ->
       dict_get rl r = None).
Proof.
  assert (H : forall lane, In lane (map fst (lanes_two [])) ->
     In (drop_last2 lane) ["road_0_1_0"%string; "road_1_1_0"%string; "road_2_1_2"%string]).
  { intros lane H; simpl in H.
    destruct H as [<-|[<-|[<-|[]]]]; vm_compute; auto. }
  split; [exact H|].
  exact (build_road_lanes_groups _ _ H).
Defined.

Lemma init_act_shape_green_witness :
  init_act_shape (crossings cfg_two) (crossing_phases cfg_two) = inr [4; 4] /\
  [4; 4] = map (glen cfg_two) (crossings cfg_two) /\
  (map fst (current_phases (after_reset cfg_two)) = crossings cfg_two ->
   (actions_in_range cfg_two (current_phases (after_reset cfg_two)) [2; 0] <->
    Forall (fun p => 0 <= fst p < snd p) (combine [2; 0] [4; 4]))).
Proof.
  assert (H : init_act_shape (crossings cfg_two) (crossing_phases cfg_two) = inr [4; 4])
    by (vm_compute; reflexivity).
  split; [exact H|].
  exact (init_act_shape_green cfg_two [4; 4] (current_phases (after_reset cfg_two)) [2; 0] H).
Defined.

Lemma phase_hyp_two_lanes :
  list_contains "phase" (obs_type cfg_two_lanes) = true ->
  forall cross, In cross (crossings cfg_two_lanes) ->
  exists ph, dict_get (current_phases (after_reset cfg_two_lanes)) cross = Some ph /\
             - glen cfg_two_lanes cross <= ph < glen cfg_two_lanes cross.
Proof.
  intros _ cross Hc.
  assert (E : current_phases (after_reset cfg_two_lanes)
              = [("intersection_1_1"%string, 0); ("intersection_2_1"%string, 0)])
    by (vm_compute; reflexivity).
  rewrite E; destruct Hc as [<-|[<-|[]]]; exists 0;
    (split; [reflexivity|unfold glen; simpl; lia]).
Defined.

Lemma get_obs_layout_witness :
  NoDup (crossings cfg_two_lanes) /\
  map fst (crossing_phases cfg_two_lanes) = crossings cfg_two_lanes /\
  map fst (crossing_in_roads cfg_two_lanes) = crossings cfg_two_lanes /\
  _get_obs cfg_two_lanes (after_reset cfg_two_lanes)
  = inr [("intersection_1_1"%string, [1; 0; 0; 0; 2; 1; 2; 1]);
         ("intersection_2_1"%string, [1; 0; 0; 0; 3; 3])] /\
  _get_obs cfg_two_lanes (after_reset cfg_two_lanes) =
  inr (map (fun cross => (cross, obs_features cfg_two_lanes (after_reset cfg_two_lanes) cross))
           (crossings cfg_two_lanes)).
Proof.
  assert (Hn : NoDup (crossings cfg_two_lanes))
    by (simpl; repeat constructor; simpl; intuition discriminate).
  split; [exact Hn|split; [reflexivity|split; [reflexivity|split; [vm_compute; reflexivity|]]]].
  apply (get_obs_layout cfg_two_lanes (after_reset cfg_two_lanes) Hn eq_refl eq_refl
           phase_hyp_two_lanes).
Defined.

Lemma obs_len_matches_witness :
  build_road_lanes ["road_0_1_0"%string; "road_1_1_0"%string; "road_2_1_2"%string]
    (map fst (get_lane_vehicle_count cfg_two_lanes (eng (after_reset cfg_two_lanes))))
  = inr [("road_0_1_0"%string, ["road_0_1_0_0"%string; "road_0_1_0_1"%string]);
         ("road_1_1_0"%string, ["road_1_1_0_0"%string]); ("road_2_1_2"%string, [])] /\
  init_obs_len (obs_type cfg_two_lanes) (crossing_in_roads cfg_two_lanes)
    (crossing_phases cfg_two_lanes)
    [("road_0_1_0"%string, ["road_0_1_0_0"%string; "road_0_1_0_1"%string]);
     ("road_1_1_0"%string, ["road_1_1_0_0"%string]); ("road_2_1_2"%string, [])] = inr 14 /\
  exists obs, _get_obs cfg_two_lanes (after_reset cfg_two_lanes) = inr obs /\
              Z.of_nat (List.length (squeeze_obs obs)) = 14.
Proof.
  assert (Hb : build_road_lanes ["road_0_1_0"%string; "road_1_1_0"%string; "road_2_1_2"%string]
    (map fst (get_lane_vehicle_count cfg_two_lanes (eng (after_reset cfg_two_lanes))))
  = inr [("road_0_1_0"%string, ["road_0_1_0_0"%string; "road_0_1_0_1"%string]);
         ("road_1_1_0"%string, ["road_1_1_0_0"%string]); ("road_2_1_2"%string, [])])
    by (vm_compute; reflexivity).
  assert (Hl : init_obs_len (obs_type cfg_two_lanes) (crossing_in_roads cfg_two_lanes)
    (crossing_phases cfg_two_lanes)
    [("road_0_1_0"%string, ["road_0_1_0_0"%string; "road_0_1_0_1"%string]);
     ("road_1_1_0"%string, ["road_1_1_0_0"%string]); ("road_2_1_2"%string, [])] = inr 14)
    by (vm_compute; reflexivity).
  split; [exact Hb|split; [exact Hl|]].
  assert (Hn : NoDup (crossings cfg_two_lanes))
    by (simpl; repeat constructor; simpl; intuition discriminate).
  assert (Hr : forall cross roads, In (cross, roads) (crossing_in_roads cfg_two_lanes) ->
                 NoDup roads).
  { intros cross roads H; simpl in H.
    destruct H as [H|[H|[]]]; inversion H; subst; repeat constructor; simpl; auto. }
  exact (obs_len_matches cfg_two_lanes (after_reset cfg_two_lanes) _ _ 14 Hn eq_refl eq_refl
           Hr phase_hyp_two_lanes Hb eq_refl Hl).
Defined.

Lemma no_waiting_zero_reward_witness :
  NoDup (crossings cfg_two_idle) /\
  (forall c, In c (crossings cfg_two_idle) ->
     dict_get (crossing_in_roads cfg_two_idle) c <> None /\
     dict_get (crossing_out_roads cfg_two_idle) c <> None) /\
  (forall k v, In (k, v) (get_lane_waiting_vehicle_count cfg_two_idle (eng (after_reset cfg_two_idle))) ->
     v = 0) /\
  _get_reward cfg_two_idle (after_reset cfg_two_idle)
  = inr (map (fun c => (c, 0)) (crossings cfg_two_idle)).
Proof.
  assert (Hn : NoDup (crossings cfg_two_idle))
    by (simpl; repeat constructor; simpl; intuition discriminate).
  assert (Hk : forall c, In c (crossings cfg_two_idle) ->
     dict_get (crossing_in_roads cfg_two_idle) c <> None /\
     dict_get (crossing_out_roads cfg_two_idle) c <> None)
    by (intros c [<-|[<-|[]]]; split; vm_compute; discriminate).
  assert (Hz : forall k v,
     In (k, v) (get_lane_waiting_vehicle_count cfg_two_idle (eng (after_reset cfg_two_idle))) -> v = 0)
    by (intros k v H; simpl in H; destruct H as [H|[H|[H|[]]]]; inversion H; reflexivity).
  split; [exact Hn|split; [exact Hk|split; [exact Hz|]]].
  exact (no_waiting_zero_reward cfg_two_idle (after_reset cfg_two_idle) Hn Hk Hz).
Defined.

Lemma reward_missing_roads_keyerror_witness :
  In "intersection_1_1"%string (crossings cfg_two_no_out) /\
  dict_get (crossing_out_roads cfg_two_no_out) "intersection_1_1" = None /\
  _get_reward cfg_two_no_out (after_reset cfg_two_no_out) = inl KeyError.
Proof.
  split; [left; reflexivity|split; [reflexivity|]].
  apply (reward_missing_roads_keyerror cfg_two_no_out (after_reset cfg_two_no_out)
           "intersection_1_1"); [left; reflexivity|right; reflexivity].
Defined.

Lemma reset_trace_witness :
  reset cfg_two init_state = Ok [1; 0; 0; 0; 1; 0; 0; 0] (after_reset cfg_two) /\
  eng (after_reset cfg_two) = eng init_state ++ EngReset ::
    (if no_actions cfg_two then []
     else flat_map (fun c => opt_cmd c (gphase cfg_two c 0)) (crossings cfg_two)) /\
  total_duration (after_reset cfg_two) = 0 /\ total_reward (after_reset cfg_two) = 0 /\
  (no_actions cfg_two = false ->
   forall c, In c (crossings cfg_two) -> gphase cfg_two c 0 <> None) /\
  exists obs, _get_obs cfg_two (after_reset cfg_two) = inr obs /\
              [1; 0; 0; 0; 1; 0; 0; 0] = squeeze_obs obs.
Proof.
  assert (H : reset cfg_two init_state = Ok [1; 0; 0; 0; 1; 0; 0; 0] (after_reset cfg_two))
    by (vm_compute; reflexivity).
  split; [exact H|].
  exact (reset_trace cfg_two init_state _ _ H).
Defined.

Lemma reset_missing_green_witness :
  no_actions cfg_one_no_green = false /\
  In "intersection_1_1"%string (crossings cfg_one_no_green) /\
  gphase cfg_one_no_green "intersection_1_1" 0 = None /\
  reset cfg_one_no_green init_state
  = Err IndexError (mkState [EngReset] 0 0 []) /\
  exists e s', reset cfg_one_no_green init_state = Err e s' /\
    (e = KeyError \/ e = IndexError) /\
    total_duration s' = 0 /\ total_reward s' = 0 /\
    exists tail, eng s' = eng init_state ++ EngReset :: tail.
Proof.
  split; [reflexivity|split; [left; reflexivity|split; [reflexivity|split]]].
  - vm_compute; reflexivity.
  - apply (reset_missing_green cfg_one_no_green init_state "intersection_1_1");
      [reflexivity|left; reflexivity|reflexivity].
Defined.

Lemma step_reward_accumulates_witness :
  step cfg_two_lanes act_two deep_reward_state
  = Ok ([0; 0; 1; 0; 2; 1; 2; 1; 1; 0; 0; 0; 3; 3], -3, false)
       (res_state (step cfg_two_lanes act_two deep_reward_state)) /\
  total_reward (res_state (step cfg_two_lanes act_two deep_reward_state)) = -16777220 /\
  exists obs rw,
    _get_obs cfg_two_lanes (res_state (step cfg_two_lanes act_two deep_reward_state))
      = inr obs /\
    [0; 0; 1; 0; 2; 1; 2; 1; 1; 0; 0; 0; 3; 3] = squeeze_obs obs /\
    _get_reward cfg_two_lanes (res_state (step cfg_two_lanes act_two deep_reward_state))
      = inr rw /\
    -3 = round_f32 (sum_values rw) /\
    total_reward (res_state (step cfg_two_lanes act_two deep_reward_state))
      = round_f32 (total_reward deep_reward_state + -3).
Proof.
  assert (H : step cfg_two_lanes act_two deep_reward_state
    = Ok ([0; 0; 1; 0; 2; 1; 2; 1; 1; 0; 0; 0; 3; 3], -3, false)
         (res_state (step cfg_two_lanes act_two deep_reward_state)))
    by (vm_compute; reflexivity).
  split; [exact H|split; [vm_compute; reflexivity|]].
  exact (step_reward_accumulates cfg_two_lanes act_two deep_reward_state _ _ _ _ H).
Defined.

Lemma reset_play_counters_witness :
  reset cfg_two_lanes init_state
  = Ok [1; 0; 0; 0; 2; 1; 2; 1; 1; 0; 0; 0; 3; 3] (after_reset cfg_two_lanes) /\
  play cfg_two_lanes [act_two; AVector [1; 0]] (after_reset cfg_two_lanes)
  = Ok [([0; 0; 1; 0; 2; 1; 2; 1; 1; 0; 0; 0; 3; 3], -3, false);
        ([0; 1; 0; 0; 2; 1; 2; 1; 1; 0; 0; 0; 3; 3], -3, true)]
       (res_state (play cfg_two_lanes [act_two; AVector [1; 0]] (after_reset cfg_two_lanes))) /\
  (let outs := [([0; 0; 1; 0; 2; 1; 2; 1; 1; 0; 0; 0; 3; 3], -3, false);
                ([0; 1; 0; 0; 2; 1; 2; 1; 1; 0; 0; 0; 3; 3], -3, true)] in
   let s' := res_state (play cfg_two_lanes [act_two; AVector [1; 0]]
                             (after_reset cfg_two_lanes)) in
   List.length outs = List.length [act_two; AVector [1; 0]] /\
   total_duration s' = Z.of_nat (List.length [act_two; AVector [1; 0]]) * cycle cfg_two_lanes /\
   total_reward s' = fold_left (fun t r => round_f32 (t + r))
                               (map (fun x => snd (fst x)) outs) 0 /\
   map snd outs = map (fun k => max_episode_duration cfg_two_lanes <?
                                  Z.of_nat k * cycle cfg_two_lanes)
                      (seq 1 (List.length [act_two; AVector [1; 0]]))).
Proof.
  assert (Hr : reset cfg_two_lanes init_state
    = Ok [1; 0; 0; 0; 2; 1; 2; 1; 1; 0; 0; 0; 3; 3] (after_reset cfg_two_lanes))
    by (vm_compute; reflexivity).
  assert (Hp : play cfg_two_lanes [act_two; AVector [1; 0]] (after_reset cfg_two_lanes)
    = Ok [([0; 0; 1; 0; 2; 1; 2; 1; 1; 0; 0; 0; 3; 3], -3, false);
          ([0; 1; 0; 0; 2; 1; 2; 1; 1; 0; 0; 0; 3; 3], -3, true)]
         (res_state (play cfg_two_lanes [act_two; AVector [1; 0]] (after_reset cfg_two_lanes))))
    by (vm_compute; reflexivity).
  split; [exact Hr|split; [exact Hp|]].
  exact (reset_play_counters cfg_two_lanes [act_two; AVector [1; 0]] init_state _ _ _ _ Hr Hp).
Defined.
